(** * Chat backend: signed-login verification, auth gateway and session hub

    A shallow embedding of [server/routes.ts] and [server/websocket.ts].

    JavaScript strings are sequences of UTF-16 code units; they are modelled
    as [list N].  Byte buffers are [list N] too, every element below 256.
    The platform functions the two files call (SHA-256, HMAC, hex decoding
    of [Buffer.from], [decodeURIComponent], [querystring.parse],
    [JSON.parse], [BigInt]) are written out after their specifications so
    that the handlers can be evaluated on concrete requests.

    Code that can throw returns an [outcome]; handlers are programs over the
    state they change ([prog]).  A handler runs to its end before the next
    event is taken: the interleavings that the [await]s of the source allow
    between two handlers are not part of the model.  The store
    ([server/storage.ts]) is modelled from the operations the specification
    lists for it.

    The first part holds the definitions, the second one the properties. *)

From Stdlib Require Import ZArith NArith QArith Qround Lia.
From stdpp Require Import base option list sorting strings gmap.

Open Scope N_scope.

(** ** Strings and bytes *)

Abbreviation jsstring := (list N).
Abbreviation bytes := (list N) (only parsing).

Module Str.

Definition of_ascii (c : Ascii.ascii) : N := Ascii.N_of_ascii c.

(** An ASCII literal as a JavaScript string. *)
Fixpoint lit (s : String.string) : jsstring :=
  match s with
  | String.EmptyString => []
  | String.String c r => of_ascii c :: lit r
  end.

(** An ASCII literal in which every apostrophe stands for a double quote. *)
Definition quoted (s : String.string) : jsstring :=
  map (fun c => if c =? 39 then 34 else c) (lit s).

(** The text of a string whose units are all below 256. *)
Definition show (s : jsstring) : String.string :=
  fold_right (fun c r => String.String (Ascii.ascii_of_N c) r) String.EmptyString s.

(** [String.prototype.split] with a one-unit separator: the pieces between
    the occurrences of [sep], always at least one piece. *)
Fixpoint split (sep : N) (s : jsstring) : list jsstring :=
  match s with
  | [] => [[]]
  | c :: r =>
      if N.eqb c sep then [] :: split sep r
      else match split sep r with
           | [] => [[c]]
           | p :: ps => (c :: p) :: ps
           end
  end.

(** [Array.prototype.join]. *)
Fixpoint join (sep : jsstring) (l : list jsstring) : jsstring :=
  match l with
  | [] => []
  | [x] => x
  | x :: r => x ++ sep ++ join sep r
  end.

(** Comparison of two strings by code units, the order of
    [Array.prototype.sort] without a comparator. *)
Fixpoint compare (a b : jsstring) : comparison :=
  match a, b with
  | [], [] => Eq
  | [], _ :: _ => Lt
  | _ :: _, [] => Gt
  | x :: a', y :: b' =>
      match N.compare x y with
      | Eq => compare a' b'
      | c => c
      end
  end.

Definition le (a b : jsstring) : Prop := compare a b <> Gt.

(** White space and line terminators removed by [String.prototype.trim]. *)
Definition is_space (c : N) : bool :=
  (c =? 9) || (c =? 10) || (c =? 11) || (c =? 12) || (c =? 13) || (c =? 32)
  || (c =? 160) || (c =? 5760) || ((8192 <=? c) && (c <=? 8202))
  || (c =? 8232) || (c =? 8233) || (c =? 8239) || (c =? 8287)
  || (c =? 12288) || (c =? 65279).

Fixpoint trim_start (s : jsstring) : jsstring :=
  match s with
  | c :: r => if is_space c then trim_start r else s
  | [] => []
  end.

Definition trim (s : jsstring) : jsstring :=
  rev (trim_start (rev (trim_start s))).

End Str.

Notation "'js' s" := (Str.lit s%string) (at level 9, s at level 0, only parsing).
Notation "'jsq' s" := (Str.quoted s%string) (at level 9, s at level 0, only parsing).

(** ** Hexadecimal *)

Module Hex.

Definition digit (n : N) : N := if n <? 10 then 48 + n else 87 + n.

(** [digest('hex')]: two lowercase digits per byte. *)
Definition encode (b : bytes) : jsstring :=
  flat_map (fun x => [digit (x / 16); digit (x mod 16)]) b.

Definition unhex (c : N) : option N :=
  if (48 <=? c) && (c <=? 57) then Some (c - 48)
  else if (97 <=? c) && (c <=? 102) then Some (c - 87)
  else if (65 <=? c) && (c <=? 70) then Some (c - 55)
  else None.

(** [Buffer.from(s, 'hex')]: pairs of digits of either case are decoded
    until the first pair that is not two digits; a last single unit is
    dropped. *)
Fixpoint decode (s : jsstring) : bytes :=
  match s with
  | a :: b :: r =>
      match unhex a, unhex b with
      | Some x, Some y => (16 * x + y) :: decode r
      | _, _ => []
      end
  | _ => []
  end.

End Hex.

(** ** SHA-256 and HMAC-SHA256 (FIPS 180-4, RFC 2104) over 32-bit words in [N] *)

Module Sha256.

Definition w32 (x : N) : N := x mod 4294967296.
Definition add32 (x y : N) : N := w32 (x + y).
Definition rotr (n x : N) : N :=
  N.lor (N.shiftr x n) (w32 (N.shiftl x (32 - n))).
Definition not32 (x : N) : N := N.lxor x 4294967295.

Definition Ch (x y z : N) := N.lxor (N.land x y) (N.land (not32 x) z).
Definition Maj (x y z : N) :=
  N.lxor (N.lxor (N.land x y) (N.land x z)) (N.land y z).
Definition Sigma0 x := N.lxor (N.lxor (rotr 2 x) (rotr 13 x)) (rotr 22 x).
Definition Sigma1 x := N.lxor (N.lxor (rotr 6 x) (rotr 11 x)) (rotr 25 x).
Definition sigma0 x := N.lxor (N.lxor (rotr 7 x) (rotr 18 x)) (N.shiftr x 3).
Definition sigma1 x := N.lxor (N.lxor (rotr 17 x) (rotr 19 x)) (N.shiftr x 10).

(** The round constants, eight hexadecimal digits each (the fractional
    parts of the cube roots of the first 64 primes). *)
Definition K_text : jsstring :=
  js "428a2f9871374491b5c0fbcfe9b5dba53956c25b59f111f1923f82a4ab1c5ed5"
  ++ js "d807aa9812835b01243185be550c7dc372be5d7480deb1fe9bdc06a7c19bf174"
  ++ js "e49b69c1efbe47860fc19dc6240ca1cc2de92c6f4a7484aa5cb0a9dc76f988da"
  ++ js "983e5152a831c66db00327c8bf597fc7c6e00bf3d5a7914706ca635114292967"
  ++ js "27b70a852e1b21384d2c6dfc53380d13650a7354766a0abb81c2c92e92722c85"
  ++ js "a2bfe8a1a81a664bc24b8b70c76c51a3d192e819d6990624f40e3585106aa070"
  ++ js "19a4c1161e376c082748774c34b0bcb5391c0cb34ed8aa4a5b9cca4f682e6ff3"
  ++ js "748f82ee78a5636f84c878148cc7020890befffaa4506cebbef9a3f7c67178f2".

Record state := St { ha : N; hb : N; hc : N; hd : N;
                     he : N; hf : N; hg : N; hh : N }.

(** Big-endian bytes of a word, and back. *)
Definition word_bytes (w : N) : bytes :=
  [ N.shiftr w 24 mod 256; N.shiftr w 16 mod 256; N.shiftr w 8 mod 256; w mod 256 ].

Fixpoint words_of (b : bytes) : list N :=
  match b with
  | b0 :: b1 :: b2 :: b3 :: r =>
      (N.shiftl b0 24 + N.shiftl b1 16 + N.shiftl b2 8 + b3) :: words_of r
  | _ => []
  end.

Definition K : list N := Eval vm_compute in words_of (Hex.decode K_text).

(** The initial hash value (the fractional parts of the square roots of the
    first 8 primes). *)
Definition init : state :=
  Eval vm_compute in
  match words_of (Hex.decode
          (js "6a09e667bb67ae853c6ef372a54ff53a510e527f9b05688c1f83d9ab5be0cd19")) with
  | [a; b; c; d; e; f; g; h] => St a b c d e f g h
  | _ => St 0 0 0 0 0 0 0 0
  end.

(** The message schedule, newest word first: [sched n acc] appends [n] words
    to the 16 (or more) words held, reversed, in [acc]. *)
Fixpoint sched (n : nat) (acc : list N) : list N :=
  match n with
  | O => acc
  | S n' =>
      let w := add32 (add32 (sigma1 (nth 1 acc 0)) (nth 6 acc 0))
                     (add32 (sigma0 (nth 14 acc 0)) (nth 15 acc 0)) in
      sched n' (w :: acc)
  end.

Definition round (s : state) (kw : N * N) : state :=
  let '(k, w) := kw in
  let t1 := add32 (add32 (add32 (hh s) (Sigma1 (he s)))
                         (add32 (Ch (he s) (hf s) (hg s)) k)) w in
  let t2 := add32 (Sigma0 (ha s)) (Maj (ha s) (hb s) (hc s)) in
  St (add32 t1 t2) (ha s) (hb s) (hc s) (add32 (hd s) t1) (he s) (hf s) (hg s).

Definition compress (s : state) (block : bytes) : state :=
  let w := rev (sched 48 (rev (words_of block))) in
  let r := fold_left round (combine K w) s in
  St (add32 (ha s) (ha r)) (add32 (hb s) (hb r)) (add32 (hc s) (hc r))
     (add32 (hd s) (hd r)) (add32 (he s) (he r)) (add32 (hf s) (hf r))
     (add32 (hg s) (hg r)) (add32 (hh s) (hh r)).

(** Padding: a 1 bit, zeros, and the bit length on 64 bits. *)
Definition pad (m : bytes) : bytes :=
  let len := N.of_nat (length m) in
  let zeros := N.to_nat ((119 - len mod 64) mod 64) in
  let bits := len * 8 in
  m ++ [128] ++ repeat 0 zeros
    ++ word_bytes (N.shiftr bits 32 mod 4294967296) ++ word_bytes (w32 bits).

Fixpoint blocks (n : nat) (s : state) (b : bytes) : state :=
  match n with
  | O => s
  | S n' => blocks n' (compress s (firstn 64 b)) (skipn 64 b)
  end.

Definition out (s : state) : bytes :=
  word_bytes (ha s) ++ word_bytes (hb s) ++ word_bytes (hc s) ++ word_bytes (hd s)
  ++ word_bytes (he s) ++ word_bytes (hf s) ++ word_bytes (hg s) ++ word_bytes (hh s).

Definition sha256 (m : bytes) : bytes :=
  let p := pad m in
  out (blocks (Nat.div (length p) 64) init p).

Definition xor_pad (c : N) (key : bytes) : bytes :=
  map (fun b => N.lxor b c) (key ++ repeat 0 (64 - length key)%nat).

(** [crypto.createHmac('sha256', key).update(m).digest()]. *)
Definition hmac (key m : bytes) : bytes :=
  let k := if (64 <? length key)%nat then sha256 key else key in
  sha256 (xor_pad 92 k ++ sha256 (xor_pad 54 k ++ m)).

End Sha256.


(** ** Exceptions *)

Inductive exn := URIError | RangeError | TypeError | SyntaxError.

(** The result of running a piece of JavaScript: a value or a thrown
    exception. *)
Inductive outcome (A : Type) :=
| Ret (a : A)
| Throw (e : exn).
Arguments Ret {A} a.
Arguments Throw {A} e.

Definition bind {A B} (m : outcome A) (k : A -> outcome B) : outcome B :=
  match m with
  | Ret a => k a
  | Throw e => Throw e
  end.

Notation "x <- m ;; k" := (bind m (fun x => k))
  (at level 100, m at next level, right associativity).

(** [try { body } catch (error) { handler }]: the handler is code too, and
    what it throws is thrown by the whole statement. *)
Definition try_catch {A} (body : outcome A) (handler : exn -> outcome A) : outcome A :=
  match body with
  | Ret a => Ret a
  | Throw e => handler e
  end.

(** ** UTF-8 *)

Module Utf8.

Definition is_high (c : N) : bool := (0xD800 <=? c) && (c <=? 0xDBFF).
Definition is_low (c : N) : bool := (0xDC00 <=? c) && (c <=? 0xDFFF).

(** The bytes of one code point. *)
Definition enc (cp : N) : bytes :=
  if cp <? 0x80 then [cp]
  else if cp <? 0x800 then [0xC0 + cp / 64; 0x80 + cp mod 64]
  else if cp <? 0x10000 then
    [0xE0 + cp / 4096; 0x80 + (cp / 64) mod 64; 0x80 + cp mod 64]
  else
    [0xF0 + cp / 262144; 0x80 + (cp / 4096) mod 64;
     0x80 + (cp / 64) mod 64; 0x80 + cp mod 64].

(** The bytes hashed by [update(s)] for a string [s]: surrogate pairs are
    combined and a lone surrogate becomes U+FFFD. *)
Fixpoint encode (s : jsstring) : bytes :=
  match s with
  | [] => []
  | c :: r =>
      if is_high c then
        match r with
        | d :: r' =>
            if is_low d
            then enc (0x10000 + (c - 0xD800) * 0x400 + (d - 0xDC00)) ++ encode r'
            else enc 0xFFFD ++ encode r
        | [] => enc 0xFFFD
        end
      else if is_low c then enc 0xFFFD ++ encode r
      else enc c ++ encode r
  end.

(** [UTF16EncodeCodePoint]. *)
Definition units (cp : N) : jsstring :=
  if cp <? 0x10000 then [cp]
  else [0xD800 + (cp - 0x10000) / 0x400; 0xDC00 + (cp - 0x10000) mod 0x400].

Definition cont (b : N) : bool := (0x80 <=? b) && (b <=? 0xBF).

(** The code point of a well-formed sequence of two, three or four bytes:
    continuation bytes in range, shortest form, no surrogate, at most
    U+10FFFF. *)
Definition cp2 (b0 b1 : N) : option N :=
  let v := (b0 - 0xC0) * 64 + (b1 - 0x80) in
  if cont b1 && (0x80 <=? v) then Some v else None.

Definition cp3 (b0 b1 b2 : N) : option N :=
  let v := (b0 - 0xE0) * 4096 + (b1 - 0x80) * 64 + (b2 - 0x80) in
  if cont b1 && cont b2 && (0x800 <=? v) && negb ((0xD800 <=? v) && (v <=? 0xDFFF))
  then Some v else None.

Definition cp4 (b0 b1 b2 b3 : N) : option N :=
  let v := (b0 - 0xF0) * 262144 + (b1 - 0x80) * 4096 + (b2 - 0x80) * 64 + (b3 - 0x80) in
  if cont b1 && cont b2 && cont b3 && (0x10000 <=? v) && (v <=? 0x10FFFF)
  then Some v else None.

End Utf8.

(** ** [decodeURIComponent] *)

Module Uri.

(** A code unit copied as it is, or the byte of an escape [%XY]. *)
Inductive token := Unit (c : N) | Byte (b : N).

(** Every [%] must be followed by two hexadecimal digits. *)
Fixpoint tokens (s : jsstring) : outcome (list token) :=
  match s with
  | [] => Ret []
  | c :: r =>
      if c =? 37 then
        match r with
        | a :: b :: r' =>
            match Hex.unhex a, Hex.unhex b with
            | Some x, Some y => t <- tokens r' ;; Ret (Byte (16 * x + y) :: t)
            | _, _ => Throw URIError
            end
        | _ => Throw URIError
        end
      else t <- tokens r ;; Ret (Unit c :: t)
  end.

Definition emit (o : option N) (k : outcome jsstring) : outcome jsstring :=
  match o with
  | Some cp => s <- k ;; Ret (Utf8.units cp ++ s)
  | None => Throw URIError
  end.

(** An escaped byte below 0x80 is one unit; a lead byte announces one to
    three more escapes, and the group must be well-formed UTF-8. *)
Fixpoint assemble (t : list token) : outcome jsstring :=
  match t with
  | [] => Ret []
  | Unit c :: r => s <- assemble r ;; Ret (c :: s)
  | Byte b :: r =>
      if b <? 0x80 then s <- assemble r ;; Ret (b :: s)
      else if b <? 0xC0 then Throw URIError
      else if b <? 0xE0 then
        match r with
        | Byte b1 :: r1 => emit (Utf8.cp2 b b1) (assemble r1)
        | _ => Throw URIError
        end
      else if b <? 0xF0 then
        match r with
        | Byte b1 :: Byte b2 :: r2 => emit (Utf8.cp3 b b1 b2) (assemble r2)
        | _ => Throw URIError
        end
      else if b <? 0xF8 then
        match r with
        | Byte b1 :: Byte b2 :: Byte b3 :: r3 =>
            emit (Utf8.cp4 b b1 b2 b3) (assemble r3)
        | _ => Throw URIError
        end
      else Throw URIError
  end.

Definition decodeURIComponent (s : jsstring) : outcome jsstring :=
  t <- tokens s ;; assemble t.

End Uri.

(** ** JavaScript values *)

(** The values that reach the handlers: what [JSON.parse] and
    [querystring.parse] build, plus [undefined], [BigInt] and [Date].
    Numbers are exact rationals (no rounding to a double); an object is the
    list of its own properties in creation order. *)
#[warnings="-register-all"]
Inductive value :=
| VUndefined
| VNull
| VBool (b : bool)
| VNum (q : Q)
| VStr (s : jsstring)
| VBigInt (z : Z)
| VDate (ms : Z)
| VArr (items : list value)
| VObj (props : list (jsstring * value)).

(** ** The signature verifier: [verifyInitData] *)

Module Verifier.

Definition amp : N := 38.
Definition eq_sign : N := 61.
Definition newline : N := 10.
Definition hash_key : jsstring := js "hash".
Definition proto_key : jsstring := js "__proto__".

(** [kv[k] = v] on an object created by [{}] and holding strings: the
    assignment to [__proto__] reaches the setter inherited from
    [Object.prototype], which ignores a string, so no property is made. *)
Definition obj_set (k v : jsstring) (kv : gmap jsstring jsstring)
  : gmap jsstring jsstring :=
  if bool_decide (k = proto_key) then kv else <[k:=v]> kv.

(** The loop [for (const [k, v] of params)]: [k] and [v] are the first two
    pieces of the entry, [v] is [undefined] when there is one piece only. *)
Fixpoint collect (params : list (list jsstring)) (kv : gmap jsstring jsstring)
  : outcome (gmap jsstring jsstring) :=
  match params with
  | [] => Ret kv
  | p :: rest =>
      match p with
      | [] | [] :: _ => collect rest kv
      | k :: vs =>
          d <- Uri.decodeURIComponent (default [] (head vs)) ;;
          collect rest (obj_set k d kv)
      end
  end.

(** [params] and the loop over it, for the entries between ampersands. *)
Definition parse_entries (entries : list jsstring) : outcome (gmap jsstring jsstring) :=
  collect (map (Str.split eq_sign) entries) ∅.

Definition parse (initData : jsstring) : outcome (gmap jsstring jsstring) :=
  parse_entries (Str.split amp initData).

#[global] Instance str_le_dec : RelDecision Str.le.
Proof. intros a b. unfold Str.le. destruct (Str.compare a b); [left|left|right]; congruence. Defined.

(** [Object.keys(kv).filter(k => k !== 'hash').sort()].  The keys of an
    object are distinct, so the order in which [Object.keys] lists them
    does not show after the sort (see [sorted_keys_order_irrelevant]). *)
Definition sorted_keys (kv : gmap jsstring jsstring) : list jsstring :=
  merge_sort Str.le (filter (fun k => k <> hash_key) (map_to_list kv).*1).

Definition data_check_string (kv : gmap jsstring jsstring) : jsstring :=
  Str.join [newline]
    (map (fun k => k ++ [eq_sign] ++ kv !!! k) (sorted_keys kv)).

(** [crypto.createHash('sha256').update(botToken).digest()]. *)
Definition secret_key (botToken : jsstring) : bytes :=
  Sha256.sha256 (Utf8.encode botToken).

Definition hmac_hex (botToken : jsstring) (kv : gmap jsstring jsstring) : jsstring :=
  Hex.encode (Sha256.hmac (secret_key botToken) (Utf8.encode (data_check_string kv))).

(** [crypto.timingSafeEqual]: throws when the lengths differ. *)
Definition timingSafeEqual (a b : bytes) : outcome bool :=
  if bool_decide (length a = length b) then Ret (bool_decide (a = b))
  else Throw RangeError.

(** The body of the [try] block. *)
Definition verify_body (initData : value) (botToken : jsstring) : outcome bool :=
  match initData with
  | VStr s =>
      kv <- parse s ;;
      match kv !! hash_key with
      | None | Some [] => Ret false
      | Some hash =>
          timingSafeEqual (Hex.decode (hmac_hex botToken kv)) (Hex.decode hash)
      end
  | _ => Throw TypeError
  end.

Definition verifyInitData (initData : value) (botToken : jsstring) : outcome bool :=
  try_catch (verify_body initData botToken) (fun _ => Ret false).

End Verifier.

(** ** The verifier in the words of the specification *)

Module VerifierSpec.
Import Verifier.

(** A string without surrogates: every unit is a character below U+D800. *)
Definition plain (s : jsstring) : Prop := Forall (fun c => c < 0xD800) s.

(** The order of the UTF-8 encodings, byte by byte. *)
Definition bytes_le (a b : jsstring) : Prop :=
  Str.le (Utf8.encode a) (Utf8.encode b).

(** [cs] is the check string of [kv] for the order [le]: the keys other
    than [hash], sorted, each rendered as [key=value], joined by single
    newlines. *)
Definition is_check_string (le : relation jsstring)
    (kv : gmap jsstring jsstring) (cs : jsstring) : Prop :=
  exists keys : list jsstring,
    NoDup keys
    /\ (forall k, k ∈ keys <-> is_Some (kv !! k) /\ k <> hash_key)
    /\ Sorted le keys
    /\ cs = Str.join [newline]
              (map (fun k => k ++ [eq_sign] ++ default [] (kv !! k)) keys).

(** The digest the payload must carry: HMAC-SHA256 of the check string,
    keyed by the SHA-256 digest of the secret. *)
Definition expected_digest (botToken cs : jsstring) : bytes :=
  Sha256.hmac (Sha256.sha256 (Utf8.encode botToken)) (Utf8.encode cs).


(** Validity as compared by the code, for an order of the keys: the [hash]
    value decoded as hexadecimal is the digest of the check string. *)
Definition decodes_to_digest (le : relation jsstring) (initData botToken : jsstring)
  : Prop :=
  exists kv hash cs,
    parse initData = Ret kv
    /\ kv !! hash_key = Some hash
    /\ is_check_string le kv cs
    /\ Hex.decode hash = expected_digest botToken cs.

(** The order of the code is the order by code units. *)
Definition hash_decodes_to_digest (initData botToken : jsstring) : Prop :=
  decodes_to_digest Str.le initData botToken.

(** The key and the value the loop takes from an entry: the first and
    the second piece around [=], the value being empty when it is
    missing. *)
Definition entry_key (entry : jsstring) : jsstring :=
  default [] (head (Str.split eq_sign entry)).

Definition entry_value (entry : jsstring) : jsstring :=
  default [] (head (tail (Str.split eq_sign entry))).

(** An entry as the specification reads it: a non-empty key, a value, and
    a value that can be percent-decoded; anything else is malformed. *)
Definition well_formed (entry : jsstring) : option (jsstring * jsstring) :=
  match Str.split eq_sign entry with
  | k :: v :: _ =>
      match k, Uri.decodeURIComponent v with
      | _ :: _, Ret d => Some (k, d)
      | _, _ => None
      end
  | _ => None
  end.

(** Parsing that skips every malformed entry. *)
Definition parse_skipping (initData : jsstring) : gmap jsstring jsstring :=
  foldl (fun kv entry =>
           match well_formed entry with
           | Some (k, d) => obj_set k d kv
           | None => kv
           end) ∅ (Str.split amp initData).

(** Verification that proceeds on the entries left by [parse_skipping]. *)
Definition verify_skipping (initData botToken : jsstring) : bool :=
  let kv := parse_skipping initData in
  match kv !! hash_key with
  | Some hash => bool_decide (Hex.decode hash = Hex.decode (hmac_hex botToken kv))
  | None => false
  end.

(** Skipping as the specification states it, for one payload: the map is
    the one left after skipping the malformed entries, and verification
    proceeds on it. *)
Definition skips_malformed (initData botToken : jsstring) : Prop :=
  parse initData = Ret (parse_skipping initData)
  /\ verifyInitData (VStr initData) botToken
     = Ret (verify_skipping initData botToken).

End VerifierSpec.

(** ** Sample requests *)

Module Samples.

Definition token : jsstring := js "12345:TEST".

(** Signed for the check string [auth_date=1700000000], newline, [user=x];
    the digest is written in uppercase. *)
Definition uppercase_payload : jsstring :=
  js "auth_date=1700000000&user=x&hash=C7765B76CFE1429E61FD241CDB135C3077C4E295A7D25716F06DFDC563AC710B".

(** The same digest in lowercase, followed by two units that are not
    hexadecimal digits. *)
Definition trailing_payload : jsstring :=
  js "auth_date=1700000000&user=x&hash=c7765b76cfe1429e61fd241cdb135c3077c4e295a7d25716f06dfdc563ac710bzz".

Definition lowercase_payload : jsstring :=
  js "auth_date=1700000000&user=x&hash=c7765b76cfe1429e61fd241cdb135c3077c4e295a7d25716f06dfdc563ac710b".

(** Signed for the check string [a=1]; the entry [b] has a value that
    cannot be percent-decoded. *)
Definition undecodable_payload : jsstring :=
  js "a=1&b=%&hash=94862e59e7f1af72f6be7625c591132626bac44e8745f8b60cbac57627822d7f".

(** Signed for the check string [a=1]; the entry [b] has no value. *)
Definition missing_value_payload : jsstring :=
  js "a=1&b&hash=94862e59e7f1af72f6be7625c591132626bac44e8745f8b60cbac57627822d7f".

(** Signed for the check string [a=1], newline, [b=]. *)
Definition missing_value_signed : jsstring :=
  js "a=1&b&hash=524e105140f12a4fe049a383402b5affb3039da7c499e0670819ec64b4fb09e7".

(** A [hash] of four digits only. *)
Definition short_hash_payload : jsstring := js "a=1&hash=abcd".

(** Signed payloads whose [user] field is, percent-encoded, the JSON text
    given before each. *)

(** [{"id":42,"username":"alice"}] *)
Definition alice_payload : jsstring :=
  js "auth_date=1700000000&user=%7B%22id%22%3A42%2C%22username%22%3A%22alice%22%7D&hash=04301238d31f433a551e0b5d3b6e7def908d10cedfc696978073b6c26ea1d48f".

(** [{"id":43,"username":"bob"}] *)
Definition bob_payload : jsstring :=
  js "auth_date=1700000000&user=%7B%22id%22%3A43%2C%22username%22%3A%22bob%22%7D&hash=513ef73f2773266ebfd270080f9663caff6268d8252008de8694d1b9df09dd0f".


(** [{"id":"abc"}] *)
Definition text_id_payload : jsstring :=
  js "auth_date=1700000000&user=%7B%22id%22%3A%22abc%22%7D&hash=a1f12b972d3d9a81821a2912fab6ca46295b1bf332ed3ba0a6b48007639991de".

(** [{"id":true}] *)
Definition true_id_payload : jsstring :=
  js "auth_date=1700000000&user=%7B%22id%22%3Atrue%7D&hash=26f9d17d7fa91dc96fd7e87f1c97d7498fb22306524733964f8a16019e7fb2f8".

(** [{"id":1.5}] *)
Definition fraction_id_payload : jsstring :=
  js "auth_date=1700000000&user=%7B%22id%22%3A1.5%7D&hash=9f1c5e815d0c96137b567004d3d2d25f90015fa5667d44d40f3eee91729cf877".

(** [{"name":"x"}] *)
Definition no_id_payload : jsstring :=
  js "auth_date=1700000000&user=%7B%22name%22%3A%22x%22%7D&hash=5731871d091215d0f62ced06e57c6d73262cb42685f9fede74d25ed5d48bef19".

(** [{"id":42], which is not JSON. *)
Definition broken_json_payload : jsstring :=
  js "auth_date=1700000000&user=%7B%22id%22%3A42&hash=b9d64753ecfe0ddb4654239de1c4f19e1d46527fd81fdcb233980b1c2f6135e7".

(** No [user] field. *)
Definition no_user_payload : jsstring :=
  js "auth_date=1700000000&hash=96d960d98f35086a7c22784720eec966108bd9e3c39aa6c9f4a9141632097c91".

End Samples.

(** ** Operations on values *)

Module Js.

(** [ToBoolean]. *)
Definition truthy (v : value) : bool :=
  match v with
  | VUndefined | VNull => false
  | VBool b => b
  | VNum q => negb (Qnum q =? 0)%Z
  | VStr s => negb (bool_decide (s = []))
  | VBigInt z => negb (z =? 0)%Z
  | VDate _ | VArr _ | VObj _ => true
  end.

(** The last property of that name: a later definition of a key replaces
    the earlier one. *)
Fixpoint own (k : jsstring) (props : list (jsstring * value)) : option value :=
  match props with
  | [] => None
  | (k', v) :: r =>
      match own k r with
      | Some w => Some w
      | None => if bool_decide (k' = k) then Some v else None
      end
  end.

(** [v.k] for a key [k] that no prototype defines and that is not an
    array index or [length]: [undefined] unless [v] is an object with that
    property; reading a property of [undefined] or [null] throws. *)
Definition get (v : value) (k : jsstring) : outcome value :=
  match v with
  | VUndefined | VNull => Throw TypeError
  | VObj props => Ret (default VUndefined (own k props))
  | _ => Ret VUndefined
  end.

(** The property names of a value, at every depth and in order. *)
Fixpoint keys (v : value) : list jsstring :=
  match v with
  | VObj props =>
      (fix go (l : list (jsstring * value)) : list jsstring :=
         match l with
         | [] => []
         | (k, x) :: r => k :: keys x ++ go r
         end) props
  | VArr items =>
      (fix go (l : list value) : list jsstring :=
         match l with
         | [] => []
         | x :: r => keys x ++ go r
         end) items
  | _ => []
  end.


(** [a || b] on values. *)
Definition or_else (a b : value) : value := if truthy a then a else b.

(** Decimal digits of a natural number. *)
Fixpoint digits_fuel (fuel : nat) (n : N) (acc : jsstring) : jsstring :=
  match fuel with
  | O => acc
  | S f =>
      let acc' := (48 + n mod 10) :: acc in
      if n <? 10 then acc' else digits_fuel f (n / 10) acc'
  end.

Definition digits (n : N) : jsstring := digits_fuel (S (N.to_nat (N.log2 n))) n [].

Definition int_to_string (z : Z) : jsstring :=
  if (z <? 0)%Z then 45 :: digits (Z.abs_N z) else digits (Z.abs_N z).

Definition is_integer (q : Q) : bool := (Z.rem (Qnum q) (Zpos (Qden q)) =? 0)%Z.

(** A number at or above this bound is [Infinity] once read as a double. *)
Definition overflows (q : Q) : bool :=
  (2 ^ 1024 - 2 ^ 970 <=? Z.abs (Qnum q) / Zpos (Qden q))%Z.

Definition to_integer (q : Q) : Z := (Z.quot (Qnum q) (Zpos (Qden q)))%Z.

(** [ToString], as far as [BigInt] can tell: the text of a number that is
    not an integer below 10^21 holds a [.] or an [e] in JavaScript, and
    stands here as a lone [.], and so does the text of a date, which no
    handler converts. *)
Fixpoint to_string (v : value) : jsstring :=
  match v with
  | VUndefined => js "undefined"
  | VNull => js "null"
  | VBool true => js "true"
  | VBool false => js "false"
  | VNum q =>
      if is_integer q && (Z.abs (to_integer q) <? 10 ^ 21)%Z
      then int_to_string (to_integer q) else js "."
  | VStr s => s
  | VBigInt z => int_to_string z
  | VDate _ => js "."
  | VArr items =>
      Str.join (js ",")
        (map (fun x => match x with
                       | VUndefined | VNull => []
                       | _ => to_string x
                       end) items)
  | VObj _ => js "[object Object]"
  end.

Definition digit_value (radix : N) (c : N) : option N :=
  match Hex.unhex c with
  | Some d => if d <? radix then Some d else None
  | None => None
  end.

(** The value of a non-empty run of digits in the radix. *)
Fixpoint number_of (radix : N) (s : jsstring) (acc : N) : option N :=
  match s with
  | [] => Some acc
  | c :: r =>
      match digit_value radix c with
      | Some d => number_of radix r (radix * acc + d)
      | None => None
      end
  end.

Definition digits_in (radix : N) (s : jsstring) : option Z :=
  match s with
  | [] => None
  | _ => Z.of_N <$> number_of radix s 0
  end.

(** [StringToBigInt]: the trimmed text is empty (zero), decimal digits
    with an optional sign, or digits after [0x], [0o] or [0b]. *)
Definition string_to_bigint (s : jsstring) : option Z :=
  match Str.trim s with
  | [] => Some 0%Z
  | 48 :: 120 :: r | 48 :: 88 :: r => digits_in 16 r
  | 48 :: 111 :: r | 48 :: 79 :: r => digits_in 8 r
  | 48 :: 98 :: r | 48 :: 66 :: r => digits_in 2 r
  | 45 :: r => Z.opp <$> digits_in 10 r
  | 43 :: r => digits_in 10 r
  | r => digits_in 10 r
  end.

(** [BigInt(v)]. *)
Definition BigInt (v : value) : outcome Z :=
  match v with
  | VUndefined | VNull => Throw TypeError
  | VBool b => Ret (if b then 1 else 0)%Z
  | VNum q =>
      if is_integer q && negb (overflows q) then Ret (to_integer q)
      else Throw RangeError
  | VBigInt z => Ret z
  | VDate ms => Ret ms
  | _ =>
      match string_to_bigint (to_string v) with
      | Some z => Ret z
      | None => Throw SyntaxError
      end
  end.

End Js.

(** ** [JSON.parse] *)

Module Json.

Definition is_ws (c : N) : bool := (c =? 32) || (c =? 9) || (c =? 10) || (c =? 13).
Definition is_digit (c : N) : bool := (48 <=? c) && (c <=? 57).

Fixpoint skip_ws (s : jsstring) : jsstring :=
  match s with
  | c :: r => if is_ws c then skip_ws r else s
  | [] => []
  end.

(** The longest run of digits at the head, and what follows it. *)
Fixpoint span_digits (s : jsstring) : jsstring * jsstring :=
  match s with
  | c :: r =>
      if is_digit c then let '(d, r') := span_digits r in (c :: d, r') else ([], s)
  | [] => ([], [])
  end.

Definition hex4 (a b c d : N) : option N :=
  match Hex.unhex a, Hex.unhex b, Hex.unhex c, Hex.unhex d with
  | Some x, Some y, Some z, Some w => Some (4096 * x + 256 * y + 16 * z + w)
  | _, _, _, _ => None
  end.

Definition escape (c : N) : option N :=
  if c =? 34 then Some 34 else if c =? 92 then Some 92 else if c =? 47 then Some 47
  else if c =? 98 then Some 8 else if c =? 102 then Some 12 else if c =? 110 then Some 10
  else if c =? 114 then Some 13 else if c =? 116 then Some 9 else None.

Definition push (c : N) (o : option (jsstring * jsstring)) : option (jsstring * jsstring) :=
  match o with
  | Some (s, r) => Some (c :: s, r)
  | None => None
  end.

(** The text of a string after its opening quote, and what follows the
    closing quote. *)
Fixpoint string_body (s : jsstring) : option (jsstring * jsstring) :=
  match s with
  | [] => None
  | c :: r =>
      if c =? 34 then Some ([], r)
      else if c =? 92 then
        match r with
        | e :: r1 =>
            if e =? 117 then
              match r1 with
              | a :: b :: c' :: d :: r2 =>
                  match hex4 a b c' d with
                  | Some u => push u (string_body r2)
                  | None => None
                  end
              | _ => None
              end
            else
              match escape e with
              | Some u => push u (string_body r1)
              | None => None
              end
        | [] => None
        end
      else if c <? 32 then None
      else push c (string_body r)
  end.

Definition nat_of_digits (s : jsstring) : N :=
  fold_left (fun acc c => 10 * acc + (c - 48)) s 0.

(** The rational [m * 10 ^ e]. *)
Definition scale (m : Z) (e : Z) : Q :=
  if (0 <=? e)%Z then Qmake (m * 10 ^ e) 1
  else Qmake m (Z.to_pos (10 ^ (- e))).

(** A number: optional minus, integer part without a leading zero,
    optional fraction, optional exponent. *)
Definition number (s : jsstring) : option (Q * jsstring) :=
  let '(neg, s1) := match s with 45 :: r => (true, r) | _ => (false, s) end in
  let '(ip, s2) := span_digits s1 in
  match ip with
  | [] | 48 :: _ :: _ => None
  | _ =>
      let frac :=
        match s2 with
        | 46 :: r =>
            match span_digits r with
            | ([], _) => None
            | (fp, r') => Some (fp, r')
            end
        | _ => Some ([], s2)
        end in
      match frac with
      | None => None
      | Some (fp, s3) =>
          let expo :=
            match s3 with
            | 101 :: r | 69 :: r =>
                let '(eneg, r1) :=
                  match r with
                  | 45 :: r' => (true, r')
                  | 43 :: r' => (false, r')
                  | _ => (false, r)
                  end in
                match span_digits r1 with
                | ([], _) => None
                | (ed, r2) =>
                    let e := Z.of_N (nat_of_digits ed) in
                    Some (if eneg then (- e)%Z else e, r2)
                end
            | _ => Some (0%Z, s3)
            end in
          match expo with
          | None => None
          | Some (e, s4) =>
              let m := Z.of_N (nat_of_digits (ip ++ fp)) in
              Some (scale (if neg then (- m)%Z else m) (e - Z.of_nat (length fp)), s4)
          end
      end
  end.

(** Recursive descent; every call uses up one unit of [fuel], and twice the
    length of the text is more than a parse can use. *)
Fixpoint value_ (fuel : nat) (s : jsstring) : option (value * jsstring) :=
  match fuel with
  | O => None
  | S f =>
      match skip_ws s with
      | 123 :: r =>
          match skip_ws r with
          | 125 :: r' => Some (VObj [], r')
          | r' => members f r' []
          end
      | 91 :: r =>
          match skip_ws r with
          | 93 :: r' => Some (VArr [], r')
          | r' => elements f r' []
          end
      | 34 :: r =>
          match string_body r with
          | Some (str, r') => Some (VStr str, r')
          | None => None
          end
      | 116 :: 114 :: 117 :: 101 :: r => Some (VBool true, r)
      | 102 :: 97 :: 108 :: 115 :: 101 :: r => Some (VBool false, r)
      | 110 :: 117 :: 108 :: 108 :: r => Some (VNull, r)
      | s' =>
          match number s' with
          | Some (q, r) => Some (VNum q, r)
          | None => None
          end
      end
  end
with elements (fuel : nat) (s : jsstring) (acc : list value) : option (value * jsstring) :=
  match fuel with
  | O => None
  | S f =>
      match value_ f s with
      | Some (v, r) =>
          match skip_ws r with
          | 44 :: r' => elements f r' (v :: acc)
          | 93 :: r' => Some (VArr (rev (v :: acc)), r')
          | _ => None
          end
      | None => None
      end
  end
with members (fuel : nat) (s : jsstring) (acc : list (jsstring * value))
  : option (value * jsstring) :=
  match fuel with
  | O => None
  | S f =>
      match skip_ws s with
      | 34 :: r =>
          match string_body r with
          | Some (k, r1) =>
              match skip_ws r1 with
              | 58 :: r2 =>
                  match value_ f r2 with
                  | Some (v, r3) =>
                      match skip_ws r3 with
                      | 44 :: r4 => members f r4 ((k, v) :: acc)
                      | 125 :: r4 => Some (VObj (rev ((k, v) :: acc)), r4)
                      | _ => None
                      end
                  | None => None
                  end
              | _ => None
              end
          | None => None
          end
      | _ => None
      end
  end.

(** [JSON.parse(text)]: one value, white space around it, nothing else. *)
Definition parse (text : jsstring) : outcome value :=
  match value_ (2 * length text + 2) text with
  | Some (v, r) =>
      match skip_ws r with
      | [] => Ret v
      | _ => Throw SyntaxError
      end
  | None => Throw SyntaxError
  end.

End Json.

(** ** [querystring.parse] *)

Module Qs.

Definition replacement : N := 0xFFFD.

(** The range of the byte after the lead byte [b0] of a sequence of three
    or four bytes. *)
Definition second_ok (b0 b1 : N) : bool :=
  if b0 =? 0xE0 then (0xA0 <=? b1) && (b1 <=? 0xBF)
  else if b0 =? 0xED then (0x80 <=? b1) && (b1 <=? 0x9F)
  else if b0 =? 0xF0 then (0x90 <=? b1) && (b1 <=? 0xBF)
  else if b0 =? 0xF4 then (0x80 <=? b1) && (b1 <=? 0x8F)
  else Utf8.cont b1.

(** [Buffer.prototype.toString()]: UTF-8 decoding in which every maximal
    ill-formed part becomes U+FFFD. *)
Fixpoint decode_lossy (b : bytes) : jsstring :=
  match b with
  | [] => []
  | b0 :: r =>
      if b0 <? 0x80 then b0 :: decode_lossy r
      else if (0xC2 <=? b0) && (b0 <=? 0xDF) then
        match r with
        | b1 :: r1 =>
            if Utf8.cont b1
            then Utf8.units ((b0 - 0xC0) * 64 + (b1 - 0x80)) ++ decode_lossy r1
            else replacement :: decode_lossy r
        | [] => [replacement]
        end
      else if (0xE0 <=? b0) && (b0 <=? 0xEF) then
        match r with
        | b1 :: r1 =>
            if second_ok b0 b1 then
              match r1 with
              | b2 :: r2 =>
                  if Utf8.cont b2
                  then Utf8.units ((b0 - 0xE0) * 4096 + (b1 - 0x80) * 64 + (b2 - 0x80))
                         ++ decode_lossy r2
                  else replacement :: decode_lossy r1
              | [] => [replacement]
              end
            else replacement :: decode_lossy r
        | [] => [replacement]
        end
      else if (0xF0 <=? b0) && (b0 <=? 0xF4) then
        match r with
        | b1 :: r1 =>
            if second_ok b0 b1 then
              match r1 with
              | b2 :: r2 =>
                  if Utf8.cont b2 then
                    match r2 with
                    | b3 :: r3 =>
                        if Utf8.cont b3
                        then Utf8.units ((b0 - 0xF0) * 262144 + (b1 - 0x80) * 4096
                                         + (b2 - 0x80) * 64 + (b3 - 0x80))
                               ++ decode_lossy r3
                        else replacement :: decode_lossy r2
                    | [] => [replacement]
                    end
                  else replacement :: decode_lossy r1
              | [] => [replacement]
              end
            else replacement :: decode_lossy r
        | [] => [replacement]
        end
      else replacement :: decode_lossy r
  end.

(** [querystring.unescapeBuffer(s)]: an escape [%XY] is a byte, a [%] not
    followed by two digits stays, any other unit is cut to a byte. *)
Fixpoint unescapeBuffer (s : jsstring) : bytes :=
  match s with
  | [] => []
  | c :: r =>
      if c =? 37 then
        match r with
        | a :: ((b :: r') as rb) =>
            match Hex.unhex a, Hex.unhex b with
            | None, _ => 37 :: unescapeBuffer r
            | Some _, None => 37 :: a mod 256 :: unescapeBuffer rb
            | Some x, Some y => (16 * x + y) :: unescapeBuffer r'
            end
        | _ => 37 :: unescapeBuffer r
        end
      else c mod 256 :: unescapeBuffer r
  end.

(** [querystring.unescape]: [decodeURIComponent], and the byte-wise
    decoding when that throws. *)
Definition unescape (s : jsstring) : jsstring :=
  match Uri.decodeURIComponent s with
  | Ret d => d
  | Throw _ => decode_lossy (unescapeBuffer s)
  end.

(** Whether the text holds an escape [%XY]; only then is it decoded. *)
Fixpoint has_escape (s : jsstring) : bool :=
  match s with
  | [] => false
  | c :: r =>
      match r with
      | a :: b :: _ =>
          ((c =? 37) && bool_decide (is_Some (Hex.unhex a))
                     && bool_decide (is_Some (Hex.unhex b)))
          || has_escape r
      | _ => false
      end
  end.

Definition decode (s : jsstring) : jsstring :=
  let spaced := map (fun c => if c =? 43 then 32 else c) s in
  if has_escape s then unescape spaced else spaced.

(** The text before the first [=] and the text after it. *)
Fixpoint cut (s : jsstring) : jsstring * jsstring :=
  match s with
  | [] => ([], [])
  | c :: r =>
      if c =? 61 then ([], r)
      else let '(k, v) := cut r in (c :: k, v)
  end.

Fixpoint replace (k : jsstring) (v : value) (obj : list (jsstring * value))
  : list (jsstring * value) :=
  match obj with
  | [] => []
  | (k', v') :: r =>
      if bool_decide (k' = k) then (k', v) :: r else (k', v') :: replace k v r
  end.

(** [addKeyValue]: a key seen again collects its values in an array. *)
Definition addKeyValue (obj : list (jsstring * value)) (k v : jsstring)
  : list (jsstring * value) :=
  match Js.own k obj with
  | None => obj ++ [(k, VStr v)]
  | Some (VArr l) => replace k (VArr (l ++ [VStr v])) obj
  | Some cur => replace k (VArr [cur; VStr v]) obj
  end.

(** The first 1000 entries between ampersands are read ([maxKeys]); an
    empty entry adds nothing. *)
Definition parse (qs : jsstring) : list (jsstring * value) :=
  fold_left
    (fun obj seg =>
       match seg with
       | [] => obj
       | _ => let '(k, v) := cut seg in addKeyValue obj (decode k) (decode v)
       end)
    (firstn 1000 (Str.split 38 qs)) [].

End Qs.

(** ** The persistence collaborator *)

(** [server/storage.ts] is not part of the sources at hand; its operations
    are modelled after section 6 of the specification. *)
Module Storage.

Record user := mkUser {
  user_id : Z;
  user_tgId : Z;
  user_username : value;
  user_anonName : jsstring;
  user_status : jsstring;
  user_createdAt : Z }.

Record message := mkMessage {
  message_id : Z;
  message_content : jsstring;
  message_userId : Z;
  message_roomId : value;
  message_createdAt : Z }.

(** The rows in creation order, and the id of the global room once it
    exists. *)
Record t := mk {
  users : list user;
  messages : list message;
  global_room : option Z }.

Definition empty : t := mk [] [] None.

(** The fields passed to [createUser] and to [createMessage]. *)
Record insert_user := mkInsertUser {
  new_tgId : Z;
  new_username : value;
  new_anonName : jsstring;
  new_status : jsstring }.

Record insert_message := mkInsertMessage {
  new_content : jsstring;
  new_userId : Z;
  new_roomId : value }.

(** Whether a value is the number [n]. *)
Definition is_number (n : Z) (v : value) : bool :=
  match v with
  | VNum q => Qeq_bool q (inject_Z n)
  | _ => false
  end.

(** Modelled from the spec: [getUserByExternalId(id) -> User?], the row
    bound to the external identity. *)
Definition getUserByTgId (st : t) (tgId : Z) : option user :=
  find (fun u => (user_tgId u =? tgId)%Z) (users st).

(** Modelled from the spec: [getUserById(id) -> User?]; the argument is
    whatever the client sent, and only a number names a row. *)
Definition getUserById (st : t) (id : value) : option user :=
  find (fun u => is_number (user_id u) id) (users st).

(** Modelled from the spec: [createUser(fields) -> User], a new row with
    the next id and the creation time. *)
Definition createUser (now : Z) (f : insert_user) (st : t) : user * t :=
  let u := mkUser (Z.of_nat (length (users st)) + 1) (new_tgId f) (new_username f)
                  (new_anonName f) (new_status f) now in
  (u, mk (users st ++ [u]) (messages st) (global_room st)).

(** Modelled from the spec: [getOrCreateGlobalRoom() -> Room], created on
    first access and reused afterwards. *)
Definition getOrCreateGlobalRoom (st : t) : Z * t :=
  match global_room st with
  | Some r => (r, st)
  | None => (1%Z, mk (users st) (messages st) (Some 1%Z))
  end.

(** Modelled from the spec: [createMessage(fields) -> Message]. *)
Definition createMessage (now : Z) (f : insert_message) (st : t) : message * t :=
  let m := mkMessage (Z.of_nat (length (messages st)) + 1) (new_content f)
                     (new_userId f) (new_roomId f) now in
  (m, mk (users st) (messages st ++ [m]) (global_room st)).

Definition lastn {A} (n : nat) (l : list A) : list A :=
  skipn (length l - n) l.

(** Modelled from the spec: [getMessagesByRoomId(roomId, limit)], the
    most recent [limit] messages of the room, in chronological ascending
    order, each with its author when the row exists. *)
Definition getMessagesByRoomId (st : t) (roomId : Z) (limit : nat)
  : list (message * option user) :=
  map (fun m => (m, find (fun u => (user_id u =? message_userId m)%Z) (users st)))
      (lastn limit (filter (fun m => is_number roomId (message_roomId m) = true)
                           (messages st))).

End Storage.

(** ** Handlers: state and exceptions *)

(** A handler runs on a state and ends with a value or an exception; the
    changes made to the state before a [throw] stay. *)
Definition prog (S A : Type) : Type := S -> outcome A * S.

Module Prog.

Definition ret {S A} (a : A) : prog S A := fun s => (Ret a, s).

Definition bind {S A B} (m : prog S A) (k : A -> prog S B) : prog S B :=
  fun s => match m s with
           | (Ret a, s') => k a s'
           | (Throw e, s') => (Throw e, s')
           end.

(** A computation that does not touch the state. *)
Definition lift {S A} (o : outcome A) : prog S A := fun s => (o, s).

(** A total operation on the state, such as a call to the store. *)
Definition call {S A} (f : S -> A * S) : prog S A :=
  fun s => let '(a, s') := f s in (Ret a, s').

Definition read {S A} (f : S -> A) : prog S A := fun s => (Ret (f s), s).

Definition try_catch {S A} (body : prog S A) (handler : exn -> prog S A) : prog S A :=
  fun s => match body s with
           | (Ret a, s') => (Ret a, s')
           | (Throw e, s') => handler e s'
           end.

End Prog.

Declare Scope prog_scope.
Delimit Scope prog_scope with prog.
Notation "x <~ m ;; k" := (Prog.bind m (fun x => k))
  (at level 100, m at next level, right associativity) : prog_scope.

(** ** The auth gateway: [POST /api/auth] *)

Module Routes.
Import Verifier.

(** [process.env]. *)
Record env := mkEnv {
  TELEGRAM_BOT_TOKEN : option jsstring;
  BOT_TOKEN : option jsstring }.

(** What a request finds around it: the two draws of [Math.random] made by
    [generateAnonName] and the time of the clock. *)
Record ambient := mkAmbient {
  random_suffix : Q;
  random_prefix : Q;
  now : Z }.

Record response := mkResponse {
  status_code : N;
  body : value }.

Definition parseInitData (initData : value) : list (jsstring * value) :=
  match initData with
  | VStr s => Qs.parse s
  | _ => []
  end.

Definition prefixes : list jsstring := [js "User"; js "Anon"; js "Guest"; js "Member"].

Definition floor_index (q : Q) : option nat :=
  let i := Qfloor q in
  if (i <? 0)%Z then None else Some (Z.to_nat i).

(** [generateAnonName()], given the two draws. *)
Definition generateAnonName (a : ambient) : jsstring :=
  let suffix := (Qfloor (random_suffix a * 9000)%Q + 1000)%Z in
  let prefix :=
    match floor_index (random_prefix a * 4)%Q with
    | Some i => nth i prefixes (js "undefined")
    | None => js "undefined"
    end in
  prefix ++ Js.int_to_string suffix.

Definition error_body (message : jsstring) : value :=
  VObj [(js "error", VStr message)].

(** The object passed to [res.json] on success, from the four fields of
    the row that it reads. *)
Definition public_body (id : Z) (anonName status : jsstring) (createdAt : Z) : value :=
  VObj [ (js "user",
          VObj [ (js "id", VNum (inject_Z id));
                 (js "anonName", VStr anonName);
                 (js "status", VStr status);
                 (js "createdAt", VDate createdAt) ]);
         (js "status", VStr status) ].

Definition success_body (u : Storage.user) : value :=
  public_body (Storage.user_id u) (Storage.user_anonName u) (Storage.user_status u)
              (Storage.user_createdAt u).

Definition bot_token (e : env) : jsstring :=
  match TELEGRAM_BOT_TOKEN e with
  | Some ((_ :: _) as t) => t
  | _ => match BOT_TOKEN e with
         | Some ((_ :: _) as t) => t
         | _ => []
         end
  end.

(** [userData] after the inner [try]: the parsed [user] field, or [null]
    when the field is missing, repeated, empty or not JSON. *)
Definition user_data (parsed : list (jsstring * value)) : value :=
  match Js.own (js "user") parsed with
  | Some (VStr ((_ :: _) as text)) =>
      match Json.parse text with
      | Ret v => v
      | Throw _ => VNull
      end
  | _ => VNull
  end.

Definition refuse (code : N) (message : jsstring) : outcome (response + Z * value) :=
  Ret (inl (mkResponse code (error_body message))).

(** The handler up to [BigInt(userData.id)], where the store is not yet
    touched: a response that refuses the request, or the external
    identity with the user data. *)
Definition identify (e : env) (req_body : value) : outcome (response + Z * value) :=
  initData <- Js.get req_body (js "initData") ;;
  if negb (Js.truthy initData) then refuse 400 (js "initData required") else
  let botToken := bot_token e in
  if bool_decide (botToken = []) then refuse 500 (js "Bot token not configured") else
  isValid <- verifyInitData initData botToken ;;
  if negb isValid then refuse 401 (js "Invalid initData") else
  let parsed := parseInitData initData in
  let userData := user_data parsed in
  if negb (Js.truthy userData) then refuse 400 (js "Invalid user data in initData") else
  id <- Js.get userData (js "id") ;;
  if negb (Js.truthy id) then refuse 400 (js "Invalid user data in initData") else
  tgId <- Js.BigInt id ;;
  Ret (inr (tgId, userData)).

Definition reply (code : N) (b : value) : prog Storage.t response :=
  Prog.ret (mkResponse code b).

(** The fields passed to [storage.createUser]. *)
Definition new_user (a : ambient) (tgId : Z) (username : value) : Storage.insert_user :=
  Storage.mkInsertUser tgId (Js.or_else username VNull) (generateAnonName a) (js "pending").

(** The body of the [try] block of the handler. *)
Definition auth_body (e : env) (a : ambient) (req_body : value)
  : prog Storage.t response :=
  (checked <~ Prog.lift (identify e req_body) ;;
   match checked with
   | inl refusal => Prog.ret refusal
   | inr (tgId, userData) =>
       found <~ Prog.read (fun st => Storage.getUserByTgId st tgId) ;;
       user <~ match found with
               | Some u => Prog.ret u
               | None =>
                   username <~ Prog.lift (Js.get userData (js "username")) ;;
                   Prog.call (Storage.createUser (now a) (new_user a tgId username))
               end ;;
       reply 200 (success_body user)
   end)%prog.

(** [app.post('/api/auth', ...)]: anything thrown in the block is answered
    with 500. *)
Definition auth_post (e : env) (a : ambient) (req_body : value)
  : prog Storage.t response :=
  Prog.try_catch (auth_body e a req_body)
    (fun _ => reply 500 (error_body (js "Authentication failed"))).

(** The external identity a request carries, when it carries one. *)
Definition external_identity (e : env) (req_body : value) : option Z :=
  match identify e req_body with
  | Ret (inr (tgId, _)) => Some tgId
  | _ => None
  end.

(** The request whose body is [{ initData }]. *)
Definition request (initData : jsstring) : value :=
  VObj [(js "initData", VStr initData)].

Definition invalid_user_data : response :=
  mkResponse 400 (error_body (js "Invalid user data in initData")).

Definition authentication_failed : response :=
  mkResponse 500 (error_body (js "Authentication failed")).

End Routes.

Module RouteSamples.

(** The secret is configured under the first name. *)
Definition server_env : Routes.env := Routes.mkEnv (Some Samples.token) None.

(** Draws that make the pseudonym [Guest4438], at time 1700000001. *)
Definition calm : Routes.ambient := Routes.mkAmbient 0.3821 0.6 1700000001.

(** The row made for the first request of the external identity 42. *)
Definition alice_row : Storage.user :=
  Storage.mkUser 1 42 (VStr (js "alice")) (js "Guest4438") (js "pending") 1700000001.

End RouteSamples.

(** ** The connection sessions and the broadcast hub: [setupWebSocket] *)

Module Hub.

Inductive ready_state := CONNECTING | OPEN | CLOSING | CLOSED.

#[global] Instance ready_state_eq_dec : EqDecision ready_state.
Proof. solve_decision. Defined.

(** [AuthenticatedWebSocket]: the socket and the two optional fields. *)
Record session := mkSession {
  readyState : ready_state;
  userId : option Z;
  userStatus : option jsstring }.

(** The [user] object of a message; a field is absent when the row it is
    read from is. *)
Record author := mkAuthor {
  author_id : option Z;
  author_anonName : option jsstring }.

(** A message as it is listed in [chat_history] and sent in
    [new_message]. *)
Record item := mkItem {
  item_id : Z;
  item_content : jsstring;
  item_createdAt : Z;
  item_user : option author }.

(** The events sent to clients, by their [type]. *)
Inductive server_event :=
| auth_success (id : Z) (anonName status : jsstring) (roomId : Z)
| auth_error (message : jsstring)
| chat_history (messages : list item)
| new_message (message : item)
| joined_room (roomId : Z) (roomName : jsstring)
| error (message : jsstring).

(** The server: the store, [wss.clients] in the order of connection, every
    call to [send] so far with the connection it was made on, the clock,
    and the next connection number. *)
Record state := mkState {
  store : Storage.t;
  clients : list (nat * session);
  sent : list (nat * server_event);
  clock : Z;
  next_conn : nat }.

Definition initial : state := mkState Storage.empty [] [] 0 0.

Definition with_store (st : Storage.t) (s : state) : state :=
  mkState st (clients s) (sent s) (clock s) (next_conn s).

Definition session_of (c : nat) (s : state) : option session :=
  snd <$> find (fun p => bool_decide (fst p = c)) (clients s).

Definition add_sent (l : list (nat * server_event)) (s : state) : state :=
  mkState (store s) (clients s) (sent s ++ l) (clock s) (next_conn s).

Definition map_session (c : nat) (f : session -> session) (s : state) : state :=
  mkState (store s)
    (map (fun p => if bool_decide (fst p = c) then (fst p, f (snd p)) else p)
         (clients s))
    (sent s) (clock s) (next_conn s).

(** [ws.send(JSON.stringify(ev))] on connection [c]. *)
Definition send (c : nat) (ev : server_event) : prog state unit :=
  fun s => (Ret tt, add_sent [(c, ev)] s).

(** An assignment to fields of the socket of connection [c]. *)
Definition update_session (c : nat) (f : session -> session) : prog state unit :=
  fun s => (Ret tt, map_session c f s).

(** A call to the store. *)
Definition storage {A} (f : Storage.t -> A * Storage.t) : prog state A :=
  fun s => let '(a, st) := f (store s) in (Ret a, with_store st s).

Definition lookup {A} (f : Storage.t -> A) : prog state A :=
  Prog.read (fun s => f (store s)).

(** [storage.createMessage(fields)]: the row is stamped with the time of
    the call. *)
Definition createMessage (f : Storage.insert_message) : prog state Storage.message :=
  fun s => storage (Storage.createMessage (clock s) f) s.

Definition approved : jsstring := js "approved".

Definition is_approved (status : option jsstring) : bool :=
  bool_decide (status = Some approved).

(** [ws.userId] as a condition: a number other than zero. *)
Definition bound (userId : option Z) : bool :=
  match userId with
  | Some n => negb (n =? 0)%Z
  | None => false
  end.

Definition render (p : Storage.message * option Storage.user) : item :=
  let '(m, u) := p in
  mkItem (Storage.message_id m) (Storage.message_content m) (Storage.message_createdAt m)
         ((fun u => mkAuthor (Some (Storage.user_id u)) (Some (Storage.user_anonName u)))
            <$> u).

(** [ws.userId = user.id; ws.userStatus = user.status]. *)
Definition bind_user (u : Storage.user) (ws : session) : session :=
  mkSession (readyState ws) (Some (Storage.user_id u)) (Some (Storage.user_status u)).

Definition handleAuth (c : nat) (message : value) : prog state unit :=
  Prog.try_catch
    (userId <~ Prog.lift (Js.get message (js "userId")) ;;
     if negb (Js.truthy userId) then send c (auth_error (js "User ID required")) else
     user <~ lookup (fun st => Storage.getUserById st userId) ;;
     match user with
     | None => send c (auth_error (js "User not found"))
     | Some u =>
         _ <~ update_session c (bind_user u) ;;
         if negb (bool_decide (Storage.user_status u = approved))
         then send c (auth_error (js "User not approved for chat")) else
         globalRoom <~ storage Storage.getOrCreateGlobalRoom ;;
         messages <~ lookup (fun st => Storage.getMessagesByRoomId st globalRoom 50) ;;
         _ <~ send c (auth_success (Storage.user_id u) (Storage.user_anonName u)
                                   (Storage.user_status u) globalRoom) ;;
         send c (chat_history (map render messages))
     end)%prog
    (fun _ => send c (auth_error (js "Authentication failed"))).

(** [content?.trim()]: [undefined] for [undefined] and [null], the trimmed
    text for a string; no other value has a [trim] to call. *)
Definition optional_trim (content : value) : outcome value :=
  match content with
  | VUndefined | VNull => Ret VUndefined
  | VStr s => Ret (VStr (Str.trim s))
  | _ => Throw TypeError
  end.

(** The loop over [wss.clients]. *)
Definition recipients (cs : list (nat * session)) : list nat :=
  map fst
    (filter (fun p => bool_decide (readyState (snd p) = OPEN) && bound (userId (snd p))
                      && is_approved (userStatus (snd p)) = true) cs).

Definition broadcast (ev : server_event) : prog state unit :=
  fun s => (Ret tt, add_sent (map (fun c => (c, ev)) (recipients (clients s))) s).

(** The object broadcast for the row [m]: the author is read back from the
    store by the id bound to the session. *)
Definition broadcast_item (st : Storage.t) (uid : Z) (m : Storage.message) : item :=
  let user := Storage.getUserById st (VNum (inject_Z uid)) in
  mkItem (Storage.message_id m) (Storage.message_content m) (Storage.message_createdAt m)
         (Some (mkAuthor (Storage.user_id <$> user) (Storage.user_anonName <$> user))).

Definition handleSendMessage (c : nat) (message : value) : prog state unit :=
  Prog.try_catch
    (ws <~ Prog.read (session_of c) ;;
     let uid := ws ≫= userId in
     if negb (bound uid) || negb (is_approved (ws ≫= userStatus))
     then send c (error (js "Not authenticated or not approved")) else
     content <~ Prog.lift (Js.get message (js "content")) ;;
     roomId <~ Prog.lift (Js.get message (js "roomId")) ;;
     trimmed <~ Prog.lift (optional_trim content) ;;
     match trimmed with
     | VStr ((_ :: _) as text) =>
         globalRoom <~ storage Storage.getOrCreateGlobalRoom ;;
         let targetRoomId := Js.or_else roomId (VNum (inject_Z globalRoom)) in
         newMessage <~ createMessage
                          (Storage.mkInsertMessage text (default 0%Z uid) targetRoomId) ;;
         broadcastData <~ lookup (fun st =>
                            new_message (broadcast_item st (default 0%Z uid) newMessage)) ;;
         broadcast broadcastData
     | _ => send c (error (js "Message content required"))
     end)%prog
    (fun _ => send c (error (js "Failed to send message"))).

(** The name sent for the global room: nine code units, in Cyrillic. *)
Definition room_name : jsstring := [1054; 1073; 1097; 1080; 1081; 32; 1095; 1072; 1090].

Definition handleJoinRoom (c : nat) (message : value) : prog state unit :=
  (globalRoom <~ storage Storage.getOrCreateGlobalRoom ;;
   send c (joined_room globalRoom room_name))%prog.

Definition dispatch (c : nat) (message : value) (type : value) : prog state unit :=
  match type with
  | VStr t =>
      if bool_decide (t = js "auth") then handleAuth c message
      else if bool_decide (t = js "send_message") then handleSendMessage c message
      else if bool_decide (t = js "join_room") then handleJoinRoom c message
      else send c (error (js "Unknown message type"))
  | _ => send c (error (js "Unknown message type"))
  end.

(** [ws.on('message', ...)] for the text [data] received on connection
    [c]. *)
Definition on_message (c : nat) (data : jsstring) : prog state unit :=
  Prog.try_catch
    (message <~ Prog.lift (Json.parse data) ;;
     type <~ Prog.lift (Js.get message (js "type")) ;;
     dispatch c message type)%prog
    (fun _ => send c (error (js "Invalid message format"))).

End Hub.

(** ** The server as a whole *)

Module Server.
Import Hub.

(** What happens to the server: a client connects, a text arrives on a
    connection, a connection starts closing or is closed, a request is
    posted to [/api/auth] (with the two draws of [Math.random] it would
    use), a moderator sets the status of a user out of band, time
    passes. *)
Inductive input :=
| Connect
| Receive (c : nat) (data : jsstring)
| StartClosing (c : nat)
| Close (c : nat)
| PostAuth (suffix prefix : Q) (body : value)
| Moderate (uid : Z) (status : jsstring)
| Tick (d : N).

Definition set_status (uid : Z) (status : jsstring) (u : Storage.user) : Storage.user :=
  if (Storage.user_id u =? uid)%Z
  then Storage.mkUser (Storage.user_id u) (Storage.user_tgId u) (Storage.user_username u)
                      (Storage.user_anonName u) status (Storage.user_createdAt u)
  else u.

Definition moderate (uid : Z) (status : jsstring) (st : Storage.t) : Storage.t :=
  Storage.mk (map (set_status uid status) (Storage.users st))
             (Storage.messages st) (Storage.global_room st).

Definition set_ready (r : ready_state) (ws : session) : session :=
  mkSession r (userId ws) (userStatus ws).

Definition ambient_of (s : state) (suffix prefix : Q) : Routes.ambient :=
  Routes.mkAmbient suffix prefix (clock s).

(** A text is handled when it arrives on an open connection. *)
Definition step (e : Routes.env) (s : state) (i : input) : state :=
  match i with
  | Connect =>
      mkState (store s) (clients s ++ [(next_conn s, mkSession OPEN None None)])
              (sent s) (clock s) (S (next_conn s))
  | Receive c data =>
      match session_of c s with
      | Some ws =>
          if bool_decide (readyState ws = OPEN) then snd (on_message c data s) else s
      | None => s
      end
  | StartClosing c => map_session c (set_ready CLOSING) s
  | Close c =>
      mkState (store s) (filter (fun p => fst p <> c) (clients s))
              (sent s) (clock s) (next_conn s)
  | PostAuth suffix prefix body =>
      with_store (snd (Routes.auth_post e (ambient_of s suffix prefix) body (store s))) s
  | Moderate uid status => with_store (moderate uid status (store s)) s
  | Tick d =>
      mkState (store s) (clients s) (sent s) (clock s + Z.of_N d) (next_conn s)
  end.

Definition run (e : Routes.env) (s : state) (inputs : list input) : state :=
  fold_left (step e) inputs s.

Definition reachable (e : Routes.env) (s : state) : Prop :=
  exists inputs, s = run e initial inputs.

(** The calls to [send] made between two states of a run. *)
Definition new_sends (before after : state) : list (nat * server_event) :=
  skipn (length (sent before)) (sent after).




End Server.

Module HubSamples.
Import Hub Server.

(** Two users are created, the first is approved by a moderator, two
    clients connect; the first authenticates as the approved user, the
    second as the pending one. *)
Definition opening : list input :=
  [ PostAuth 0.3821 0.6 (Routes.request Samples.alice_payload);
    PostAuth 0.01 0.3 (Routes.request Samples.bob_payload);
    Moderate 1 approved;
    Connect; Connect; Tick 5;
    Receive 0 (jsq "{'type':'auth','userId':1}");
    Receive 1 (jsq "{'type':'auth','userId':2}") ].

(** The second client authenticates again, as the approved user, and the
    first sends a message. *)
Definition sequel : list input :=
  [ Receive 1 (jsq "{'type':'auth','userId':1}");
    Tick 2;
    Receive 0 (jsq "{'type':'send_message','content':' hi '}") ].

Definition hi : item :=
  mkItem 1 (js "hi") 7 (Some (mkAuthor (Some 1%Z) (Some (js "Guest4438")))).

End HubSamples.

(** ** Well-formed states *)

Module Inv.
Import Hub.

(** The rows of the store at time [now]: user ids count from one in
    creation order, no external identity is bound twice, and the messages
    are in the order of their creation times, none in the future. *)
Record store_ok (now : Z) (st : Storage.t) : Prop := {
  ids_ok : forall i u, Storage.users st !! i = Some u ->
                       Storage.user_id u = (Z.of_nat i + 1)%Z;
  tgIds_ok : NoDup (map Storage.user_tgId (Storage.users st));
  sorted_ok : StronglySorted Z.le (map Storage.message_createdAt (Storage.messages st));
  past_ok : Forall (fun m => (Storage.message_createdAt m <= now)%Z) (Storage.messages st) }.

(** The sessions: a bound user id is the id of a row, connection numbers
    are distinct and below the next one, and a registered socket is open
    or closing. *)
Record sessions_ok (s : state) : Prop := {
  bound_ok : forall c ws n, (c, ws) ∈ clients s -> userId ws = Some n ->
               exists u, u ∈ Storage.users (store s) /\ Storage.user_id u = n;
  conns_ok : NoDup (map fst (clients s));
  fresh_ok : forall c ws, (c, ws) ∈ clients s -> (c < next_conn s)%nat;
  ready_ok : forall c ws, (c, ws) ∈ clients s ->
               readyState ws = OPEN \/ readyState ws = CLOSING }.

Definition ok (s : state) : Prop :=
  store_ok (clock s) (store s) /\ sessions_ok s.

(** What is public and stays of a row: the id, the external identity and
    the pseudonym. *)
Definition key (u : Storage.user) : Z * Z * jsstring :=
  (Storage.user_id u, Storage.user_tgId u, Storage.user_anonName u).

(** The rows of [st] are still there in [st'], in the same places. *)
Definition grows (st st' : Storage.t) : Prop :=
  map key (Storage.users st) `prefix_of` map key (Storage.users st').

End Inv.

(** ** More sample data *)

Module MoreSamples.

(** The entries of [Samples.lowercase_payload]. *)
Definition lowercase_entries : list jsstring :=
  [ js "auth_date=1700000000"; js "user=x";
    js "hash=c7765b76cfe1429e61fd241cdb135c3077c4e295a7d25716f06dfdc563ac710b" ].

(** The map that [verifyInitData] builds from [Samples.alice_payload]. *)
Definition alice_map : gmap jsstring jsstring :=
  <[js "user" := jsq "{'id':42,'username':'alice'}"]>
    (<[js "hash" := js "04301238d31f433a551e0b5d3b6e7def908d10cedfc696978073b6c26ea1d48f"]>
       (<[js "auth_date" := js "1700000000"]> ∅)).

(** Signed for the check string [auth_date=1700000000], newline,
    [user={"id":42}]; the [user] entry comes twice. *)
Definition repeated_user_payload : jsstring :=
  js "auth_date=1700000000&user=%7B%22id%22%3A42%7D&user=%7B%22id%22%3A42%7D&hash=744fe5aeb94ce71156d70fc6886d5a2ab36b42e974df96a8ea713a43e0ae45af".

(** Signed; the [user] field is [{"id":"0"}], the id being a text. *)
Definition text_zero_payload : jsstring :=
  js "auth_date=1700000000&user=%7B%22id%22%3A%220%22%7D&hash=cbc149410c04033418455d703c92187af49a79603b50e0f123bb68f3878564f4".

(** Signed for the check string [a=1], newline, [b=2]: two fields. *)
Definition two_fields_payload : jsstring :=
  js "a=1&b=2&hash=08a01dc99fffbd96c8052b70828f580cde8658066c192b21f35d729558ba01d3".

(** The same digest over one field, whose value holds the newline and
    what follows it. *)
Definition two_lines_payload : jsstring :=
  js "a=1%0Ab%3D2&hash=08a01dc99fffbd96c8052b70828f580cde8658066c192b21f35d729558ba01d3".

End MoreSamples.

(** ** The two readings of an entry *)

(** The handler reads the payload twice: [verifyInitData] splits it by
    hand, [parseInitData] hands it to [querystring.parse]. *)
Module Entry.

(** The key under which [querystring.parse] files an entry. *)
Definition qs_key (e : jsstring) : jsstring := Qs.decode (fst (Qs.cut e)).

(** An entry that the two read alike: no [+], no [%] in the key, no [=]
    in the value. *)
Definition simple (e : jsstring) : Prop :=
  (43 ∉ e) /\ (37 ∉ fst (Qs.cut e)) /\ (61 ∉ snd (Qs.cut e)).

#[global] Instance simple_dec (e : jsstring) : Decision (simple e).
Proof. unfold simple. apply _. Defined.

(** One turn of the loop of [querystring.parse]. *)
Definition qs_step (obj : list (jsstring * value)) (seg : jsstring)
  : list (jsstring * value) :=
  match seg with
  | [] => obj
  | _ => let '(k, v) := Qs.cut seg in Qs.addKeyValue obj (Qs.decode k) (Qs.decode v)
  end.

(** What a lookup finds for a key that came more than once: an array. *)
Definition is_array (o : option value) : Prop := exists l, o = Some (VArr l).

End Entry.

(** ** The room an event names *)

Module Rooms.

(** The [roomId] of an event that has one. *)
Definition room_of (ev : Hub.server_event) : option Z :=
  match ev with
  | Hub.auth_success _ _ _ room => Some room
  | Hub.joined_room room _ => Some room
  | _ => None
  end.

End Rooms.

(** ** Decimal digits *)

Module Digits.

Definition is_decimal (c : N) : Prop := 48 <= c <= 57.

End Digits.


(** ** The history over HTTP: [GET /api/messages/:roomId?] *)

Module History.

(** A number as [parseInt] returns it: [NaN] or an integer (an integer
    too large for a double is not rounded). *)
Inductive number := NaN | Int (z : Z).

(** [!n] for a number. *)
Definition falsy (n : number) : bool :=
  match n with
  | NaN => true
  | Int z => (z =? 0)%Z
  end.

(** The longest run of digits of the radix at the head of a text. *)
Fixpoint digits_prefix (radix : N) (s : jsstring) : jsstring :=
  match s with
  | c :: r =>
      match Js.digit_value radix c with
      | Some _ => c :: digits_prefix radix r
      | None => []
      end
  | [] => []
  end.

(** [parseInt(s)] without a radix: white space is skipped, a sign is
    taken, [0x] or [0X] announces hexadecimal digits, and the digits are
    read as far as they go; without a digit the result is [NaN]. *)
Definition parseInt (s : jsstring) : number :=
  let s0 := Str.trim_start s in
  let '(negative, s1) :=
    match s0 with
    | 45 :: r => (true, r)
    | 43 :: r => (false, r)
    | _ => (false, s0)
    end in
  let '(radix, s2) :=
    match s1 with
    | 48 :: 120 :: r | 48 :: 88 :: r => (16, r)
    | _ => (10, s1)
    end in
  match digits_prefix radix s2 with
  | [] => NaN
  | d =>
      match Js.number_of radix d 0 with
      | Some n => Int (if negative then - Z.of_N n else Z.of_N n)
      | None => NaN
      end
  end.

(** [req.params.roomId ? parseInt(req.params.roomId) : null]; the
    parameter is a text or is missing. *)
Definition room_param (roomId : option jsstring) : option number :=
  match roomId with
  | Some ((_ :: _) as s) => Some (parseInt s)
  | _ => None
  end.

(** [req.query.limit ? parseInt(req.query.limit) : 50]; the value of the
    query is missing, a text, or an array or an object of such values. *)
Definition limit_param (limit : value) : number :=
  if Js.truthy limit then parseInt (Js.to_string limit) else Int 50.

Definition optional (f : jsstring -> value) (o : option jsstring) : value :=
  match o with
  | Some s => f s
  | None => VUndefined
  end.

(** The object listed for a message. *)
Definition item_value (it : Hub.item) : value :=
  VObj [ (js "id", VNum (inject_Z (Hub.item_id it)));
         (js "content", VStr (Hub.item_content it));
         (js "createdAt", VDate (Hub.item_createdAt it));
         (js "user",
          match Hub.item_user it with
          | Some a =>
              VObj [ (js "id", match Hub.author_id a with
                               | Some n => VNum (inject_Z n)
                               | None => VUndefined
                               end);
                     (js "anonName", optional VStr (Hub.author_anonName a)) ]
          | None => VNull
          end) ].

Definition messages_body (items : list Hub.item) : value :=
  VObj [(js "messages", VArr (map item_value items))].

Definition failed_to_load : Routes.response :=
  Routes.mkResponse 500 (Routes.error_body (js "Failed to load messages")).

Section Handler.

(** [storage.getMessagesByRoomId(roomId, limit)] as the handler calls it,
    with whatever number the query gave for the limit. *)
Variable fetch : Storage.t -> Z -> number
                 -> outcome (list (Storage.message * option Storage.user)).

(** The room whose messages are listed: the one named, or the global
    room when the name is missing, is not a number, or is zero. *)
Definition target_room (roomId : option number) : prog Storage.t Z :=
  match roomId with
  | Some (Int z) =>
      if (z =? 0)%Z then Prog.call Storage.getOrCreateGlobalRoom else Prog.ret z
  | _ => Prog.call Storage.getOrCreateGlobalRoom
  end.

Definition messages_get (roomId : option jsstring) (limit : value)
  : prog Storage.t Routes.response :=
  Prog.try_catch
    (let roomId := room_param roomId in
     let limit := limit_param limit in
     targetRoomId <~ target_room roomId ;;
     messages <~ (fun st => (fetch st targetRoomId limit, st)) ;;
     Routes.reply 200 (messages_body (map Hub.render messages)))%prog
    (fun _ => Routes.reply 500 (Routes.error_body (js "Failed to load messages"))).

End Handler.

(** A store that lists the most recent messages for a limit that is a
    natural number and refuses any other. *)
Definition strict_fetch (st : Storage.t) (roomId : Z) (limit : number)
  : outcome (list (Storage.message * option Storage.user)) :=
  match limit with
  | Int z =>
      if (0 <=? z)%Z then Ret (Storage.getMessagesByRoomId st roomId (Z.to_nat z))
      else Throw RangeError
  | NaN => Throw RangeError
  end.

(** The names of the properties of a listed message. *)
Definition public_keys : list jsstring :=
  [js "messages"; js "id"; js "content"; js "createdAt"; js "user"; js "anonName"].

End History.

(** * Properties *)

(** ** Test vectors of the platform functions *)

Example sha256_abc :
  Hex.encode (Sha256.sha256 (js "abc"))
  = js "ba7816bf8f01cfea414140de5dae2223b00361a396177a9cb410ff61f20015ad".
Proof. vm_compute. reflexivity. Qed.

Example sha256_two_blocks :
  Hex.encode (Sha256.sha256 (js "abcdbcdecdefdefgefghfghighijhijkijkljklmklmnlmnomnopnopq"))
  = js "248d6a61d20638b8e5c026930c3e6039a33ce45964ff2167f6ecedd419db06c1".
Proof. vm_compute. reflexivity. Qed.

(** RFC 4231, test case 2. *)
Example hmac_rfc4231_2 :
  Hex.encode (Sha256.hmac (js "Jefe") (js "what do ya want for nothing?"))
  = js "5bdcc146bf60754e6a042426089575c75a003f089d2739839dec58b964ec3843".
Proof. vm_compute. reflexivity. Qed.

Example decode_plain : Uri.decodeURIComponent (js "a%20b%3D") = Ret (js "a b=").
Proof. reflexivity. Qed.

Example decode_euro : Uri.decodeURIComponent (js "%E2%82%AC") = Ret [0x20AC].
Proof. reflexivity. Qed.

Example decode_astral : Uri.decodeURIComponent (js "%F0%9F%98%80") = Ret [0xD83D; 0xDE00].
Proof. reflexivity. Qed.

Example decode_bad_escape : Uri.decodeURIComponent (js "100%") = Throw URIError.
Proof. reflexivity. Qed.

Example decode_bad_utf8 : Uri.decodeURIComponent (js "%C0%80") = Throw URIError.
Proof. reflexivity. Qed.

Example encode_astral : Utf8.encode [0xD83D; 0xDE00] = [0xF0; 0x9F; 0x98; 0x80].
Proof. reflexivity. Qed.


(** ** The code-unit order of strings *)

Module StrFacts.

Lemma compare_eq_iff (a b : jsstring) : Str.compare a b = Eq <-> a = b.
Proof.
  revert b; induction a as [|x a IH]; intros [|y b]; simpl; try easy.
  destruct (N.compare_spec x y) as [->| |]; [|split; [easy|intros [=]; lia]..].
  rewrite IH. split; congruence.
Qed.

Lemma compare_antisym (a b : jsstring) :
  Str.compare b a = CompOpp (Str.compare a b).
Proof.
  revert b; induction a as [|x a IH]; intros [|y b]; simpl; try easy.
  rewrite (N.compare_antisym x y).
  destruct (N.compare x y); simpl; auto.
Qed.

Lemma compare_lt_trans (a b c : jsstring) :
  Str.compare a b = Lt -> Str.compare b c = Lt -> Str.compare a c = Lt.
Proof.
  revert b c; induction a as [|x a IH]; intros [|y b] [|z c]; simpl; try easy.
  destruct (N.compare_spec x y) as [->| |]; try easy.
  - destruct (N.compare_spec y z) as [->| |]; try easy. apply IH.
  - destruct (N.compare_spec y z) as [->| |]; try easy.
    + intros _ _. destruct (N.compare_spec x z); [lia|easy|lia].
    + intros _ _. destruct (N.compare_spec x z); [lia|easy|lia].
Qed.

#[global] Instance le_total : Total Str.le.
Proof.
  intros a b. unfold Str.le. rewrite (compare_antisym a b).
  destruct (Str.compare a b); simpl; [left|left|right]; congruence.
Qed.

#[global] Instance le_trans : Transitive Str.le.
Proof.
  intros a b c. unfold Str.le. intros Hab Hbc.
  destruct (Str.compare a b) eqn:E1; [|clear Hab|congruence].
  - apply compare_eq_iff in E1 as ->. exact Hbc.
  - destruct (Str.compare b c) eqn:E2; [| |congruence].
    + apply compare_eq_iff in E2 as <-. rewrite E1. congruence.
    + rewrite (compare_lt_trans a b c E1 E2). congruence.
Qed.

#[global] Instance le_antisym : AntiSymm (=) Str.le.
Proof.
  intros a b. unfold Str.le. rewrite (compare_antisym a b).
  destruct (Str.compare a b) eqn:E; simpl; try congruence.
  intros _ _. by apply compare_eq_iff.
Qed.

(** A list has at most one sorted arrangement. *)
Lemma sorted_perm_unique (l1 l2 : list jsstring) :
  Sorted Str.le l1 -> Sorted Str.le l2 -> l1 ≡ₚ l2 -> l1 = l2.
Proof. apply Sorted_unique; apply _. Qed.

Lemma merge_sort_perm_invariant (l1 l2 : list jsstring) :
  l1 ≡ₚ l2 -> merge_sort Str.le l1 = merge_sort Str.le l2.
Proof.
  intros Hp. apply sorted_perm_unique; try apply Sorted_merge_sort; try apply _.
  by rewrite !merge_sort_Permutation.
Qed.

End StrFacts.

(** ** Hexadecimal and digests *)

Module HexFacts.

Lemma unhex_digit (n : N) : n < 16 -> Hex.unhex (Hex.digit n) = Some n.
Proof.
  intros Hn. unfold Hex.digit, Hex.unhex.
  destruct (N.ltb_spec n 10).
  - replace ((48 <=? 48 + n) && (48 + n <=? 57)) with true
      by (symmetry; apply andb_true_iff; split; apply N.leb_le; lia).
    f_equal. lia.
  - replace ((48 <=? 87 + n) && (87 + n <=? 57)) with false
      by (symmetry; apply andb_false_iff; right; apply N.leb_gt; lia).
    replace ((97 <=? 87 + n) && (87 + n <=? 102)) with true
      by (symmetry; apply andb_true_iff; split; apply N.leb_le; lia).
    f_equal. lia.
Qed.

(** Decoding undoes encoding on a buffer. *)
Lemma decode_encode (b : bytes) :
  Forall (fun x => x < 256) b -> Hex.decode (Hex.encode b) = b.
Proof.
  induction 1 as [|x b Hx _ IH]; [reflexivity|].
  cbn [Hex.encode flat_map app Hex.decode].
  assert (x / 16 < 16) by (apply N.Div0.div_lt_upper_bound; lia).
  assert (x mod 16 < 16) by (apply N.mod_lt; lia).
  rewrite !unhex_digit by assumption.
  fold (Hex.encode b). rewrite IH. f_equal.
  rewrite (N.div_mod x 16) at 3 by lia. lia.
Qed.



End HexFacts.

Module ShaFacts.
Import Sha256.

Lemma word_bytes_spec (w : N) :
  length (word_bytes w) = 4%nat /\ Forall (fun x => x < 256) (word_bytes w).
Proof.
  split; [reflexivity|].
  unfold word_bytes. repeat constructor; apply N.mod_lt; lia.
Qed.

Lemma out_spec (s : state) :
  length (out s) = 32%nat /\ Forall (fun x => x < 256) (out s).
Proof.
  unfold out. split.
  - rewrite !length_app. by rewrite !(proj1 (word_bytes_spec _)).
  - rewrite !Forall_app. repeat split; apply word_bytes_spec.
Qed.

(** A digest is 32 bytes. *)
Lemma sha256_length (m : bytes) : length (sha256 m) = 32%nat.
Proof. apply out_spec. Qed.

Lemma sha256_bytes (m : bytes) : Forall (fun x => x < 256) (sha256 m).
Proof. apply out_spec. Qed.

Lemma hmac_length (key m : bytes) : length (hmac key m) = 32%nat.
Proof. apply sha256_length. Qed.

Lemma hmac_bytes (key m : bytes) : Forall (fun x => x < 256) (hmac key m).
Proof. apply sha256_bytes. Qed.

End ShaFacts.

(** ** UTF-8 keeps the order of strings without surrogates *)

Module Utf8Facts.

(* Division by a constant is linear arithmetic for [lia]. *)
Ltac Zify.zify_post_hook ::= Z.to_euclidean_division_equations.

Lemma compare_cons_lt (x y : N) (a b : jsstring) :
  x < y -> Str.compare (x :: a) (y :: b) = Lt.
Proof. intros H. cbn. by rewrite (proj2 (N.compare_lt_iff x y) H). Qed.

Lemma compare_cons_same (x : N) (a b : jsstring) :
  Str.compare (x :: a) (x :: b) = Str.compare a b.
Proof. cbn. by rewrite N.compare_refl. Qed.

Lemma encode_plain (c : N) (s : jsstring) :
  c < 0xD800 -> Utf8.encode (c :: s) = Utf8.enc c ++ Utf8.encode s.
Proof.
  intros Hc. cbn [Utf8.encode]. unfold Utf8.is_high, Utf8.is_low.
  replace (0xD800 <=? c) with false by (symmetry; apply N.leb_gt; lia).
  replace (0xDC00 <=? c) with false by (symmetry; apply N.leb_gt; lia).
  reflexivity.
Qed.

Lemma enc_nonempty (c : N) : exists b r, Utf8.enc c = b :: r.
Proof. unfold Utf8.enc. repeat case_match; eauto. Qed.

(** The encodings of two code points below the surrogates compare as the
    code points do, whatever follows. *)
Lemma enc_lt (x y : N) (a b : jsstring) :
  x < y -> y < 0xD800 -> Str.compare (Utf8.enc x ++ a) (Utf8.enc y ++ b) = Lt.
Proof.
  intros Hxy Hy. unfold Utf8.enc.
  destruct (N.ltb_spec x 0x80); destruct (N.ltb_spec y 0x80);
    destruct (N.ltb_spec x 0x800); destruct (N.ltb_spec y 0x800);
    destruct (N.ltb_spec x 0x10000); destruct (N.ltb_spec y 0x10000);
    try lia; cbn [app];
    repeat first
      [ apply compare_cons_lt; lia
      | match goal with
        | |- Str.compare (?c :: _) (?d :: _) = Lt =>
            let He := fresh "Heq" in
            destruct (N.lt_total c d) as [?|[He|?]];
            [ by apply compare_cons_lt | rewrite He, compare_cons_same | exfalso; lia ]
        end ].
Qed.

(** For strings without surrogates, the byte-wise order of the UTF-8
    encodings is the order by code units. *)
Lemma compare_encode (a b : jsstring) :
  VerifierSpec.plain a -> VerifierSpec.plain b ->
  Str.compare (Utf8.encode a) (Utf8.encode b) = Str.compare a b.
Proof.
  intros Ha. revert b. induction Ha as [|x a Hx Ha IH]; intros b Hb.
  - destruct Hb as [|y b Hy Hb]; [reflexivity|].
    rewrite encode_plain by done. destruct (enc_nonempty y) as (c & r & ->). reflexivity.
  - destruct Hb as [|y b Hy Hb].
    + rewrite encode_plain by done. destruct (enc_nonempty x) as (c & r & ->). reflexivity.
    + rewrite !encode_plain by done. cbn [Str.compare].
      destruct (N.compare_spec x y) as [->|Hlt|Hgt].
      * clear Hx. induction (Utf8.enc y) as [|c r IHr]; cbn [app]; [by apply IH|].
        by rewrite compare_cons_same.
      * by apply enc_lt.
      * rewrite StrFacts.compare_antisym. by rewrite enc_lt.
Qed.

(** Outside that range the two orders differ: a key made of one character
    beyond the BMP sorts before U+FF5E by code units and after it by
    bytes. *)
Example orders_differ :
  Str.le [0xD83D; 0xDE00] [0xFF5E]
  /\ ~ VerifierSpec.bytes_le [0xD83D; 0xDE00] [0xFF5E].
Proof. split; [by vm_compute|]. unfold VerifierSpec.bytes_le. vm_compute. intros H. by apply H. Qed.

End Utf8Facts.

(** ** The signature verifier *)

Module VerifierFacts.
Import Verifier VerifierSpec.

Lemma elem_of_sorted_keys (kv : gmap jsstring jsstring) (k : jsstring) :
  k ∈ sorted_keys kv <-> is_Some (kv !! k) /\ k <> hash_key.
Proof.
  unfold sorted_keys. rewrite merge_sort_Permutation, list_elem_of_filter.
  rewrite list_elem_of_fmap. split.
  - intros [Hk [[k' v] [-> Hin]]]. apply elem_of_map_to_list in Hin. eauto.
  - intros [[v Hv] Hk]. split; [done|].
    exists (k, v). split; [done|]. by apply elem_of_map_to_list.
Qed.

Lemma NoDup_sorted_keys (kv : gmap jsstring jsstring) : NoDup (sorted_keys kv).
Proof.
  unfold sorted_keys. rewrite merge_sort_Permutation.
  apply NoDup_filter, NoDup_fst_map_to_list.
Qed.

Lemma Sorted_sorted_keys (kv : gmap jsstring jsstring) :
  Sorted Str.le (sorted_keys kv).
Proof. apply Sorted_merge_sort; apply _. Qed.

(** The keys being distinct, the order in which [Object.keys] lists them
    has no effect on the sorted array. *)
Lemma sorted_keys_order_irrelevant (kv : gmap jsstring jsstring) (ks : list jsstring) :
  ks ≡ₚ (map_to_list kv).*1 ->
  merge_sort Str.le (filter (fun k => k <> hash_key) ks) = sorted_keys kv.
Proof. intros Hp. apply StrFacts.merge_sort_perm_invariant. by rewrite Hp. Qed.

(** The check string built by the code is the one check string of the map
    for the code-unit order. *)
Lemma check_string_unique (kv : gmap jsstring jsstring) (cs : jsstring) :
  is_check_string Str.le kv cs <-> cs = data_check_string kv.
Proof.
  split.
  - intros (keys & Hnd & Hin & Hs & ->).
    assert (keys = sorted_keys kv) as ->.
    { apply StrFacts.sorted_perm_unique; [done|apply Sorted_sorted_keys|].
      apply NoDup_Permutation; [done|apply NoDup_sorted_keys|].
      intros k. by rewrite Hin, elem_of_sorted_keys. }
    reflexivity.
  - intros ->. exists (sorted_keys kv).
    split; [apply NoDup_sorted_keys|].
    split; [apply elem_of_sorted_keys|].
    split; [apply Sorted_sorted_keys|].
    reflexivity.
Qed.

Lemma decode_hmac_hex (botToken : jsstring) (kv : gmap jsstring jsstring) :
  Hex.decode (hmac_hex botToken kv)
  = expected_digest botToken (data_check_string kv).
Proof. unfold hmac_hex. apply HexFacts.decode_encode, ShaFacts.hmac_bytes. Qed.

Lemma expected_digest_length (botToken cs : jsstring) :
  length (expected_digest botToken cs) = 32%nat.
Proof. apply ShaFacts.hmac_length. Qed.

(** What the [try] block computes once the payload is parsed and [hash] is
    found. *)
Lemma verify_body_parsed (s botToken : jsstring) kv hash :
  parse s = Ret kv -> kv !! hash_key = Some hash ->
  verifyInitData (VStr s) botToken
  = Ret (bool_decide (Hex.decode hash = expected_digest botToken (data_check_string kv))).
Proof.
  intros Hp Hh. unfold verifyInitData, verify_body. rewrite Hp. unfold bind.
  rewrite Hh, decode_hmac_hex. unfold timingSafeEqual.
  pose proof (expected_digest_length botToken (data_check_string kv)) as Hlen.
  destruct hash as [|c hash].
  - cbn [try_catch]. rewrite bool_decide_eq_false_2; [done|].
    intros Heq. rewrite <- Heq in Hlen. discriminate.
  - case_bool_decide as Hl; cbn [try_catch].
    + f_equal. apply bool_decide_ext. split; congruence.
    + rewrite (bool_decide_eq_false_2 (_ = expected_digest _ _)); [done|congruence].
Qed.


(** The direction of C1 that holds as stated: a [hash] equal to the
    lowercase hexadecimal digest is accepted. *)
Lemma verify_accepts_hex_digest (s botToken : jsstring) kv :
  parse s = Ret kv -> kv !! hash_key = Some (hmac_hex botToken kv) ->
  verifyInitData (VStr s) botToken = Ret true.
Proof.
  intros Hp Hh. rewrite (verify_body_parsed s botToken kv _ Hp Hh).
  f_equal. apply bool_decide_eq_true, decode_hmac_hex.
Qed.

(** *** Keys without surrogates *)

Lemma bytes_le_plain (a b : jsstring) :
  plain a -> plain b -> (bytes_le a b <-> Str.le a b).
Proof.
  intros Ha Hb. unfold bytes_le, Str.le. by rewrite Utf8Facts.compare_encode.
Qed.

Lemma Sorted_agree {A} (P : A -> Prop) (R1 R2 : relation A) (l : list A) :
  (forall x y, P x -> P y -> R1 x y -> R2 x y) ->
  Forall P l -> Sorted R1 l -> Sorted R2 l.
Proof.
  intros HR Hall Hs. induction Hs as [|x l Hs IH Hhd]; [constructor|].
  apply Forall_cons in Hall as [Hx Hl]. constructor; [by apply IH|].
  destruct Hhd as [|y l' Hxy]; constructor.
  apply Forall_cons in Hl as [Hy _]. by apply HR.
Qed.

(** Where no key holds a surrogate, the check string of the byte-wise order
    is the check string of the code. *)
Lemma check_string_bytewise (kv : gmap jsstring jsstring) (cs : jsstring) :
  (forall k, is_Some (kv !! k) -> plain k) ->
  (is_check_string bytes_le kv cs <-> is_check_string Str.le kv cs).
Proof.
  intros Hplain.
  split; intros (keys & Hnd & Hin & Hs & ->); exists keys; repeat (split; [done|]);
    (split; [|done]);
    (eapply (Sorted_agree plain); [| |exact Hs]);
    [ intros x y Hx Hy; by apply bytes_le_plain
    | apply Forall_forall; intros k Hk; apply Hplain; by apply Hin
    | intros x y Hx Hy; by apply bytes_le_plain
    | apply Forall_forall; intros k Hk; apply Hplain; by apply Hin ].
Qed.

(** For a payload whose keys hold no surrogate (every ASCII payload),
    [verifyInitData] answers [true] exactly when the [hash] decodes to the
    digest of the check string sorted byte-wise. *)
Lemma verify_true_iff_bytewise (s botToken : jsstring) :
  (forall kv k, parse s = Ret kv -> is_Some (kv !! k) -> plain k) ->
  (verifyInitData (VStr s) botToken = Ret true
   <-> decodes_to_digest bytes_le s botToken).
Proof.
  intros Hplain.
  assert (Heq : decodes_to_digest bytes_le s botToken <-> hash_decodes_to_digest s botToken).
  { split; intros (kv & hash & cs & Hp & Hh & Hcs & Hd); exists kv, hash, cs;
      repeat (split; [done|]); (split; [|done]);
      apply (check_string_bytewise kv cs (fun k => Hplain kv k Hp)); exact Hcs. }
  rewrite Heq.
  destruct (parse s) as [kv|e] eqn:Hp.
  - destruct (kv !! hash_key) as [hash|] eqn:Hh.
    + rewrite (verify_body_parsed s botToken kv hash Hp Hh). split.
      * intros [= Hb]. apply bool_decide_eq_true in Hb.
        exists kv, hash, (data_check_string kv). by rewrite check_string_unique.
      * intros (kv' & hash' & cs & Hp' & Hh' & Hcs & Hd).
        rewrite Hp in Hp'. injection Hp' as <-.
        rewrite Hh in Hh'. injection Hh' as <-.
        apply check_string_unique in Hcs as ->.
        f_equal. by apply bool_decide_eq_true.
    + split.
      * unfold verifyInitData, verify_body. rewrite Hp. unfold bind. rewrite Hh. discriminate.
      * intros (kv' & hash' & cs & Hp' & Hh' & _). congruence.
  - split.
    + unfold verifyInitData, verify_body. rewrite Hp. discriminate.
    + intros (kv' & hash' & cs & Hp' & _). congruence.
Qed.

Lemma verify_empty (botToken : jsstring) :
  verifyInitData (VStr []) botToken = Ret false.
Proof.
  unfold verifyInitData, verify_body.
  assert (parse [] = Ret ∅) as -> by (vm_compute; reflexivity).
  unfold bind. by rewrite lookup_empty.
Qed.

End VerifierFacts.

Module VerifierExamples.
Import Verifier VerifierSpec Samples.

Example lowercase_accepted : verifyInitData (VStr lowercase_payload) token = Ret true.
Proof. vm_compute. reflexivity. Qed.

Example uppercase_accepted : verifyInitData (VStr uppercase_payload) token = Ret true.
Proof. vm_compute. reflexivity. Qed.

Example trailing_accepted : verifyInitData (VStr trailing_payload) token = Ret true.
Proof. vm_compute. reflexivity. Qed.

Example undecodable_body : verify_body (VStr undecodable_payload) token = Throw URIError.
Proof. vm_compute. reflexivity. Qed.

Example short_hash_body : verify_body (VStr short_hash_payload) token = Throw RangeError.
Proof. vm_compute. reflexivity. Qed.

Example not_a_string_body : verify_body (VNum 5) token = Throw TypeError.
Proof. reflexivity. Qed.

Example missing_value_kept :
  (kv <- parse missing_value_payload ;; Ret (kv !! js "b")) = Ret (Some []).
Proof. vm_compute. reflexivity. Qed.

Example missing_value_signed_accepted :
  verifyInitData (VStr missing_value_signed) token = Ret true.
Proof. vm_compute. reflexivity. Qed.

End VerifierExamples.

(** A decidable side condition on concrete data, settled by evaluation. *)
Ltac by_compute := apply (bool_decide_unpack _); vm_compute; exact I.

Module VerifierProps.
Import Verifier VerifierSpec Samples VerifierFacts.




(** The three sources of exceptions in the [try] block. *)
Lemma verify_body_throws (initData : value) (botToken : jsstring) (e : exn) :
  verify_body initData botToken = Throw e ->
  (e = TypeError /\ forall s, initData <> VStr s)
  \/ (exists s, initData = VStr s /\ parse s = Throw e)
  \/ (e = RangeError /\ exists s kv hash,
        initData = VStr s /\ parse s = Ret kv /\ kv !! hash_key = Some hash
        /\ length (Hex.decode hash) <> 32%nat).
Proof.
  destruct initData as [| | | |s| | | |].
  1-4, 6-9: intros [= <-]; left; split; [reflexivity|discriminate].
  unfold verify_body.
  destruct (parse s) as [kv|e'] eqn:Hp; unfold bind.
  - destruct (kv !! hash_key) as [[|c hash]|] eqn:Hh; [discriminate| |discriminate].
    rewrite decode_hmac_hex.
    unfold timingSafeEqual. case_bool_decide as Hl; [discriminate|].
    intros [= <-]. right; right. split; [reflexivity|].
    exists s, kv, (c :: hash). split; [done|]. split; [done|]. split; [done|].
    rewrite expected_digest_length in Hl. congruence.
  - intros [= <-]. right; left. eauto.
Qed.

(** *** Entries *)

Lemma split_no_sep (sep : N) (s : jsstring) :
  sep ∉ s -> Str.split sep s = [s].
Proof.
  induction s as [|c s IH]; [reflexivity|].
  rewrite not_elem_of_cons. intros [Hc Hs]. cbn [Str.split].
  destruct (N.eqb_spec c sep) as [->|_]; [done|]. by rewrite IH.
Qed.

Lemma split_app_sep (sep : N) (a r : jsstring) :
  sep ∉ a -> Str.split sep (a ++ sep :: r) = a :: Str.split sep r.
Proof.
  induction a as [|c a IH]; cbn [app Str.split].
  - by rewrite N.eqb_refl.
  - rewrite not_elem_of_cons. intros [Hc Ha].
    destruct (N.eqb_spec c sep) as [->|_]; [done|]. by rewrite IH.
Qed.

(** Splitting at the ampersands gives back the entries that were joined. *)
Lemma split_join (sep : N) (es : list jsstring) :
  es <> [] -> Forall (fun e => sep ∉ e) es ->
  Str.split sep (Str.join [sep] es) = es.
Proof.
  intros Hne Hall. induction Hall as [|e es He Hes IH]; [done|].
  destruct es as [|e' es].
  - cbn [Str.join]. by apply split_no_sep.
  - change (Str.join [sep] (e :: e' :: es)) with (e ++ sep :: Str.join [sep] (e' :: es)).
    rewrite split_app_sep by done. by rewrite IH.
Qed.

Lemma collect_app (p1 p2 : list (list jsstring)) (kv : gmap jsstring jsstring) :
  collect (p1 ++ p2) kv = (kv' <- collect p1 kv ;; collect p2 kv').
Proof.
  revert kv; induction p1 as [|p p1 IH]; intros kv; [reflexivity|].
  cbn [app collect]. destruct p as [|[|c k] vs]; try apply IH.
  destruct (Uri.decodeURIComponent (default [] (head vs))); [apply IH|reflexivity].
Qed.

(** One turn of the loop, in terms of the key and the value of the entry. *)
Lemma collect_entry (e : jsstring) (rest : list (list jsstring)) (kv : gmap jsstring jsstring) :
  collect (Str.split eq_sign e :: rest) kv
  = if bool_decide (entry_key e = []) then collect rest kv
    else d <- Uri.decodeURIComponent (entry_value e) ;;
         collect rest (obj_set (entry_key e) d kv).
Proof.
  unfold entry_key, entry_value. cbn [collect].
  by destruct (Str.split eq_sign e) as [|[|c k] vs].
Qed.

Lemma collect_skips_empty_keys (es : list jsstring) (kv : gmap jsstring jsstring) :
  collect (map (Str.split eq_sign) es) kv
  = collect (map (Str.split eq_sign) (filter (fun e => entry_key e <> []) es)) kv.
Proof.
  revert kv; induction es as [|e es IH]; intros kv; [reflexivity|].
  cbn [map]. rewrite collect_entry, filter_cons.
  case_bool_decide as Hk.
  - rewrite decide_False by tauto. apply IH.
  - rewrite decide_True by done. cbn [map]. rewrite collect_entry.
    rewrite bool_decide_eq_false_2 by done.
    destruct (Uri.decodeURIComponent (entry_value e)); [apply IH|reflexivity].
Qed.

Lemma collect_throws (es : list jsstring) (e : jsstring) (kv : gmap jsstring jsstring) :
  e ∈ es -> entry_key e <> [] ->
  (exists err, Uri.decodeURIComponent (entry_value e) = Throw err) ->
  exists err, collect (map (Str.split eq_sign) es) kv = Throw err.
Proof.
  intros Hin Hk [err He]. revert kv.
  induction Hin as [e es|e e' es Hin IH]; intros kv; cbn [map]; rewrite collect_entry.
  - rewrite bool_decide_eq_false_2 by done. rewrite He. by exists err.
  - specialize (IH Hk He).
    case_bool_decide; [apply IH|].
    destruct (Uri.decodeURIComponent (entry_value e')) as [d|err']; [apply IH|by exists err'].
Qed.

Lemma missing_value_is_empty (k : jsstring) :
  eq_sign ∉ k ->
  entry_key (k ++ [eq_sign]) = entry_key k
  /\ entry_value (k ++ [eq_sign]) = [] /\ entry_value k = [] /\ entry_key k = k.
Proof.
  intros Hk. unfold entry_key, entry_value.
  rewrite (split_app_sep _ k []), (split_no_sep _ k) by done.
  repeat split; reflexivity.
Qed.

(** C9, amended: an entry with an empty key is skipped and the other
    entries are parsed as if it were not there; an entry without a value
    is kept, as if it ended with [=]; an entry with a non-empty key
    whose value cannot be percent-decoded makes the parsing throw, and
    [verifyInitData] returns [false]. *)
Theorem malformed_entries :
  (forall s, parse s
             = parse_entries (filter (fun e => entry_key e <> []) (Str.split amp s)))
  /\ (forall pre post k,
        Forall (fun e => amp ∉ e) (pre ++ k :: post) -> eq_sign ∉ k ->
        parse (Str.join [amp] (pre ++ k :: post))
        = parse (Str.join [amp] (pre ++ (k ++ [eq_sign]) :: post)))
  /\ (forall s botToken e,
        e ∈ Str.split amp s -> entry_key e <> [] ->
        (exists err, Uri.decodeURIComponent (entry_value e) = Throw err) ->
        (exists err, parse s = Throw err)
        /\ verifyInitData (VStr s) botToken = Ret false).
Proof.
  split; [|split].
  - intros s. apply collect_skips_empty_keys.
  - intros pre post k Hall Hk. unfold parse.
    assert (Hall' : Forall (fun e => amp ∉ e) (pre ++ (k ++ [eq_sign]) :: post)).
    { revert Hall. rewrite !Forall_app, !Forall_cons.
      intros (? & ? & ?). split; [done|]. split; [|done].
      rewrite elem_of_app, list_elem_of_singleton. intros [?|[=]]. done. }
    rewrite !split_join by (done || by destruct pre).
    unfold parse_entries. rewrite !map_app, !collect_app. cbn [map].
    destruct (collect (map (Str.split eq_sign) pre) ∅) as [kv|]; [|reflexivity].
    unfold bind. rewrite !collect_entry.
    destruct (missing_value_is_empty k Hk) as (-> & -> & -> & _). done.
  - intros s botToken e Hin Hk He.
    destruct (collect_throws _ e ∅ Hin Hk He) as [err Herr].
    split; [by exists err|].
    unfold verifyInitData, verify_body, parse, parse_entries. by rewrite Herr.
Qed.

Lemma malformed_entries_witness :
  parse (js "a=1&b") = parse (js "a=1&b=")
  /\ verifyInitData (VStr undecodable_payload) token = Ret false.
Proof.
  destruct malformed_entries as (_ & Hmissing & Hthrow). split.
  - apply (Hmissing [js "a=1"] [] (js "b")); by_compute.
  - apply (Hthrow undecodable_payload token (js "b=%")); [by_compute..|].
    exists URIError. reflexivity.
Defined.

(** C9 as stated fails on both payloads: the code answers [false] where
    verification on the entries left after skipping would answer [true]. *)
Lemma malformed_entries_are_not_all_skipped :
  ~ skips_malformed undecodable_payload token
  /\ ~ skips_malformed missing_value_payload token.
Proof.
  assert (H1 : verifyInitData (VStr undecodable_payload) token = Ret false)
    by (vm_compute; reflexivity).
  assert (H2 : verify_skipping undecodable_payload token = true)
    by (vm_compute; reflexivity).
  assert (H3 : verifyInitData (VStr missing_value_payload) token = Ret false)
    by (vm_compute; reflexivity).
  assert (H4 : verify_skipping missing_value_payload token = true)
    by (vm_compute; reflexivity).
  split; intros [_ Hv]; [rewrite H1, H2 in Hv|rewrite H3, H4 in Hv]; discriminate.
Qed.

End VerifierProps.

(** ** What the socket handlers do to the state *)

(** Runs a handler symbolically: the monad is unfolded and the outcome of
    each step is split into its cases. *)
Ltac run_prog :=
  unfold Hub.lookup, Hub.createMessage, Hub.send, Hub.update_session, Hub.broadcast,
         Routes.reply;
  unfold Hub.storage;
  unfold Prog.try_catch, Prog.bind, Prog.lift, Prog.read, Prog.ret, Prog.call;
  cbn beta iota zeta.

Module HubFacts.
Import Hub.

Lemma add_sent_app (l1 l2 : list (nat * server_event)) (s : state) :
  add_sent l2 (add_sent l1 s) = add_sent (l1 ++ l2) s.
Proof. unfold add_sent; cbn. by rewrite <- app_assoc. Qed.

(** The three ways [handleAuth] ends: an [auth_error] and nothing else; the
    session bound to a user that is not approved, and an [auth_error];
    the session bound to an approved user, the global room there, and
    [auth_success] followed by [chat_history]. *)
Lemma handleAuth_effect (c : nat) (message : value) (s : state) :
  exists s', handleAuth c message s = (Ret tt, s') /\
  ((exists msg, s' = add_sent [(c, auth_error msg)] s)
   \/ (exists v u msg,
        Js.get message (js "userId") = Ret v /\ Js.truthy v = true
        /\ Storage.getUserById (store s) v = Some u
        /\ Storage.user_status u <> approved
        /\ s' = add_sent [(c, auth_error msg)] (map_session c (bind_user u) s))
   \/ (exists v u,
        Js.get message (js "userId") = Ret v /\ Js.truthy v = true
        /\ Storage.getUserById (store s) v = Some u
        /\ Storage.user_status u = approved
        /\ let '(room, st) := Storage.getOrCreateGlobalRoom (store s) in
           s' = add_sent
                  [(c, auth_success (Storage.user_id u) (Storage.user_anonName u)
                                    (Storage.user_status u) room);
                   (c, chat_history (map render (Storage.getMessagesByRoomId st room 50)))]
                  (with_store st (map_session c (bind_user u) s)))).
Proof.
  unfold handleAuth. run_prog.
  destruct (Js.get message (js "userId")) as [v|e] eqn:Hv; [|eauto 6].
  destruct (Js.truthy v) eqn:Ht; cbn [negb]; [|eauto 6].
  destruct (Storage.getUserById (store s) v) as [u|] eqn:Hu; [|eauto 6].
  case_bool_decide as Hs; cbn [negb].
  - cbn [store map_session].
    destruct (Storage.getOrCreateGlobalRoom (store s)) as [room st] eqn:Hr.
    eexists. split; [reflexivity|]. right; right. exists v, u.
    repeat (split; [done|]). by rewrite add_sent_app.
  - eexists. split; [reflexivity|]. right; left. exists v, u. eauto 10.
Qed.

(** The two ways [handleSendMessage] ends: one [error] event and nothing
    else; or, for a session bound and approved and a text that is not
    empty once trimmed, the global room there, the message stored, and
    [new_message] sent to the recipients. *)
Lemma handleSendMessage_effect (c : nat) (message : value) (s : state) :
  exists s', handleSendMessage c message s = (Ret tt, s') /\
  ((exists msg, s' = add_sent [(c, error msg)] s)
   \/ (exists ws uid content roomId,
        session_of c s = Some ws /\ userId ws = Some uid /\ uid <> 0%Z
        /\ userStatus ws = Some approved
        /\ Js.get message (js "content") = Ret (VStr content)
        /\ Js.get message (js "roomId") = Ret roomId
        /\ Str.trim content <> []
        /\ let '(room, st1) := Storage.getOrCreateGlobalRoom (store s) in
           let '(m, st2) :=
             Storage.createMessage (clock s)
               (Storage.mkInsertMessage (Str.trim content) uid
                  (Js.or_else roomId (VNum (inject_Z room)))) st1 in
           s' = add_sent
                  (map (fun r => (r, new_message (broadcast_item st2 uid m)))
                       (recipients (clients s)))
                  (with_store st2 s))).
Proof.
  unfold handleSendMessage. run_prog.
  destruct (session_of c s) as [ws|] eqn:Hws; cbn [mbind option_bind bound negb orb];
    [|eauto 6].
  destruct (userId ws) as [uid|] eqn:Huid; cbn [bound negb orb]; [|eauto 6].
  destruct (Z.eqb_spec uid 0) as [->|Hne]; cbn [negb orb]; [eauto 6|].
  unfold is_approved. case_bool_decide as Hst; cbn [negb]; [|eauto 6].
  destruct (Js.get message (js "content")) as [content|e] eqn:Hc; [|eauto 6].
  destruct (Js.get message (js "roomId")) as [roomId|e] eqn:Hr; [|eauto 6].
  destruct content as [| | | |text| | | |]; cbn [optional_trim]; eauto 6.
  destruct (Str.trim text) as [|t0 text'] eqn:Htrim; [eauto 6|].
  cbn [store clock with_store].
  destruct (Storage.getOrCreateGlobalRoom (store s)) as [room st1] eqn:Hroom.
  cbn [store clock with_store default from_option id].
  destruct (Storage.createMessage (clock s) _ st1) as [m st2] eqn:Hm.
  eexists. split; [reflexivity|]. right.
  exists ws, uid, text, roomId. rewrite Htrim, Hm.
  repeat (split; [done|]). reflexivity.
Qed.

Lemma handleJoinRoom_effect (c : nat) (message : value) (s : state) :
  let '(room, st) := Storage.getOrCreateGlobalRoom (store s) in
  handleJoinRoom c message s = (Ret tt, add_sent [(c, joined_room room room_name)] (with_store st s)).
Proof.
  unfold handleJoinRoom. run_prog.
  by destruct (Storage.getOrCreateGlobalRoom (store s)) as [room st].
Qed.

(** What the arrival of a text does: one [error] event, or what one of the
    three handlers does. *)
Lemma on_message_effect (c : nat) (data : jsstring) (s : state) :
  exists s', on_message c data s = (Ret tt, s') /\
  ((exists msg, s' = add_sent [(c, error msg)] s)
   \/ (exists message, Json.parse data = Ret message
        /\ Js.get message (js "type") = Ret (VStr (js "auth"))
        /\ handleAuth c message s = (Ret tt, s'))
   \/ (exists message, Json.parse data = Ret message
        /\ Js.get message (js "type") = Ret (VStr (js "send_message"))
        /\ handleSendMessage c message s = (Ret tt, s'))
   \/ (exists message, Json.parse data = Ret message
        /\ Js.get message (js "type") = Ret (VStr (js "join_room"))
        /\ handleJoinRoom c message s = (Ret tt, s'))).
Proof.
  unfold on_message. run_prog.
  destruct (Json.parse data) as [message|e] eqn:Hp; [|eauto 6].
  destruct (Js.get message (js "type")) as [type|e] eqn:Ht; [|eauto 6].
  unfold dispatch.
  destruct type as [| | | |t| | | |]; try (unfold send; eauto 6).
  repeat case_bool_decide; subst.
  - destruct (handleAuth_effect c message s) as (s' & Hs' & _).
    rewrite Hs'. eauto 10.
  - destruct (handleSendMessage_effect c message s) as (s' & Hs' & _).
    rewrite Hs'. eauto 10.
  - pose proof (handleJoinRoom_effect c message s) as Hj.
    destruct (Storage.getOrCreateGlobalRoom (store s)) as [room st].
    rewrite Hj. eauto 10.
  - unfold send. eauto 6.
Qed.

End HubFacts.

(** ** What the auth gateway does to the store *)

Module RoutesFacts.
Import Routes.

(** [userData], where the handler reads its properties, is not [null]. *)
Lemma identify_user_data (e : env) (req_body : value) (tgId : Z) (userData : value) :
  identify e req_body = Ret (inr (tgId, userData)) -> Js.truthy userData = true.
Proof.
  unfold identify, bind, refuse.
  destruct (Js.get req_body _) as [initData|]; [|discriminate].
  destruct (negb (Js.truthy initData)); [discriminate|].
  case_bool_decide; [discriminate|].
  destruct (Verifier.verifyInitData initData _) as [[]|]; cbn [negb]; try discriminate.
  destruct (Js.truthy (user_data _)) eqn:Ht; cbn [negb]; [|discriminate].
  destruct (Js.get (user_data _) _) as [id|]; [|discriminate].
  destruct (negb (Js.truthy id)); [discriminate|].
  destruct (Js.BigInt id); [|discriminate].
  by intros [= <- <-].
Qed.

(** The ways the handler ends: a refusal or the answer 500, the store as it
    was; the row found for the identity; a row created for it. *)
Lemma auth_post_effect (e : env) (a : ambient) (req_body : value) (st : Storage.t) :
  exists r st', auth_post e a req_body st = (Ret r, st') /\
  ((st' = st /\ external_identity e req_body = None
    /\ exists msg, body r = error_body msg /\ status_code r <> 200)
   \/ (exists tgId u,
         external_identity e req_body = Some tgId
         /\ Storage.getUserByTgId st tgId = Some u
         /\ st' = st /\ r = mkResponse 200 (success_body u))
   \/ (exists tgId username u,
         external_identity e req_body = Some tgId
         /\ Storage.getUserByTgId st tgId = None
         /\ Storage.createUser (now a) (new_user a tgId username) st = (u, st')
         /\ r = mkResponse 200 (success_body u))).
Proof.
  unfold auth_post, auth_body, external_identity. run_prog.
  destruct (identify e req_body) as [[refusal|[tgId userData]]|err] eqn:Hid.
  - do 2 eexists. split; [reflexivity|]. left. repeat split.
    revert Hid. unfold identify, bind, refuse.
    repeat (case_match; try discriminate); intros [= <-]; cbn; eauto.
  - destruct (Storage.getUserByTgId st tgId) as [u|] eqn:Hf.
    + do 2 eexists. split; [reflexivity|]. right; left. eauto 10.
    + apply identify_user_data in Hid.
      destruct userData; try discriminate; cbn [Js.get];
        (destruct (Storage.createUser _ _ st) as [u st'] eqn:Hc;
         do 2 eexists; (split; [reflexivity|]); right; right; eauto 10).
  - do 2 eexists. split; [reflexivity|]. left. cbn. repeat split. eauto.
Qed.

End RoutesFacts.

(** ** Every reachable state is well formed *)

Module InvFacts.
Import Hub Server Inv.

Lemma store_ok_empty (now : Z) : store_ok now Storage.empty.
Proof.
  split; cbn.
  - intros i u. by rewrite lookup_nil.
  - constructor.
  - constructor.
  - constructor.
Qed.

Lemma store_ok_later (now later : Z) (st : Storage.t) :
  (now <= later)%Z -> store_ok now st -> store_ok later st.
Proof.
  intros Hle [H1 H2 H3 H4]. split; try done.
  eapply Forall_impl; [exact H4|]. intros m Hm. cbn in *. lia.
Qed.

Lemma find_some_elem {A} (f : A -> bool) (l : list A) (x : A) :
  find f l = Some x -> x ∈ l /\ f x = true.
Proof. intros H. apply find_some in H as [H1 H2]. by rewrite list_elem_of_In. Qed.

Lemma find_none_elem {A} (f : A -> bool) (l : list A) (x : A) :
  find f l = None -> x ∈ l -> f x = false.
Proof. intros H Hx. apply (find_none f l H). by apply list_elem_of_In. Qed.

Lemma createUser_ok (now : Z) (f : Storage.insert_user) (st : Storage.t) :
  store_ok now st -> Storage.getUserByTgId st (Storage.new_tgId f) = None ->
  store_ok now (snd (Storage.createUser now f st)).
Proof.
  intros [H1 H2 H3 H4] Hnone. split; cbn; try done.
  - intros i u Hi. apply lookup_app_Some in Hi as [Hi|[Hlen Hi]]; [by apply H1|].
    apply list_lookup_singleton_Some in Hi as [Hi <-]. cbn. lia.
  - rewrite map_app. apply NoDup_app. split; [done|]. split; [|apply NoDup_singleton].
    intros tg Hin. cbn. rewrite list_elem_of_singleton. intros ->.
    apply list_elem_of_In, in_map_iff in Hin as (u & Hu & Hin).
    apply list_elem_of_In in Hin.
    pose proof (find_none_elem _ _ u Hnone Hin) as Hf. cbn in Hf. lia.
Qed.

Lemma createMessage_ok (now : Z) (f : Storage.insert_message) (st : Storage.t) :
  store_ok now st -> store_ok now (snd (Storage.createMessage now f st)).
Proof.
  intros [H1 H2 H3 H4]. split; cbn; try done.
  - rewrite map_app. apply StronglySorted_app_2; [|done|repeat constructor].
    intros t1 t2 Ht1 Ht2. cbn in Ht2. apply list_elem_of_singleton in Ht2 as ->.
    apply list_elem_of_In, in_map_iff in Ht1 as (m & <- & Hm).
    apply list_elem_of_In in Hm. by apply (proj1 (Forall_forall _ _) H4).
  - apply Forall_app. split; [done|]. repeat constructor. cbn. lia.
Qed.

Lemma getOrCreateGlobalRoom_ok (now : Z) (st : Storage.t) :
  store_ok now st -> store_ok now (snd (Storage.getOrCreateGlobalRoom st)).
Proof.
  intros [H1 H2 H3 H4]. unfold Storage.getOrCreateGlobalRoom.
  destruct (Storage.global_room st); by split.
Qed.

Lemma getOrCreateGlobalRoom_rows (st : Storage.t) :
  Storage.users (snd (Storage.getOrCreateGlobalRoom st)) = Storage.users st
  /\ Storage.messages (snd (Storage.getOrCreateGlobalRoom st)) = Storage.messages st.
Proof. unfold Storage.getOrCreateGlobalRoom. by destruct (Storage.global_room st). Qed.

Lemma set_status_key (uid : Z) (status : jsstring) (u : Storage.user) :
  key (set_status uid status u) = key u.
Proof. unfold set_status. by destruct (Storage.user_id u =? uid)%Z. Qed.

Lemma moderate_keys (uid : Z) (status : jsstring) (st : Storage.t) :
  map key (Storage.users (moderate uid status st)) = map key (Storage.users st).
Proof.
  cbn. rewrite map_map. apply map_ext. intros u. apply set_status_key.
Qed.

Lemma moderate_ok (now uid : Z) (status : jsstring) (st : Storage.t) :
  store_ok now st -> store_ok now (moderate uid status st).
Proof.
  intros [H1 H2 H3 H4]. split; cbn; try done.
  - intros i u Hi. rewrite list_lookup_fmap in Hi.
    destruct (Storage.users st !! i) as [u0|] eqn:Hu0; [|done].
    injection Hi as <-. specialize (H1 i u0 Hu0).
    pose proof (set_status_key uid status u0) as Hk. unfold key in Hk. congruence.
  - rewrite map_map.
    erewrite map_ext; [exact H2|]. intros u.
    pose proof (set_status_key uid status u) as Hk. unfold key in Hk. congruence.
Qed.

(** *** Rows are kept *)

#[global] Instance grows_refl : Reflexive grows.
Proof. intros st. unfold grows. done. Qed.

#[global] Instance grows_trans : Transitive grows.
Proof. intros a b c. unfold grows. apply transitivity. Qed.

Lemma grows_same_users (st st' : Storage.t) :
  Storage.users st' = Storage.users st -> grows st st'.
Proof. unfold grows. by intros ->. Qed.

Lemma grows_elem (st st' : Storage.t) (u : Storage.user) :
  grows st st' -> u ∈ Storage.users st ->
  exists u', u' ∈ Storage.users st' /\ key u' = key u.
Proof.
  intros [k Hk] Hu.
  assert (Hin : key u ∈ map key (Storage.users st')).
  { rewrite Hk, elem_of_app. left. apply list_elem_of_In, in_map, list_elem_of_In, Hu. }
  apply list_elem_of_In, in_map_iff in Hin as (u' & Hu' & Hin).
  exists u'. by rewrite list_elem_of_In.
Qed.

Lemma createUser_grows (now : Z) (f : Storage.insert_user) (st : Storage.t) :
  grows st (snd (Storage.createUser now f st)).
Proof. unfold grows. cbn. rewrite map_app. by eexists. Qed.

Lemma getOrCreateGlobalRoom_grows (st : Storage.t) :
  grows st (snd (Storage.getOrCreateGlobalRoom st)).
Proof. apply grows_same_users, getOrCreateGlobalRoom_rows. Qed.

Lemma createMessage_grows (now : Z) (f : Storage.insert_message) (st : Storage.t) :
  grows st (snd (Storage.createMessage now f st)).
Proof. by apply grows_same_users. Qed.

Lemma moderate_grows (uid : Z) (status : jsstring) (st : Storage.t) :
  grows st (moderate uid status st).
Proof. unfold grows. by rewrite moderate_keys. Qed.

(** *** Sessions *)

Lemma elem_of_map_session (c0 : nat) (f : session -> session) (s : state) c ws :
  (c, ws) ∈ clients (map_session c0 f s) <->
  exists ws0, (c, ws0) ∈ clients s
              /\ ws = if bool_decide (c = c0) then f ws0 else ws0.
Proof.
  cbn. rewrite list_elem_of_In, in_map_iff. split.
  - intros ([c1 ws1] & Heq & Hin). apply list_elem_of_In in Hin. cbn in Heq.
    exists ws1. destruct (bool_decide (c1 = c0)) eqn:E; injection Heq as <- <-; by rewrite E.
  - intros (ws0 & Hin & ->). exists (c, ws0). rewrite <- list_elem_of_In. split; [|done].
    cbn. by case_bool_decide.
Qed.

Lemma map_session_conns (c0 : nat) (f : session -> session) (s : state) :
  map fst (clients (map_session c0 f s)) = map fst (clients s).
Proof.
  cbn. rewrite map_map. apply map_ext. intros [c ws]. cbn. by case_bool_decide.
Qed.

Lemma sessions_ok_add_sent l (s : state) : sessions_ok s -> sessions_ok (add_sent l s).
Proof. intros [H1 H2 H3 H4]. by split. Qed.

Lemma sessions_ok_with_store (st' : Storage.t) (s : state) :
  grows (store s) st' -> sessions_ok s -> sessions_ok (with_store st' s).
Proof.
  intros Hg [H1 H2 H3 H4]. split; cbn; try done.
  intros c ws n Hin Hn. destruct (H1 c ws n Hin Hn) as (u & Hu & <-).
  destruct (grows_elem _ _ u Hg Hu) as (u' & Hu' & Hk).
  exists u'. split; [done|]. unfold key in Hk. congruence.
Qed.

Lemma sessions_ok_map_session (c0 : nat) (f : session -> session) (s : state) :
  (forall ws, readyState (f ws) = readyState ws \/ readyState (f ws) = CLOSING) ->
  (forall ws n, userId (f ws) = Some n ->
     userId ws = Some n
     \/ exists u, u ∈ Storage.users (store s) /\ Storage.user_id u = n) ->
  sessions_ok s -> sessions_ok (map_session c0 f s).
Proof.
  intros Hr Hu [H1 H2 H3 H4]. split.
  - intros c ws n Hin Hn. apply elem_of_map_session in Hin as (ws0 & Hin & ->).
    case_bool_decide; [|by eapply H1].
    destruct (Hu ws0 n Hn) as [Hn'|Hex]; [by eapply H1|exact Hex].
  - by rewrite map_session_conns.
  - intros c ws Hin. apply elem_of_map_session in Hin as (ws0 & Hin & _). by eapply H3.
  - intros c ws Hin. apply elem_of_map_session in Hin as (ws0 & Hin & ->).
    specialize (H4 c ws0 Hin). case_bool_decide; [|done].
    destruct (Hr ws0) as [->| ->]; auto.
Qed.

Lemma getUserById_elem (st : Storage.t) (v : value) (u : Storage.user) :
  Storage.getUserById st v = Some u ->
  u ∈ Storage.users st /\ Storage.is_number (Storage.user_id u) v = true.
Proof. intros H. by apply find_some_elem in H. Qed.

Lemma ok_add_sent l (s : state) : ok s -> ok (add_sent l s).
Proof. intros [H1 H2]. split; [done|by apply sessions_ok_add_sent]. Qed.

Lemma ok_room (s : state) :
  ok s -> ok (with_store (snd (Storage.getOrCreateGlobalRoom (store s))) s).
Proof.
  intros [H1 H2]. split.
  - by apply getOrCreateGlobalRoom_ok.
  - apply sessions_ok_with_store; [apply getOrCreateGlobalRoom_grows|done].
Qed.

Lemma ok_bind_user (c : nat) (v : value) (u : Storage.user) (s : state) :
  Storage.getUserById (store s) v = Some u -> ok s -> ok (map_session c (bind_user u) s).
Proof.
  intros Hu [H1 H2]. apply getUserById_elem in Hu as [Hu _]. split; [done|].
  apply sessions_ok_map_session; [by left| |done].
  cbn. intros ws n [= <-]. right. eauto.
Qed.

Lemma handleAuth_ok (c : nat) (message : value) (s : state) :
  ok s -> ok (snd (handleAuth c message s)).
Proof.
  intros Hok. destruct (HubFacts.handleAuth_effect c message s) as (s' & -> & Hs').
  cbn [snd]. destruct Hs' as [[msg ->]|[(v & u & msg & _ & _ & Hu & _ & ->)|(v & u & _ & _ & Hu & _ & Hs')]].
  - by apply ok_add_sent.
  - by eapply ok_add_sent, ok_bind_user.
  - pose proof (ok_room _ (ok_bind_user c v u s Hu Hok)) as Hr. cbn [store map_session] in Hr.
    destruct (Storage.getOrCreateGlobalRoom (store s)) as [room st]. subst s'.
    by apply ok_add_sent.
Qed.

Lemma handleSendMessage_ok (c : nat) (message : value) (s : state) :
  ok s -> ok (snd (handleSendMessage c message s)).
Proof.
  intros Hok. destruct (HubFacts.handleSendMessage_effect c message s) as (s' & -> & Hs').
  cbn [snd]. destruct Hs' as [[msg ->]|(ws & uid & content & roomId & _ & _ & _ & _ & _ & _ & _ & Hs')].
  - by apply ok_add_sent.
  - pose proof (ok_room _ Hok) as [Hr1 Hr2]. cbn [store clock with_store] in Hr1.
    pose proof (getOrCreateGlobalRoom_grows (store s)) as Hg.
    destruct (Storage.getOrCreateGlobalRoom (store s)) as [room st1]. cbn [snd] in *.
    pose proof (createMessage_ok (clock s) (Storage.mkInsertMessage (Str.trim content) uid
                  (Js.or_else roomId (VNum (inject_Z room)))) st1 Hr1) as Hm.
    pose proof (createMessage_grows (clock s) (Storage.mkInsertMessage (Str.trim content) uid
                  (Js.or_else roomId (VNum (inject_Z room)))) st1) as Hg2.
    destruct (Storage.createMessage (clock s) _ st1) as [m st2]. cbn [snd] in *. subst s'.
    apply ok_add_sent. split; [done|].
    apply sessions_ok_with_store; [by etransitivity|apply Hok].
Qed.

Lemma on_message_ok (c : nat) (data : jsstring) (s : state) :
  ok s -> ok (snd (on_message c data s)).
Proof.
  intros Hok. destruct (HubFacts.on_message_effect c data s) as (s' & -> & Hs').
  cbn [snd].
  destruct Hs' as [[msg ->]|[(m & _ & _ & Hs')|[(m & _ & _ & Hs')|(m & _ & _ & Hs')]]].
  - by apply ok_add_sent.
  - pose proof (handleAuth_ok c m s Hok) as H. by rewrite Hs' in H.
  - pose proof (handleSendMessage_ok c m s Hok) as H. by rewrite Hs' in H.
  - pose proof (HubFacts.handleJoinRoom_effect c m s) as Hj.
    pose proof (ok_room s Hok) as Hr.
    destruct (Storage.getOrCreateGlobalRoom (store s)) as [room st].
    rewrite Hj in Hs'. injection Hs' as <-. by apply ok_add_sent.
Qed.

Lemma auth_post_ok (e : Routes.env) (a : Routes.ambient) (body : value) (st : Storage.t) :
  store_ok (Routes.now a) st ->
  store_ok (Routes.now a) (snd (Routes.auth_post e a body st))
  /\ grows st (snd (Routes.auth_post e a body st)).
Proof.
  intros Hok. destruct (RoutesFacts.auth_post_effect e a body st) as (r & st' & -> & Hs').
  cbn [snd].
  destruct Hs' as [(-> & _)|[(tgId & u & _ & _ & -> & _)|(tgId & username & u & _ & Hnone & Hc & _)]];
    [done..|].
  pose proof (createUser_ok (Routes.now a) (Routes.new_user a tgId username) st Hok Hnone) as H1.
  pose proof (createUser_grows (Routes.now a) (Routes.new_user a tgId username) st) as H2.
  rewrite Hc in H1, H2. done.
Qed.

Lemma step_ok (e : Routes.env) (s : state) (i : input) : ok s -> ok (step e s i).
Proof.
  intros Hok. destruct i as [|c data|c|c|suffix prefix body|uid status|d]; cbn [step].
  - destruct Hok as [H1 [H2 H3 H4 H5]]. split; [done|]. split; cbn.
    + intros c ws n Hin Hn. apply elem_of_app in Hin as [Hin|Hin]; [by eapply H2|].
      apply list_elem_of_singleton in Hin. injection Hin as -> ->. discriminate.
    + rewrite map_app. apply NoDup_app. split; [done|]. split; [|apply NoDup_singleton].
      intros c Hin. cbn. rewrite list_elem_of_singleton. intros ->.
      apply list_elem_of_In, in_map_iff in Hin as ([c ws] & Hc & Hin). cbn in Hc. subst c.
      apply list_elem_of_In, H4 in Hin. lia.
    + intros c ws Hin. apply elem_of_app in Hin as [Hin|Hin]; [apply H4 in Hin; lia|].
      apply list_elem_of_singleton in Hin. injection Hin as -> ->. lia.
    + intros c ws Hin. apply elem_of_app in Hin as [Hin|Hin]; [by eapply H5|].
      apply list_elem_of_singleton in Hin. injection Hin as -> ->. by left.
  - destruct (session_of c s) as [ws|]; [|done].
    case_bool_decide; [by apply on_message_ok|done].
  - destruct Hok as [H1 H2]. split; [done|].
    apply sessions_ok_map_session; [by right|by left|done].
  - destruct Hok as [H1 [H2 H3 H4 H5]]. split; [done|]. split; cbn.
    + intros c' ws n Hin Hn. apply list_elem_of_filter in Hin as [_ Hin]. by eapply H2.
    + clear -H3. induction (clients s) as [|[c1 ws1] l IH]; [constructor|].
      cbn in H3. apply NoDup_cons in H3 as [Hnin Hnd].
      rewrite filter_cons. case_decide; [|by apply IH]. cbn.
      apply NoDup_cons. split; [|by apply IH].
      intros Hin. apply Hnin.
      apply list_elem_of_In, in_map_iff in Hin as (p & <- & Hin).
      apply list_elem_of_In, list_elem_of_filter in Hin as [_ Hin].
      apply list_elem_of_In, in_map, list_elem_of_In, Hin.
    + intros c' ws Hin. apply list_elem_of_filter in Hin as [_ Hin]. by eapply H4.
    + intros c' ws Hin. apply list_elem_of_filter in Hin as [_ Hin]. by eapply H5.
  - destruct Hok as [H1 H2].
    destruct (auth_post_ok e (ambient_of s suffix prefix) body (store s) H1) as [H3 H4].
    split; [exact H3|]. by apply sessions_ok_with_store.
  - destruct Hok as [H1 H2]. split; [by apply moderate_ok|].
    apply sessions_ok_with_store; [apply moderate_grows|done].
  - destruct Hok as [H1 [H2 H3 H4 H5]]. split; [|by split].
    cbn. eapply store_ok_later; [|exact H1]. lia.
Qed.

Lemma ok_initial : ok initial.
Proof.
  split; [apply store_ok_empty|]. split; cbn.
  - intros c ws n Hin. by apply elem_of_nil in Hin.
  - constructor.
  - intros c ws Hin. by apply elem_of_nil in Hin.
  - intros c ws Hin. by apply elem_of_nil in Hin.
Qed.

Lemma run_ok (e : Routes.env) (inputs : list input) (s : state) :
  ok s -> ok (run e s inputs).
Proof.
  revert s; induction inputs as [|i inputs IH]; intros s Hok; [done|].
  cbn. by apply IH, step_ok.
Qed.

(** Every reachable state is well formed. *)
Theorem reachable_ok (e : Routes.env) (s : state) : reachable e s -> ok s.
Proof. intros [inputs ->]. apply run_ok, ok_initial. Qed.

Lemma step_grows (e : Routes.env) (s : state) (i : input) :
  ok s -> grows (store s) (store (step e s i)).
Proof.
  intros Hok. destruct i as [|c data|c|c|suffix prefix body|uid status|d]; cbn [step];
    try reflexivity.
  - destruct (session_of c s) as [ws|]; [|reflexivity].
    case_bool_decide; [|reflexivity].
    destruct (HubFacts.on_message_effect c data s) as (s' & -> & Hs'). cbn [snd].
    destruct Hs' as [[msg ->]|[(m & _ & _ & Hs')|[(m & _ & _ & Hs')|(m & _ & _ & Hs')]]].
    + reflexivity.
    + destruct (HubFacts.handleAuth_effect c m s) as (s'' & Heq & Hc).
      rewrite Hs' in Heq. injection Heq as <-.
      destruct Hc as [[msg ->]|[(v & u & msg & _ & _ & _ & _ & ->)|(v & u & _ & _ & _ & _ & Hc)]];
        [reflexivity..|].
      pose proof (getOrCreateGlobalRoom_grows (store s)) as Hg.
      destruct (Storage.getOrCreateGlobalRoom (store s)) as [room st]. by subst s'.
    + destruct (HubFacts.handleSendMessage_effect c m s) as (s'' & Heq & Hc).
      rewrite Hs' in Heq. injection Heq as <-.
      destruct Hc as [[msg ->]|(ws' & uid & content & roomId & _ & _ & _ & _ & _ & _ & _ & Hc)];
        [reflexivity|].
      pose proof (getOrCreateGlobalRoom_grows (store s)) as Hg.
      destruct (Storage.getOrCreateGlobalRoom (store s)) as [room st1]. cbn [snd] in Hg.
      pose proof (createMessage_grows (clock s) (Storage.mkInsertMessage (Str.trim content) uid
                    (Js.or_else roomId (VNum (inject_Z room)))) st1) as Hg2.
      destruct (Storage.createMessage (clock s) _ st1) as [msg st2]. cbn [snd] in Hg2.
      subst s'. cbn. by etransitivity.
    + pose proof (HubFacts.handleJoinRoom_effect c m s) as Hj.
      pose proof (getOrCreateGlobalRoom_grows (store s)) as Hg.
      destruct (Storage.getOrCreateGlobalRoom (store s)) as [room st].
      rewrite Hj in Hs'. by injection Hs' as <-.
  - destruct Hok as [H1 _].
    by destruct (auth_post_ok e (ambient_of s suffix prefix) body (store s) H1).
  - apply moderate_grows.
Qed.


End InvFacts.

(** ** The auth gateway *)

Module GatewayProps.
Import Routes Samples RouteSamples RoutesFacts.

(** The handler on a request that [identify] refuses or on which it
    throws. *)
Lemma auth_post_refused e a req_body st r :
  identify e req_body = Ret (inl r) -> auth_post e a req_body st = (Ret r, st).
Proof. intros H. unfold auth_post, auth_body. run_prog. by rewrite H. Qed.

Lemma auth_post_thrown e a req_body st err :
  identify e req_body = Throw err ->
  auth_post e a req_body st = (Ret authentication_failed, st).
Proof. intros H. unfold auth_post, auth_body. run_prog. by rewrite H. Qed.

(** Up to the user data: a request with a verified payload. *)
Lemma identify_verified e (initData : jsstring) :
  bot_token e <> [] ->
  Verifier.verifyInitData (VStr initData) (bot_token e) = Ret true ->
  identify e (request initData)
  = (let userData := user_data (Qs.parse initData) in
     if negb (Js.truthy userData) then refuse 400 (js "Invalid user data in initData") else
     id <- Js.get userData (js "id") ;;
     if negb (Js.truthy id) then refuse 400 (js "Invalid user data in initData") else
     tgId <- Js.BigInt id ;;
     Ret (inr (tgId, userData))).
Proof.
  intros Htok Hv. unfold identify.
  assert (Js.get (request initData) (js "initData") = Ret (VStr initData)) as ->
    by reflexivity.
  cbn [bind parseInitData].
  assert (Js.truthy (VStr initData) = true) as ->.
  { destruct initData; [|done]. by rewrite VerifierFacts.verify_empty in Hv. }
  cbn [negb]. rewrite bool_decide_eq_false_2 by done.
  rewrite Hv. reflexivity.
Qed.



(** *** The user data *)

(** The part of C7 that holds: with a verified payload, the answer is 400
    when the user data is missing or is not JSON ([userData] stays
    [null]), or when its [id] is missing, [null], [false], zero or the
    empty string. *)
Lemma falsy_user_data_rejected e a st (initData : jsstring) :
  bot_token e <> [] ->
  Verifier.verifyInitData (VStr initData) (bot_token e) = Ret true ->
  let userData := user_data (Qs.parse initData) in
  Js.truthy userData = false
  \/ (exists id, Js.get userData (js "id") = Ret id /\ Js.truthy id = false) ->
  auth_post e a (request initData) st = (Ret invalid_user_data, st).
Proof.
  intros Htok Hv userData Hbad.
  apply auth_post_refused. rewrite identify_verified by done. cbv zeta. fold userData.
  destruct Hbad as [->|(id & Hid & Hf)]; [reflexivity|].
  destruct (Js.truthy userData); [|reflexivity].
  cbn [negb]. rewrite Hid. cbn [bind]. by rewrite Hf.
Qed.

(** With a verified payload and an [id] that is truthy but that [BigInt]
    cannot convert, the exception reaches the [catch] of the handler: the
    answer is 500. *)
Lemma unconvertible_id_answers_500 e a st (initData : jsstring) id err :
  bot_token e <> [] ->
  Verifier.verifyInitData (VStr initData) (bot_token e) = Ret true ->
  let userData := user_data (Qs.parse initData) in
  Js.truthy userData = true ->
  Js.get userData (js "id") = Ret id -> Js.truthy id = true ->
  Js.BigInt id = Throw err ->
  auth_post e a (request initData) st = (Ret authentication_failed, st).
Proof.
  intros Htok Hv userData Ht Hid Hti Hbig.
  apply (auth_post_thrown _ _ _ _ err). rewrite identify_verified by done.
  cbv zeta. fold userData. rewrite Ht. cbn [negb]. rewrite Hid. cbn [bind].
  rewrite Hti. cbn [negb]. by rewrite Hbig.
Qed.

(** C7, at the failing request: the payload is verified, its [user] field
    is [{"id":"abc"}], and the answer is 500, not 400. *)
Theorem text_id_answers_500 :
  Verifier.verifyInitData (VStr text_id_payload) token = Ret true
  /\ user_data (Qs.parse text_id_payload) = VObj [(js "id", VStr (js "abc"))]
  /\ auth_post server_env calm (request text_id_payload) Storage.empty
     = (Ret authentication_failed, Storage.empty).
Proof. split; [|split]; vm_compute; reflexivity. Qed.

(** The same catch answers a fraction, and [true] is taken for the
    identity 1. *)
Example fraction_id_answers_500 :
  auth_post server_env calm (request fraction_id_payload) Storage.empty
  = (Ret authentication_failed, Storage.empty).
Proof. vm_compute. reflexivity. Qed.

Example true_id_is_identity_1 :
  external_identity server_env (request true_id_payload) = Some 1%Z.
Proof. vm_compute. reflexivity. Qed.

Example missing_user_rejected :
  auth_post server_env calm (request no_user_payload) Storage.empty
  = (Ret invalid_user_data, Storage.empty).
Proof. vm_compute. reflexivity. Qed.

Example broken_json_rejected :
  auth_post server_env calm (request broken_json_payload) Storage.empty
  = (Ret invalid_user_data, Storage.empty).
Proof. vm_compute. reflexivity. Qed.

Example missing_id_rejected :
  auth_post server_env calm (request no_id_payload) Storage.empty
  = (Ret invalid_user_data, Storage.empty).
Proof. vm_compute. reflexivity. Qed.

(** *** The response *)




End GatewayProps.

(** ** The gateway creates one row for an identity *)

Module Idempotence.
Import Hub Server Inv Routes RoutesFacts InvFacts.







End Idempotence.

(** ** The sessions and the hub *)

Module HubProps.
Import Hub Server Inv HubFacts InvFacts HubSamples RouteSamples.

Lemma new_sends_add_sent l (s s0 : state) :
  sent s0 = sent s -> new_sends s (add_sent l s0) = l.
Proof. intros H. unfold new_sends. cbn. rewrite H. apply drop_app_length. Qed.


(** An id of a row is at least one. *)
Lemma user_id_positive now (st : Storage.t) (u : Storage.user) :
  store_ok now st -> u ∈ Storage.users st -> (1 <= Storage.user_id u)%Z.
Proof.
  intros [Hids _ _ _] Hu. apply list_elem_of_lookup in Hu as [i Hi].
  rewrite (Hids i u Hi). lia.
Qed.

(** The value that names a row is a number other than zero. *)
Lemma row_name_truthy now (st : Storage.t) (v : value) (u : Storage.user) :
  store_ok now st -> Storage.getUserById st v = Some u -> Js.truthy v = true.
Proof.
  intros Hok Hu. apply getUserById_elem in Hu as [Hin Hn].
  pose proof (user_id_positive now st u Hok Hin) as Hpos.
  destruct v as [| | |q| | | | |]; try discriminate. cbn in *.
  apply Qeq_bool_iff in Hn. unfold Qeq in Hn. cbn in Hn.
  apply negb_true_iff, Z.eqb_neq. intros Hz. rewrite Hz in Hn. lia.
Qed.

(** C3: a [send_message] event on an open connection whose session has no
    bound user id, or a cached status other than [approved], sends one
    [error] event to that connection and does nothing else: the store
    (hence the messages) is as it was and nothing is broadcast. *)
Theorem unapproved_send_rejected e (s : state) (c : nat) (ws : session)
    (data : jsstring) (message : value) :
  session_of c s = Some ws -> readyState ws = OPEN ->
  userId ws = None \/ userStatus ws <> Some approved ->
  Json.parse data = Ret message ->
  Js.get message (js "type") = Ret (VStr (js "send_message")) ->
  let s' := step e s (Receive c data) in
  s' = add_sent [(c, error (js "Not authenticated or not approved"))] s
  /\ store s' = store s
  /\ new_sends s s' = [(c, error (js "Not authenticated or not approved"))].
Proof.
  intros Hws Hopen Hnot Hparse Htype s'.
  assert (Hs' : s' = add_sent [(c, error (js "Not authenticated or not approved"))] s).
  { unfold s'. cbn [step]. rewrite Hws, bool_decide_eq_true_2 by done.
    unfold on_message. run_prog. rewrite Hparse, Htype. cbn [dispatch].
    rewrite bool_decide_eq_false_2 by discriminate.
    rewrite bool_decide_eq_true_2 by reflexivity.
    unfold handleSendMessage. run_prog. rewrite Hws. cbn [mbind option_bind].
    assert (negb (bound (userId ws)) || negb (is_approved (userStatus ws)) = true) as ->;
      [|reflexivity].
    destruct Hnot as [->|Hst]; [reflexivity|].
    unfold is_approved. rewrite (bool_decide_eq_false_2 _ Hst). apply orb_true_r. }
  rewrite Hs'. split; [done|]. split; [done|]. by apply new_sends_add_sent.
Qed.

Lemma unapproved_send_rejected_witness :
  let s := run server_env initial opening in
  let s' := step server_env s
              (Receive 1 (jsq "{'type':'send_message','content':'hello'}")) in
  s' = add_sent [(1%nat, error (js "Not authenticated or not approved"))] s
  /\ store s' = store s
  /\ new_sends s s' = [(1%nat, error (js "Not authenticated or not approved"))].
Proof.
  apply (unapproved_send_rejected server_env (run server_env initial opening) 1
           (mkSession OPEN (Some 2%Z) (Some (js "pending")))
           (jsq "{'type':'send_message','content':'hello'}")
           (VObj [(js "type", VStr (js "send_message")); (js "content", VStr (js "hello"))])).
  - vm_compute. reflexivity.
  - reflexivity.
  - right. discriminate.
  - vm_compute. reflexivity.
  - vm_compute. reflexivity.
Defined.

(** *** The history *)






(** *** Broadcasts *)

Lemma elem_of_recipients (cs : list (nat * session)) (c : nat) :
  c ∈ recipients cs <->
  exists ws, (c, ws) ∈ cs /\ readyState ws = OPEN /\ bound (userId ws) = true
             /\ userStatus ws = Some approved.
Proof.
  unfold recipients. rewrite list_elem_of_In, in_map_iff. split.
  - intros ([c' ws] & <- & Hin). apply list_elem_of_In, list_elem_of_filter in Hin as [Hp Hin].
    cbn in Hp. apply andb_true_iff in Hp as [Hp Ha]. apply andb_true_iff in Hp as [Ho Hb].
    exists ws. split; [done|]. split; [by apply bool_decide_eq_true in Ho|].
    split; [done|]. by apply bool_decide_eq_true in Ha.
  - intros (ws & Hin & Ho & Hb & Ha). exists (c, ws). split; [done|].
    apply list_elem_of_In, list_elem_of_filter. split; [|done]. cbn.
    rewrite Hb. unfold is_approved. by rewrite !bool_decide_eq_true_2.
Qed.











End HubProps.
(** ** More on the verifier: what an entry contributes *)

Module EntryFacts.
Import Verifier VerifierSpec VerifierProps.

(** [decodeURIComponent] throws nothing but [URIError]. *)
Lemma tokens_throws (s : jsstring) (e : exn) : Uri.tokens s = Throw e -> e = URIError.
Proof.
  remember (length s) as n eqn:Hn. revert s Hn.
  induction (lt_wf n) as [n _ IH]. intros s Hn.
  destruct s as [|c r]; [discriminate|]. cbn [Uri.tokens].
  destruct (c =? 37).
  - destruct r as [|a [|b r']]; try (by intros [= <-]).
    destruct (Hex.unhex a), (Hex.unhex b); try (by intros [= <-]).
    destruct (Uri.tokens r') as [t|e'] eqn:Ht; [discriminate|].
    intros [= <-]. apply (IH (length r')) with (s := r'); [subst n; cbn; lia|done|done].
  - destruct (Uri.tokens r) as [t|e'] eqn:Ht; [discriminate|].
    intros [= <-]. apply (IH (length r)) with (s := r); [subst n; cbn; lia|done|done].
Qed.

Lemma emit_throws (o : option N) (k : outcome jsstring) (e : exn) :
  (forall e', k = Throw e' -> e' = URIError) ->
  Uri.emit o k = Throw e -> e = URIError.
Proof.
  intros Hk. destruct o as [cp|]; cbn [Uri.emit]; [|by intros [= <-]].
  destruct k as [s|e']; [discriminate|]. intros [= <-]. by apply Hk.
Qed.

Lemma assemble_throws (t : list Uri.token) (e : exn) :
  Uri.assemble t = Throw e -> e = URIError.
Proof.
  remember (length t) as n eqn:Hn. revert t e Hn.
  induction (lt_wf n) as [n _ IH]. intros t e Hn.
  assert (Hrec : forall r, (length r < n)%nat ->
                 forall e', Uri.assemble r = Throw e' -> e' = URIError)
    by (intros r Hr e'; by apply (IH (length r))).
  destruct t as [|[c|b] r]; [discriminate| |]; cbn [Uri.assemble].
  - destruct (Uri.assemble r) as [s|e'] eqn:Hr; [discriminate|].
    intros [= <-]. apply (Hrec r); [subst n; cbn; lia|done].
  - destruct (b <? 128).
    { destruct (Uri.assemble r) as [s|e'] eqn:Hr; [discriminate|].
      intros [= <-]. apply (Hrec r); [subst n; cbn; lia|done]. }
    destruct (b <? 192); [by intros [= <-]|].
    destruct (b <? 224).
    { destruct r as [|[c1|b1] r1]; try (by intros [= <-]).
      apply emit_throws, Hrec. subst n; cbn; lia. }
    destruct (b <? 240).
    { destruct r as [|[c1|b1] [|[c2|b2] r2]]; try (by intros [= <-]).
      apply emit_throws, Hrec. subst n; cbn; lia. }
    destruct (b <? 248); [|by intros [= <-]].
    destruct r as [|[c1|b1] [|[c2|b2] [|[c3|b3] r3]]]; try (by intros [= <-]).
    apply emit_throws, Hrec. subst n; cbn; lia.
Qed.

Lemma decodeURIComponent_throws (s : jsstring) (e : exn) :
  Uri.decodeURIComponent s = Throw e -> e = URIError.
Proof.
  unfold Uri.decodeURIComponent.
  destruct (Uri.tokens s) as [t|e'] eqn:Ht; cbn [bind].
  - apply assemble_throws.
  - intros [= <-]. by apply tokens_throws in Ht.
Qed.

(** A pair of the map that the loop builds was in the map before, or is
    the key and the decoded value of an entry. *)
Lemma collect_lookup (es : list jsstring) (kv kv' : gmap jsstring jsstring)
    (k d : jsstring) :
  collect (map (Str.split eq_sign) es) kv = Ret kv' ->
  kv' !! k = Some d ->
  kv !! k = Some d
  \/ exists e, e ∈ es /\ entry_key e = k
               /\ Uri.decodeURIComponent (entry_value e) = Ret d.
Proof.
  revert kv. induction es as [|e es IH]; intros kv; cbn [map].
  - intros [= <-]. by left.
  - rewrite collect_entry. case_bool_decide as Hk.
    + intros Hc Hl. destruct (IH kv Hc Hl) as [?|(e' & ? & ?)]; [by left|].
      right. exists e'. split; [by right|done].
    + destruct (Uri.decodeURIComponent (entry_value e)) as [d'|] eqn:Hd; [|discriminate].
      cbn [bind]. intros Hc Hl.
      destruct (IH _ Hc Hl) as [Hin|(e' & ? & ?)].
      * unfold obj_set in Hin. case_bool_decide; [by left|].
        destruct (decide (entry_key e = k)) as [<-|Hne].
        -- rewrite lookup_insert_eq in Hin. injection Hin as <-.
           right. exists e. split; [by left|done].
        -- rewrite lookup_insert_ne in Hin by done. by left.
      * right. exists e'. split; [by right|done].
Qed.

End EntryFacts.

Module SignatureProps.
Import Verifier VerifierSpec VerifierProps EntryFacts.

(** X1: a payload in which no entry named [hash] has a value is rejected,
    whatever else it holds: the test [!hash] takes the empty string as it
    takes a missing key. *)
Theorem unsigned_payload_rejected (s botToken : jsstring) :
  Forall (fun e => entry_key e = hash_key -> entry_value e = []) (Str.split amp s) ->
  verifyInitData (VStr s) botToken = Ret false.
Proof.
  intros Hall. unfold verifyInitData, verify_body.
  destruct (parse s) as [kv|e] eqn:Hp; cbn [bind try_catch]; [|reflexivity].
  destruct (kv !! hash_key) as [[|c hash]|] eqn:Hh; [reflexivity| |reflexivity].
  exfalso. unfold parse, parse_entries in Hp.
  destruct (collect_lookup _ _ _ _ _ Hp Hh) as [Hin|(e & Hin & Hk & Hd)];
    [by rewrite lookup_empty in Hin|].
  rewrite (proj1 (Forall_forall _ _) Hall e Hin Hk) in Hd. discriminate.
Qed.

Lemma unsigned_payload_rejected_witness :
  verifyInitData (VStr (js "auth_date=1700000000&user=x&hash=")) Samples.token = Ret false.
Proof.
  apply (unsigned_payload_rejected (js "auth_date=1700000000&user=x&hash=") Samples.token).
  by_compute.
Defined.

End SignatureProps.

Module EntryProps.
Import Verifier VerifierSpec VerifierProps EntryFacts.

(** The result depends on the payload through the map only. *)
Lemma verify_by_parse (s1 s2 botToken : jsstring) :
  parse s1 = parse s2 ->
  verifyInitData (VStr s1) botToken = verifyInitData (VStr s2) botToken.
Proof. intros H. unfold verifyInitData, verify_body. by rewrite H. Qed.

Lemma parse_join (es : list jsstring) :
  es <> [] -> Forall (fun e => amp ∉ e) es ->
  parse (Str.join [amp] es) = parse_entries es.
Proof. intros Hne Hall. unfold parse. by rewrite split_join. Qed.

(** The first two pieces of an entry that holds a second [=]. *)
Lemma entry_with_tail (k v tail : jsstring) :
  eq_sign ∉ k -> eq_sign ∉ v ->
  entry_key (k ++ eq_sign :: v ++ eq_sign :: tail) = k
  /\ entry_value (k ++ eq_sign :: v ++ eq_sign :: tail) = v
  /\ entry_key (k ++ eq_sign :: v) = k
  /\ entry_value (k ++ eq_sign :: v) = v.
Proof.
  intros Hk Hv. unfold entry_key, entry_value.
  rewrite (split_app_sep _ k (v ++ eq_sign :: tail)) by done.
  rewrite (split_app_sep _ v tail) by done.
  rewrite (split_app_sep _ k v) by done.
  rewrite (split_no_sep _ v) by done.
  repeat split; reflexivity.
Qed.

(** X2: what follows a second [=] in an entry is not read: the loop takes
    the first two pieces of [p.split('=')].  The payload with such a tail
    is verified as the payload without it. *)
Theorem tail_after_value_ignored (pre post : list jsstring) (k v tail botToken : jsstring) :
  eq_sign ∉ k -> eq_sign ∉ v ->
  Forall (fun e => amp ∉ e) (pre ++ (k ++ eq_sign :: v ++ eq_sign :: tail) :: post) ->
  let signed := Str.join [amp] (pre ++ (k ++ eq_sign :: v) :: post) in
  let extended := Str.join [amp] (pre ++ (k ++ eq_sign :: v ++ eq_sign :: tail) :: post) in
  parse extended = parse signed
  /\ verifyInitData (VStr extended) botToken = verifyInitData (VStr signed) botToken.
Proof.
  intros Hk Hv Hall signed extended.
  assert (Hp : parse extended = parse signed); [|split; [done|by apply verify_by_parse]].
  assert (Hall' : Forall (fun e => amp ∉ e) (pre ++ (k ++ eq_sign :: v) :: post)).
  { revert Hall. rewrite !Forall_app, !Forall_cons. intros (? & Hx & ?).
    split; [done|]. split; [|done]. intros Hin. apply Hx.
    rewrite elem_of_app, elem_of_cons, elem_of_app in *. 
    destruct Hin as [?|[?|?]]; auto. }
  unfold signed, extended.
  rewrite !parse_join by (done || by destruct pre).
  unfold parse_entries. rewrite !map_app, !collect_app. cbn [map].
  destruct (collect (map (Str.split eq_sign) pre) ∅) as [kv|]; [|reflexivity].
  cbn [bind]. rewrite !collect_entry.
  destruct (entry_with_tail k v tail Hk Hv) as (-> & -> & -> & ->). reflexivity.
Qed.

Lemma tail_after_value_ignored_witness :
  parse (js "a=1=junk&hash=94862e59e7f1af72f6be7625c591132626bac44e8745f8b60cbac57627822d7f")
  = parse (js "a=1&hash=94862e59e7f1af72f6be7625c591132626bac44e8745f8b60cbac57627822d7f")
  /\ verifyInitData
       (VStr (js "a=1=junk&hash=94862e59e7f1af72f6be7625c591132626bac44e8745f8b60cbac57627822d7f"))
       Samples.token
     = verifyInitData
       (VStr (js "a=1&hash=94862e59e7f1af72f6be7625c591132626bac44e8745f8b60cbac57627822d7f"))
       Samples.token.
Proof.
  apply (tail_after_value_ignored []
           [js "hash=94862e59e7f1af72f6be7625c591132626bac44e8745f8b60cbac57627822d7f"]
           (js "a") (js "1") (js "junk") Samples.token); by_compute.
Defined.

(** *** The order of the entries *)

Lemma obj_set_comm (k1 k2 d1 d2 : jsstring) (kv : gmap jsstring jsstring) :
  k1 <> k2 -> obj_set k1 d1 (obj_set k2 d2 kv) = obj_set k2 d2 (obj_set k1 d1 kv).
Proof.
  intros Hne. unfold obj_set. repeat case_bool_decide; try done.
  by apply insert_insert_ne.
Qed.

Lemma collect_perm (es1 es2 : list jsstring) :
  es1 ≡ₚ es2 -> NoDup (map entry_key es1) ->
  forall kv, collect (map (Str.split eq_sign) es1) kv
             = collect (map (Str.split eq_sign) es2) kv.
Proof.
  induction 1 as [|x l l' Hp IH|x y l|l l' l'' Hp1 IH1 Hp2 IH2]; intros Hnd kv.
  - reflexivity.
  - cbn [map] in *. apply NoDup_cons in Hnd as [_ Hnd]. rewrite !collect_entry.
    case_bool_decide; [by apply IH|].
    destruct (Uri.decodeURIComponent (entry_value x)); cbn [bind]; [by apply IH|done].
  - cbn [map] in *. apply NoDup_cons in Hnd as [Hxy _].
    assert (Hne : entry_key y <> entry_key x) by (intros Heq; apply Hxy; rewrite Heq; left).
    destruct (bool_decide (entry_key x = [])) eqn:Hx, (bool_decide (entry_key y = [])) eqn:Hy,
             (Uri.decodeURIComponent (entry_value x)) as [dx|ex] eqn:Hdx,
             (Uri.decodeURIComponent (entry_value y)) as [dy|ey] eqn:Hdy;
      repeat (rewrite collect_entry, ?Hx, ?Hy, ?Hdx, ?Hdy; cbn [bind]);
      try reflexivity.
    + by rewrite obj_set_comm.
    + apply decodeURIComponent_throws in Hdx, Hdy. by subst.
  - rewrite IH1 by done. apply IH2.
    assert (Hm : map entry_key l ≡ₚ map entry_key l') by (by apply fmap_Permutation).
    by rewrite <- Hm.
Qed.

(** X3: the entries of a payload can come in any order when no key is
    repeated: the map, hence the check string and the result, are the
    same. *)
Theorem entry_order_irrelevant (es1 es2 : list jsstring) (botToken : jsstring) :
  es1 ≡ₚ es2 -> NoDup (map entry_key es1) ->
  Forall (fun e => amp ∉ e) es1 -> es1 <> [] ->
  parse (Str.join [amp] es1) = parse (Str.join [amp] es2)
  /\ verifyInitData (VStr (Str.join [amp] es1)) botToken
     = verifyInitData (VStr (Str.join [amp] es2)) botToken.
Proof.
  intros Hp Hnd Hall Hne.
  assert (Hparse : parse (Str.join [amp] es1) = parse (Str.join [amp] es2));
    [|split; [done|by apply verify_by_parse]].
  assert (Hall2 : Forall (fun e => amp ∉ e) es2) by (by rewrite <- Hp).
  assert (Hne2 : es2 <> []).
  { intros ->. by apply Permutation_nil_r in Hp. }
  rewrite !parse_join by done. by apply collect_perm.
Qed.

Lemma entry_order_irrelevant_witness :
  parse (Str.join [amp] (rev MoreSamples.lowercase_entries))
  = parse (Str.join [amp] MoreSamples.lowercase_entries)
  /\ verifyInitData (VStr (Str.join [amp] (rev MoreSamples.lowercase_entries))) Samples.token
     = verifyInitData (VStr (Str.join [amp] MoreSamples.lowercase_entries)) Samples.token.
Proof.
  apply (entry_order_irrelevant (rev MoreSamples.lowercase_entries)
           MoreSamples.lowercase_entries Samples.token).
  - symmetry. apply Permutation_rev.
  - by_compute.
  - by_compute.
  - discriminate.
Defined.

End EntryProps.

(** ** The payload as verified and the payload as used *)

Module ParserFacts.
Import Verifier VerifierSpec VerifierProps EntryFacts.

Lemma split_nonempty (sep : N) (s : jsstring) : Str.split sep s <> [].
Proof.
  induction s as [|c s IH]; [done|]. cbn [Str.split].
  destruct (c =? sep); [done|]. by destruct (Str.split sep s).
Qed.

(** The key and the value of [querystring.parse] are those of the loop of
    [verifyInitData] when the value holds no [=]. *)
Lemma cut_split (e : jsstring) :
  eq_sign ∉ snd (Qs.cut e) ->
  entry_key e = fst (Qs.cut e) /\ entry_value e = snd (Qs.cut e).
Proof.
  unfold entry_key, entry_value.
  induction e as [|c e IH]; [done|]. cbn [Qs.cut Str.split].
  change 61 with eq_sign. destruct (N.eqb_spec c eq_sign) as [->|Hc]; cbn [fst snd].
  - intros He. by rewrite split_no_sep.
  - destruct (Qs.cut e) as [k v] eqn:Hcut. cbn [fst snd] in *.
    intros Hv. destruct (IH Hv) as [Hk Hval].
    pose proof (split_nonempty eq_sign e) as Hne.
    destruct (Str.split eq_sign e) as [|p ps]; [done|].
    cbn in Hk, Hval |- *. by subst.
Qed.

Lemma spaced_plain (s : jsstring) :
  43 ∉ s -> map (fun c => if c =? 43 then 32 else c) s = s.
Proof.
  induction s as [|c s IH]; [done|]. rewrite not_elem_of_cons. intros [Hc Hs].
  cbn [map]. rewrite IH by done. by destruct (N.eqb_spec c 43).
Qed.

Lemma has_escape_tail (c : N) (s : jsstring) :
  Qs.has_escape (c :: s) = false -> Qs.has_escape s = false.
Proof.
  cbn [Qs.has_escape]. destruct s as [|a [|b r]]; [done..|].
  intros H. by apply orb_false_iff in H as [_ H].
Qed.

Lemma has_escape_percent (s : jsstring) : 37 ∉ s -> Qs.has_escape s = false.
Proof.
  induction s as [|c s IH]; [done|]. rewrite not_elem_of_cons. intros [Hc Hs].
  cbn [Qs.has_escape]. destruct s as [|a [|b r]]; [done..|].
  rewrite (IH Hs). by destruct (N.eqb_spec c 37).
Qed.

(** A text without an escape is decoded to itself, if it is decoded at
    all. *)
Lemma tokens_plain (s : jsstring) (t : list Uri.token) :
  Qs.has_escape s = false -> Uri.tokens s = Ret t -> t = map Uri.Unit s.
Proof.
  revert t. induction s as [|c s IH]; intros t Hesc; [by intros [= <-]|].
  pose proof (has_escape_tail c s Hesc) as Hs.
  cbn [Uri.tokens]. destruct (N.eqb_spec c 37) as [->|Hc].
  - destruct s as [|a [|b r]]; [discriminate..|].
    cbn [Qs.has_escape] in Hesc. rewrite N.eqb_refl in Hesc.
    destruct (Hex.unhex a), (Hex.unhex b); discriminate.
  - destruct (Uri.tokens s) as [t'|] eqn:Ht; [|discriminate].
    intros [= <-]. cbn [map]. by rewrite (IH t').
Qed.

Lemma assemble_units (s : jsstring) : Uri.assemble (map Uri.Unit s) = Ret s.
Proof. induction s as [|c s IH]; [done|]. cbn [map Uri.assemble]. by rewrite IH. Qed.

Lemma decode_value (v d : jsstring) :
  43 ∉ v -> Uri.decodeURIComponent v = Ret d -> Qs.decode v = d.
Proof.
  intros Hplus Hd. unfold Qs.decode. rewrite spaced_plain by done.
  destruct (Qs.has_escape v) eqn:Hesc.
  - unfold Qs.unescape. by rewrite Hd.
  - unfold Uri.decodeURIComponent in Hd.
    destruct (Uri.tokens v) as [t|] eqn:Ht; [|discriminate]. cbn [bind] in Hd.
    apply tokens_plain in Ht as ->; [|done]. rewrite assemble_units in Hd. congruence.
Qed.

Lemma decode_key (k : jsstring) : 43 ∉ k -> 37 ∉ k -> Qs.decode k = k.
Proof.
  intros Hplus Hpercent. unfold Qs.decode.
  by rewrite spaced_plain, has_escape_percent.
Qed.

(** *** The object that [querystring.parse] builds *)

Lemma own_app_ne (k k' : jsstring) (x : value) (obj : list (jsstring * value)) :
  k' <> k -> Js.own k (obj ++ [(k', x)]) = Js.own k obj.
Proof.
  intros Hne. induction obj as [|[k0 v0] obj IH]; cbn [app Js.own].
  - by rewrite bool_decide_eq_false_2.
  - by rewrite IH.
Qed.

Lemma own_app_eq (k : jsstring) (x : value) (obj : list (jsstring * value)) :
  Js.own k (obj ++ [(k, x)]) = Some x.
Proof.
  induction obj as [|[k0 v0] obj IH]; cbn [app Js.own].
  - by rewrite bool_decide_eq_true_2.
  - by rewrite IH.
Qed.

Lemma own_replace_ne (k k' : jsstring) (x : value) (obj : list (jsstring * value)) :
  k' <> k -> Js.own k (Qs.replace k' x obj) = Js.own k obj.
Proof.
  intros Hne. induction obj as [|[k0 v0] obj IH]; [done|]. cbn [Qs.replace].
  case_bool_decide as H0; cbn [Js.own]; [|by rewrite IH].
  subst k0. by rewrite !bool_decide_eq_false_2.
Qed.

Lemma own_addKeyValue_ne (k k' v : jsstring) (obj : list (jsstring * value)) :
  k' <> k -> Js.own k (Qs.addKeyValue obj k' v) = Js.own k obj.
Proof.
  intros Hne. unfold Qs.addKeyValue.
  destruct (Js.own k' obj) as [[]|]; by rewrite ?own_replace_ne, ?own_app_ne.
Qed.

Lemma own_addKeyValue_new (k v : jsstring) (obj : list (jsstring * value)) :
  Js.own k obj = None -> Js.own k (Qs.addKeyValue obj k v) = Some (VStr v).
Proof. intros H. unfold Qs.addKeyValue. rewrite H. apply own_app_eq. Qed.

Lemma obj_set_lookup_ne (k k' d : jsstring) (kv : gmap jsstring jsstring) :
  k' <> k -> obj_set k' d kv !! k = kv !! k.
Proof. intros Hne. unfold obj_set. case_bool_decide; [done|]. by rewrite lookup_insert_ne. Qed.

Lemma both_loops (k : jsstring) (es : list jsstring) :
  k <> [] -> k <> proto_key -> Forall Entry.simple es ->
  forall obj kv0 kv,
    collect (map (Str.split eq_sign) es) kv0 = Ret kv ->
    Js.own k obj = VStr <$> kv0 !! k ->
    kv0 !! k = None \/ filter (fun e => entry_key e = k) es = [] ->
    (length (filter (fun e => entry_key e = k) es) <= 1)%nat ->
    Js.own k (fold_left Entry.qs_step es obj) = VStr <$> kv !! k.
Proof.
  intros Hk Hproto Hall. induction Hall as [|e es [Hplus [Hpercent Heq]] _ IH];
    intros obj kv0 kv Hc Hinv Hfree Hcount.
  - cbn in *. by injection Hc as <-.
  - cbn [map fold_left] in *. rewrite collect_entry in Hc.
    destruct (cut_split e Heq) as [Hkey Hval].
    rewrite filter_cons in Hfree, Hcount.
    assert (Hstep : Entry.qs_step obj e
                    = match e with
                      | [] => obj
                      | _ => Qs.addKeyValue obj (entry_key e) (Qs.decode (entry_value e))
                      end).
    { unfold Entry.qs_step. destruct e as [|c e]; [done|]. rewrite Hkey, Hval.
      destruct (Qs.cut (c :: e)) as [k' v'] eqn:Hcut. cbn [fst snd] in *.
      rewrite decode_key; [done| |done].
      intros Hin. apply Hplus.
      (* the key is a part of the entry *)
      clear -Hin Hcut. revert k' v' Hcut Hin.
      induction (c :: e) as [|c0 e0 IHe]; intros k' v'; cbn [Qs.cut].
      - intros [= <- <-] Hin. by apply elem_of_nil in Hin.
      - destruct (c0 =? 61); [intros [= <- <-] Hin; by apply elem_of_nil in Hin|].
        destruct (Qs.cut e0) as [k0 v0]. intros [= <- <-] Hin.
        apply elem_of_cons in Hin as [->|Hin]; [left|right]. by eapply IHe. }
    rewrite Hstep. clear Hstep.
    case_bool_decide as Hempty.
    + (* no key: skipped by the verifier, filed under the empty key by the parser *)
      rewrite decide_False in Hfree, Hcount by congruence.
      apply (IH _ kv0 kv Hc); [|done|done].
      destruct e; [done|]. rewrite own_addKeyValue_ne; [done|congruence].
    + destruct (Uri.decodeURIComponent (entry_value e)) as [d|] eqn:Hd; [|discriminate].
      cbn [bind] in Hc.
      assert (Hne : e <> []) by (intros ->; by apply Hempty).
      assert (Hstep : match e with
                      | [] => obj
                      | _ => Qs.addKeyValue obj (entry_key e) (Qs.decode (entry_value e))
                      end = Qs.addKeyValue obj (entry_key e) d).
      { destruct e; [done|]. rewrite (decode_value _ d); [done| |done].
        rewrite Hval. intros Hin. apply Hplus.
        clear -Hin. revert Hin. generalize (n :: e). intros l.
        induction l as [|c0 e0 IHe]; cbn [Qs.cut]; [done|].
        destruct (c0 =? 61); cbn [snd]; [by right|].
        destruct (Qs.cut e0) as [k0 v0]. cbn [snd] in *. intros Hin. right. by apply IHe. }
      rewrite Hstep. clear Hstep.
      destruct (decide (entry_key e = k)) as [Hsame|Hother].
      * cbn [length] in Hcount.
        destruct Hfree as [Hnone|Hnil]; [|discriminate].
        rewrite Hnone in Hinv. cbn in Hinv.
        apply (IH _ _ kv Hc).
        -- rewrite Hsame, own_addKeyValue_new by done.
           unfold obj_set. rewrite bool_decide_eq_false_2 by done.
           by rewrite lookup_insert_eq.
        -- right. destruct (filter _ es); [done|cbn in Hcount; lia].
        -- lia.
      * apply (IH _ _ kv Hc).
        -- by rewrite own_addKeyValue_ne, obj_set_lookup_ne.
        -- by rewrite obj_set_lookup_ne.
        -- done.
Qed.

End ParserFacts.

Module ParserProps.
Import Verifier VerifierSpec ParserFacts.

(** X4: what is verified is what is used: on a payload of at most 1000 simple
    entries, a key that is not repeated has in the object of
    [parseInitData] the value, as a string, that it has in the map of
    [verifyInitData], and is missing from both or from none. *)
Theorem parsers_agree (s k : jsstring) (kv : gmap jsstring jsstring) :
  parse s = Ret kv ->
  Forall Entry.simple (Str.split amp s) ->
  (length (Str.split amp s) <= 1000)%nat ->
  (length (filter (fun e => entry_key e = k) (Str.split amp s)) <= 1)%nat ->
  k <> [] -> k <> proto_key ->
  Js.own k (Routes.parseInitData (VStr s)) = VStr <$> kv !! k.
Proof.
  intros Hp Hall Hlen Hcount Hk Hproto. cbn [Routes.parseInitData]. unfold Qs.parse.
  change 38 with amp. rewrite firstn_all2 by done.
  change (fold_left _ (Str.split amp s) []) with (fold_left Entry.qs_step (Str.split amp s) []).
  apply (both_loops k _ Hk Hproto Hall [] ∅ kv Hp); [done|by left|done].
Qed.

Lemma parsers_agree_witness :
  Js.own (js "user") (Routes.parseInitData (VStr Samples.alice_payload))
  = VStr <$> MoreSamples.alice_map !! js "user".
Proof.
  apply (parsers_agree Samples.alice_payload (js "user") MoreSamples.alice_map).
  - vm_compute. reflexivity.
  - by_compute.
  - by_compute.
  - by_compute.
  - discriminate.
  - discriminate.
Defined.

End ParserProps.

(** ** A repeated [user] entry *)

Module RepeatFacts.
Import ParserFacts.

Lemma own_none (k : jsstring) (obj : list (jsstring * value)) :
  Js.own k obj = None <-> k ∉ map fst obj.
Proof.
  induction obj as [|[k0 v0] obj IH]; cbn [Js.own map fst].
  - split; [intros _; apply not_elem_of_nil|done].
  - rewrite not_elem_of_cons, <- IH. destruct (Js.own k obj).
    + split; [done|]. by intros [_ ?].
    + case_bool_decide; split; try done; intros [? _]; congruence.
Qed.

Lemma replace_keys (k : jsstring) (x : value) (obj : list (jsstring * value)) :
  map fst (Qs.replace k x obj) = map fst obj.
Proof.
  induction obj as [|[k0 v0] obj IH]; [done|]. cbn [Qs.replace].
  case_bool_decide; cbn [map fst]; [done|]. by rewrite IH.
Qed.

Lemma own_replace (k : jsstring) (x : value) (obj : list (jsstring * value)) :
  NoDup (map fst obj) -> Js.own k obj <> None ->
  Js.own k (Qs.replace k x obj) = Some x.
Proof.
  induction obj as [|[k0 v0] obj IH]; [done|]. cbn [map fst].
  intros Hnd Hown. apply NoDup_cons in Hnd as [Hk0 Hnd]. cbn [Qs.replace].
  case_bool_decide as Hk; cbn [Js.own].
  - subst k0. apply own_none in Hk0. rewrite Hk0.
    by rewrite bool_decide_eq_true_2.
  - cbn [Js.own] in Hown. rewrite bool_decide_eq_false_2 in Hown by done.
    rewrite IH; [done|done|]. by destruct (Js.own k obj).
Qed.

Lemma addKeyValue_keys (k v : jsstring) (obj : list (jsstring * value)) :
  NoDup (map fst obj) -> NoDup (map fst (Qs.addKeyValue obj k v)).
Proof.
  intros Hnd. unfold Qs.addKeyValue.
  destruct (Js.own k obj) as [cur|] eqn:Hown.
  - by destruct cur; rewrite replace_keys.
  - rewrite map_app. cbn [map fst]. apply NoDup_app. split; [done|].
    split; [|apply NoDup_singleton].
    intros k' Hin Hk'. apply list_elem_of_singleton in Hk' as ->.
    by apply own_none in Hown.
Qed.

Lemma addKeyValue_present (k v : jsstring) (obj : list (jsstring * value)) :
  Js.own k (Qs.addKeyValue obj k v) <> None.
Proof.
  unfold Qs.addKeyValue. destruct (Js.own k obj) as [cur|] eqn:Hown.
  - assert (Hk : k ∈ map fst obj).
    { destruct (decide (k ∈ map fst obj)) as [|Hn]; [done|].
      apply own_none in Hn. congruence. }
    destruct cur; (intros Hn; apply own_none in Hn; apply Hn; by rewrite replace_keys).
  - by rewrite own_app_eq.
Qed.

Lemma addKeyValue_again (k v : jsstring) (obj : list (jsstring * value)) :
  NoDup (map fst obj) -> Js.own k obj <> None ->
  Entry.is_array (Js.own k (Qs.addKeyValue obj k v)).
Proof.
  intros Hnd Hown. unfold Qs.addKeyValue.
  destruct (Js.own k obj) as [cur|] eqn:Hcur; [|done].
  assert (Hpresent : Js.own k obj <> None) by congruence.
  destruct cur; rewrite own_replace by done; by eexists.
Qed.

Lemma qs_step_keys (obj : list (jsstring * value)) (e : jsstring) :
  NoDup (map fst obj) -> NoDup (map fst (Entry.qs_step obj e)).
Proof.
  intros Hnd. unfold Entry.qs_step. destruct e as [|c e]; [done|].
  destruct (Qs.cut (c :: e)). by apply addKeyValue_keys.
Qed.

Lemma qs_step_key (obj : list (jsstring * value)) (e : jsstring) :
  Entry.qs_step obj e
  = match e with
    | [] => obj
    | _ => Qs.addKeyValue obj (Entry.qs_key e) (Qs.decode (snd (Qs.cut e)))
    end.
Proof.
  unfold Entry.qs_step, Entry.qs_key. destruct e as [|c e]; [done|].
  by destruct (Qs.cut (c :: e)).
Qed.

Lemma repeated_key_is_array (k : jsstring) (es : list jsstring) :
  k <> [] ->
  forall obj, NoDup (map fst obj) ->
    let n := length (filter (fun e => Entry.qs_key e = k) es) in
    (2 <= n)%nat \/ ((1 <= n)%nat /\ Js.own k obj <> None) \/ Entry.is_array (Js.own k obj) ->
    Entry.is_array (Js.own k (fold_left Entry.qs_step es obj)).
Proof.
  intros Hk. induction es as [|e es IH]; intros obj Hnd n Hn.
  - unfold n in Hn. cbn in Hn. destruct Hn as [?|[[? _]|?]]; [lia|lia|done].
  - cbn [fold_left]. unfold n in Hn. rewrite filter_cons in Hn.
    apply IH; [by apply qs_step_keys|]. rewrite qs_step_key.
    destruct (decide (Entry.qs_key e = k)) as [Hsame|Hother].
    + cbn [length] in Hn.
      assert (He : e <> []) by (intros ->; by apply Hk).
      destruct e as [|c e]; [done|]. rewrite Hsame.
      destruct Hn as [Hn|[[_ Hown]|Harr]].
      * right; left. split; [lia|]. apply addKeyValue_present.
      * right; right. by apply addKeyValue_again.
      * right; right. apply addKeyValue_again; [done|].
        destruct Harr as [l ->]. done.
    + destruct e as [|c e]; [done|]. by rewrite own_addKeyValue_ne.
Qed.

End RepeatFacts.

Module RepeatProps.
Import Routes RoutesFacts GatewayProps RepeatFacts.

(** X5: a payload that names [user] twice among its first 1000 entries never
    logs anyone in: [querystring.parse] files the two values as an array,
    the test [typeof parsed.user === 'string'] fails, and the handler
    answers with an error and leaves the store as it was.  When the
    payload is validly signed (the verifier reads the last of the two
    entries) the answer is 400. *)
Theorem repeated_user_refused (e : env) (a : ambient) (st : Storage.t) (s : jsstring) :
  (2 <= length (filter (fun en => Entry.qs_key en = js "user")
                       (take 1000 (Str.split Verifier.amp s))))%nat ->
  (exists r, auth_post e a (request s) st = (Ret r, st) /\ status_code r <> 200)
  /\ (bot_token e <> [] ->
      Verifier.verifyInitData (VStr s) (bot_token e) = Ret true ->
      auth_post e a (request s) st = (Ret invalid_user_data, st)).
Proof.
  intros Hn.
  assert (Hdata : user_data (Qs.parse s) = VNull).
  { unfold user_data, Qs.parse.
    change (fold_left _ (take 1000 (Str.split 38 s)) [])
      with (fold_left Entry.qs_step (take 1000 (Str.split Verifier.amp s)) []).
    destruct (repeated_key_is_array (js "user") (take 1000 (Str.split Verifier.amp s)))
      with (obj := @nil (jsstring * value)) as [l ->]; [done|apply NoDup_nil_2|by left|done]. }
  assert (Hid : external_identity e (request s) = None).
  { unfold external_identity, identify.
    assert (Js.get (request s) (js "initData") = Ret (VStr s)) as -> by reflexivity.
    cbn [bind parseInitData]. rewrite Hdata.
    destruct (negb (Js.truthy (VStr s))); [done|].
    case_bool_decide; [done|].
    by destruct (Verifier.verifyInitData (VStr s) (bot_token e)) as [[]|]. }
  split.
  - destruct (auth_post_effect e a (request s) st)
      as (r & st' & Hr & [(-> & _ & msg & _ & Hcode)|[(tgId & u & Hsome & _)|(tgId & n & u & Hsome & _)]]);
      [by exists r|congruence..].
  - intros Htok Hv. apply auth_post_refused.
    rewrite identify_verified by done. by rewrite Hdata.
Qed.

Lemma repeated_user_refused_witness :
  auth_post RouteSamples.server_env RouteSamples.calm
    (request MoreSamples.repeated_user_payload) Storage.empty
  = (Ret invalid_user_data, Storage.empty).
Proof.
  apply (repeated_user_refused RouteSamples.server_env RouteSamples.calm Storage.empty
           MoreSamples.repeated_user_payload).
  - by_compute.
  - discriminate.
  - vm_compute. reflexivity.
Defined.

End RepeatProps.

(** ** The check string does not tell a field from a line of a value *)

Module CheckStringFacts.
Import Verifier VerifierSpec VerifierFacts.

Lemma join_cons (sep x : jsstring) (l : list jsstring) :
  l <> [] -> Str.join sep (x :: l) = x ++ sep ++ Str.join sep l.
Proof. by destruct l. Qed.

Lemma str_le_refl (a : jsstring) : Str.le a a.
Proof. by destruct (total Str.le a a). Qed.

Lemma str_le_antisym (a b : jsstring) : Str.le a b -> Str.le b a -> a = b.
Proof. intros H1 H2. by apply (anti_symm Str.le). Qed.

(** In a sorted list in which [k2] comes right after [k1], rendering [k1]
    as the two lines of [k1] and [k2] and dropping [k2] gives the same
    text. *)
Lemma join_merged (f g : jsstring -> jsstring) (k1 k2 : jsstring) (l : list jsstring) :
  StronglySorted Str.le l -> NoDup l -> k1 ∈ l -> k2 ∈ l ->
  Str.le k1 k2 -> k1 <> k2 ->
  (forall k, k ∈ l -> Str.le k k1 \/ Str.le k2 k) ->
  g k1 = f k1 ++ [newline] ++ f k2 ->
  (forall k, k <> k1 -> k <> k2 -> g k = f k) ->
  Str.join [newline] (map f l)
  = Str.join [newline] (map g (filter (fun k => k <> k2) l)).
Proof.
  intros Hsorted Hnd H1 H2 Hle Hne Hadj Hg1 Hg.
  induction l as [|a l IH]; [by apply elem_of_nil in H1|].
  apply StronglySorted_inv in Hsorted as [Hsorted Hmin].
  apply NoDup_cons in Hnd as [Ha Hnd].
  assert (Hmin' : forall k, k ∈ l -> Str.le a k)
    by (intros k Hk; exact (proj1 (Forall_forall _ _) Hmin k Hk)).
  destruct (decide (a = k1)) as [->|Hak1].
  - (* the next key is [k2] *)
    apply elem_of_cons in H2 as [?|H2]; [congruence|].
    destruct l as [|b l]; [by apply elem_of_nil in H2|].
    assert (b = k2) as ->.
    { apply StronglySorted_inv in Hsorted as [_ Hb].
      apply elem_of_cons in H2 as [?|H2]; [done|].
      apply str_le_antisym; [exact (proj1 (Forall_forall _ _) Hb k2 H2)|].
      destruct (Hadj b) as [Hb1|Hb2]; [right; left|..|done].
      exfalso. apply Ha. rewrite (str_le_antisym b k1); [left|done|].
      apply Hmin'. left. }
    apply NoDup_cons in Hnd as [Hk2 Hnd].
    rewrite !filter_cons, decide_True, decide_False by (done || tauto).
    assert (Hrest : filter (fun k => k <> k2) l = l).
    { clear -Hk2. induction l as [|c l IH]; [done|].
      apply not_elem_of_cons in Hk2 as [Hc Hl].
      rewrite filter_cons, decide_True by congruence. by rewrite IH. }
    assert (Hmap : map g l = map f l).
    { apply map_ext_in. intros k Hk. apply list_elem_of_In in Hk.
      apply Hg; intros ->; [apply Ha; by right|done]. }
    rewrite Hrest. cbn [map]. rewrite Hmap, Hg1.
    destruct l as [|c l]; [done|].
    rewrite !join_cons by done. by rewrite <- !app_assoc.
  - assert (Hak2 : a <> k2).
    { intros ->. apply elem_of_cons in H1 as [?|H1]; [congruence|].
      apply Hne, str_le_antisym; [done|]. by apply Hmin'. }
    apply elem_of_cons in H1 as [?|H1]; [congruence|].
    apply elem_of_cons in H2 as [?|H2]; [congruence|].
    rewrite filter_cons, decide_True by done. cbn [map].
    rewrite (Hg a) by done.
    assert (Hfilter : k1 ∈ filter (fun k => k <> k2) l)
      by (by apply list_elem_of_filter).
    rewrite !join_cons.
    + f_equal. f_equal. apply IH; try done. intros k Hk. apply Hadj. by right.
    + intros Hnil. apply (f_equal (map g)) in Hnil. cbn in Hnil.
      destruct (filter (fun k => k <> k2) l); [by apply elem_of_nil in Hfilter|done].
    + intros Hnil. destruct l; [by apply elem_of_nil in H1|done].
Qed.

Lemma StronglySorted_filter {A} (R : relation A) (P : A -> Prop)
    `{forall x, Decision (P x)} (l : list A) :
  StronglySorted R l -> StronglySorted R (filter P l).
Proof.
  induction 1 as [|a l Hs IH Hall]; [constructor|].
  rewrite filter_cons. case_decide; [|done]. constructor; [done|].
  apply Forall_forall. intros x Hx. apply list_elem_of_filter in Hx as [_ Hx].
  exact (proj1 (Forall_forall _ _) Hall x Hx).
Qed.

End CheckStringFacts.

Module CheckStringProps.
Import Verifier VerifierSpec VerifierFacts CheckStringFacts.

(** X6: the check string is made by joining [key=value] lines with newlines,
    and a newline inside a value is written as it is.  So a value that
    ends with a line [k2=v2] is signed as the field [k2] would be: when
    [k2] would come right after [k1] among the sorted keys, the map in
    which [k1] holds [v1], a newline and [k2=v2] has the check string, and
    hence the digest, of the map in which [k1] holds [v1] and [k2] holds
    [v2], and two payloads that parse to the two maps are verified
    alike. *)
Theorem field_or_line_same_signature (kv : gmap jsstring jsstring)
    (k1 k2 v1 v2 botToken : jsstring) :
  kv !! k1 = None -> kv !! k2 = None ->
  k1 <> hash_key -> k2 <> hash_key -> Str.le k1 k2 -> k1 <> k2 ->
  (forall k, is_Some (kv !! k) -> k <> hash_key -> Str.le k k1 \/ Str.le k2 k) ->
  let fields := <[k1 := v1]> (<[k2 := v2]> kv) in
  let lines := <[k1 := v1 ++ [newline] ++ k2 ++ [eq_sign] ++ v2]> kv in
  data_check_string lines = data_check_string fields
  /\ (forall s1 s2,
        parse s1 = Ret lines -> parse s2 = Ret fields ->
        verifyInitData (VStr s1) botToken = verifyInitData (VStr s2) botToken).
Proof.
  intros Hk1 Hk2 Hh1 Hh2 Hle Hne Hadj fields lines.
  assert (Hcs : data_check_string lines = data_check_string fields).
  { symmetry. apply check_string_unique.
    exists (filter (fun k => k <> k2) (sorted_keys fields)).
    split; [apply NoDup_filter, NoDup_sorted_keys|]. split; [|split].
    - intros k. rewrite list_elem_of_filter, elem_of_sorted_keys.
      unfold fields, lines.
      destruct (decide (k = k1)) as [->|Hkk1].
      + rewrite !lookup_insert_eq. split; [intros [_ [_ ?]]|intros [_ ?]]; eauto.
      + rewrite !(lookup_insert_ne _ k1) by done.
        destruct (decide (k = k2)) as [->|Hkk2].
        * rewrite Hk2. split; [tauto|]. intros [[? [=]] _].
        * rewrite lookup_insert_ne by done. tauto.
    - apply StronglySorted_Sorted, StronglySorted_filter.
      apply Sorted_StronglySorted; [apply _|apply Sorted_sorted_keys].
    - unfold data_check_string.
      apply (join_merged (fun k => k ++ [eq_sign] ++ fields !!! k)
               (fun k => k ++ [eq_sign] ++ default [] (lines !! k)) k1 k2).
      + apply Sorted_StronglySorted; [apply _|apply Sorted_sorted_keys].
      + apply NoDup_sorted_keys.
      + apply elem_of_sorted_keys. unfold fields. rewrite lookup_insert_eq. eauto.
      + apply elem_of_sorted_keys. unfold fields.
        rewrite lookup_insert_ne, lookup_insert_eq by done. eauto.
      + done.
      + done.
      + intros k Hk. apply elem_of_sorted_keys in Hk as [Hsome Hkh]. unfold fields in Hsome.
        destruct (decide (k = k1)) as [->|Hkk1]; [left; apply str_le_refl|].
        destruct (decide (k = k2)) as [->|Hkk2]; [right; apply str_le_refl|].
        rewrite !lookup_insert_ne in Hsome by done. by apply Hadj.
      + unfold fields, lines. rewrite lookup_insert_eq, lookup_total_insert_eq.
        rewrite lookup_total_insert_ne, lookup_total_insert_eq by done.
        cbn [default from_option id]. by rewrite <- !app_assoc.
      + intros k Hkk1 Hkk2. unfold fields, lines.
        rewrite lookup_insert_ne, !lookup_total_insert_ne by done. reflexivity. }
  split; [done|].
  intros s1 s2 Hp1 Hp2. unfold verifyInitData, verify_body. rewrite Hp1, Hp2. cbn [bind].
  assert (Hhash : lines !! hash_key = fields !! hash_key).
  { unfold fields, lines. by rewrite !lookup_insert_ne. }
  rewrite Hhash. unfold hmac_hex. by rewrite Hcs.
Qed.

Lemma field_or_line_same_signature_witness :
  verifyInitData (VStr MoreSamples.two_lines_payload) Samples.token
  = verifyInitData (VStr MoreSamples.two_fields_payload) Samples.token.
Proof.
  apply (field_or_line_same_signature
           {[hash_key := js "08a01dc99fffbd96c8052b70828f580cde8658066c192b21f35d729558ba01d3"]}
           (js "a") (js "b") (js "1") (js "2") Samples.token).
  - by_compute.
  - by_compute.
  - discriminate.
  - discriminate.
  - by_compute.
  - discriminate.
  - intros k [v Hv] Hk. apply lookup_singleton_Some in Hv as [Hv _]. congruence.
  - vm_compute. reflexivity.
  - vm_compute. reflexivity.
Defined.

Example two_lines_accepted :
  verifyInitData (VStr MoreSamples.two_lines_payload) Samples.token = Ret true.
Proof. vm_compute. reflexivity. Qed.

End CheckStringProps.

(** ** More on the auth gateway *)

Module GatewayFacts.
Import Routes RoutesFacts.

Ltac Zify.zify_post_hook ::= Z.to_euclidean_division_equations.



(** The status codes with which the handler refuses. *)
Lemma identify_refusal (e : env) (req_body : value) (r : response) :
  identify e req_body = Ret (inl r) ->
  r = mkResponse 400 (error_body (js "initData required"))
  \/ r = mkResponse 500 (error_body (js "Bot token not configured"))
  \/ r = mkResponse 401 (error_body (js "Invalid initData"))
  \/ r = invalid_user_data.
Proof.
  unfold identify, bind, refuse.
  destruct (Js.get req_body _) as [initData|]; [|discriminate].
  destruct (negb (Js.truthy initData)); [intros [= <-]; auto|].
  case_bool_decide; [intros [= <-]; auto|].
  destruct (Verifier.verifyInitData initData _) as [[]|]; cbn [negb];
    [|intros [= <-]; auto|discriminate].
  destruct (negb (Js.truthy (user_data _))); [intros [= <-]; auto|].
  destruct (Js.get (user_data _) _) as [id|]; [|discriminate].
  destruct (negb (Js.truthy id)); [intros [= <-]; auto|].
  destruct (Js.BigInt id); discriminate.
Qed.

End GatewayFacts.

Module LoginProps.
Import Routes RoutesFacts GatewayProps GatewayFacts.



(** X8: what a request does to the store: the handler always answers, with
    200, 400, 401 or 500; unless it answers 200 the store is as it was;
    and when the store changes, one row was added for an external identity
    that had none, with the status [pending] and the pseudonym drawn, the
    rows and the messages that were there being as they were. *)
Theorem login_adds_one_pending_row (e : env) (a : ambient) (req_body : value)
    (st : Storage.t) :
  exists r st',
    auth_post e a req_body st = (Ret r, st')
    /\ (status_code r = 200 \/ status_code r = 400
        \/ status_code r = 401 \/ status_code r = 500)
    /\ (status_code r <> 200 -> st' = st)
    /\ (st' = st
        \/ exists u,
             st' = Storage.mk (Storage.users st ++ [u]) (Storage.messages st)
                              (Storage.global_room st)
             /\ status_code r = 200
             /\ external_identity e req_body = Some (Storage.user_tgId u)
             /\ Storage.getUserByTgId st (Storage.user_tgId u) = None
             /\ Storage.user_status u = js "pending"
             /\ Storage.user_anonName u = generateAnonName a
             /\ Storage.user_createdAt u = now a).
Proof.
  destruct (identify e req_body) as [[r|[tgId userData]]|err] eqn:Hid.
  - exists r, st. split; [by apply auth_post_refused|].
    apply identify_refusal in Hid.
    destruct Hid as [-> | [-> | [-> | ->]]]; cbn; (split; [auto|]); split; auto.
  - destruct (auth_post_effect e a req_body st)
      as (r & st' & Hr & [(_ & Hnone & _)|[(t & u & Hsome & Hfound & Hst & Hbody)
                                          |(t & n & u & Hsome & Hnone & Hc & Hbody)]]).
    + unfold external_identity in Hnone. by rewrite Hid in Hnone.
    + subst. exists (mkResponse 200 (success_body u)), st. cbn. auto.
    + subst r. exists (mkResponse 200 (success_body u)), st'. split; [done|]. cbn.
      split; [auto|]. split; [done|]. right. exists u.
      unfold Storage.createUser in Hc. injection Hc as <- <-. cbn.
      repeat split; done.
  - exists authentication_failed, st. split; [by apply (auth_post_thrown _ _ _ _ err)|].
    cbn. split; [auto|]. split; auto.
Qed.

(** X9: a payload that is not a string is answered with 401: the call
    [initData.split] throws inside [verifyInitData], which returns
    [false]. *)
Theorem non_string_payload_unauthorized (e : env) (a : ambient) (st : Storage.t)
    (props : list (jsstring * value)) (initData : value) :
  bot_token e <> [] ->
  Js.own (js "initData") props = Some initData ->
  Js.truthy initData = true -> (forall s, initData <> VStr s) ->
  auth_post e a (VObj props) st
  = (Ret (mkResponse 401 (error_body (js "Invalid initData"))), st).
Proof.
  intros Htok Hown Htruthy Hnot. apply auth_post_refused.
  unfold identify. cbn [Js.get]. rewrite Hown. cbn [default from_option id bind].
  rewrite Htruthy. cbn [negb]. rewrite bool_decide_eq_false_2 by done.
  destruct initData; try reflexivity. by destruct (Hnot s).
Qed.

Lemma non_string_payload_unauthorized_witness :
  auth_post RouteSamples.server_env RouteSamples.calm
    (VObj [(js "initData", VArr [VStr Samples.alice_payload])]) Storage.empty
  = (Ret (mkResponse 401 (error_body (js "Invalid initData"))), Storage.empty).
Proof.
  apply (non_string_payload_unauthorized RouteSamples.server_env RouteSamples.calm
           Storage.empty [(js "initData", VArr [VStr Samples.alice_payload])]
           (VArr [VStr Samples.alice_payload])).
  - discriminate.
  - reflexivity.
  - reflexivity.
  - discriminate.
Defined.

(** X10: without a secret nobody logs in: when neither variable of the
    environment holds a non-empty text, every request is answered with
    400 or 500 and the store is left as it was; a request that carries a
    payload is answered 500 before the payload is looked at. *)
Theorem no_secret_no_login (e : env) (a : ambient) (st : Storage.t) (req_body : value) :
  (TELEGRAM_BOT_TOKEN e = None \/ TELEGRAM_BOT_TOKEN e = Some []) ->
  (BOT_TOKEN e = None \/ BOT_TOKEN e = Some []) ->
  (exists r, auth_post e a req_body st = (Ret r, st)
             /\ (status_code r = 400 \/ status_code r = 500))
  /\ (forall initData,
        Js.get req_body (js "initData") = Ret initData -> Js.truthy initData = true ->
        auth_post e a req_body st
        = (Ret (mkResponse 500 (error_body (js "Bot token not configured"))), st)).
Proof.
  intros H1 H2.
  assert (Htok : bot_token e = []).
  { unfold bot_token. by destruct H1 as [-> | ->], H2 as [-> | ->]. }
  split.
  - destruct (identify e req_body) as [[r|[tgId userData]]|err] eqn:Hid.
    + exists r. split; [by apply auth_post_refused|].
      revert Hid. unfold identify, bind, refuse.
      destruct (Js.get req_body _) as [initData|]; [|discriminate].
      destruct (negb (Js.truthy initData)); [intros [= <-]; auto|].
      rewrite bool_decide_eq_true_2 by done. intros [= <-]; auto.
    + exfalso. revert Hid. unfold identify, bind, refuse.
      destruct (Js.get req_body _) as [initData|]; [|discriminate].
      destruct (negb (Js.truthy initData)); [discriminate|].
      by rewrite bool_decide_eq_true_2.
    + exists authentication_failed. split; [by apply (auth_post_thrown _ _ _ _ err)|auto].
  - intros initData Hget Htruthy. apply auth_post_refused.
    unfold identify. rewrite Hget. cbn [bind]. rewrite Htruthy. cbn [negb].
    by rewrite bool_decide_eq_true_2.
Qed.

Lemma no_secret_no_login_witness :
  auth_post (mkEnv (Some []) None) RouteSamples.calm
    (request Samples.alice_payload) Storage.empty
  = (Ret (mkResponse 500 (error_body (js "Bot token not configured"))), Storage.empty).
Proof.
  apply (proj2 (no_secret_no_login (mkEnv (Some []) None) RouteSamples.calm Storage.empty
                  (request Samples.alice_payload) (or_intror eq_refl) (or_introl eq_refl))
           (VStr Samples.alice_payload)); reflexivity.
Defined.

End LoginProps.

(** ** More on the sessions *)

Module SessionFacts.
Import Hub Server HubFacts HubProps.

Lemma session_of_elem (c : nat) (s : state) (ws : session) :
  session_of c s = Some ws -> (c, ws) ∈ clients s.
Proof.
  unfold session_of. destruct (find _ (clients s)) as [[c' ws']|] eqn:Hf; [|done].
  intros [= <-]. apply InvFacts.find_some_elem in Hf as [Hin Hc].
  apply bool_decide_eq_true in Hc. cbn in Hc. by subst.
Qed.

Lemma session_of_map_session (c : nat) (f : session -> session) (s : state) :
  session_of c (map_session c f s) = f <$> session_of c s.
Proof.
  unfold session_of, map_session. cbn [clients].
  induction (clients s) as [|[c' ws'] l IH]; [done|]. cbn [map find fst snd].
  destruct (decide (c' = c)) as [->|Hne].
  - repeat (rewrite (bool_decide_eq_true_2 (c = c)) by done; cbn [fst snd]). done.
  - repeat (rewrite (bool_decide_eq_false_2 (c' = c)) by done; cbn [fst snd]). done.
Qed.

(** The arrival of a text on an open connection is the run of
    [on_message]. *)
Lemma step_receive e (s : state) (c : nat) (ws : session) (data : jsstring) :
  session_of c s = Some ws -> readyState ws = OPEN ->
  step e s (Receive c data) = snd (on_message c data s).
Proof. intros Hws Hopen. cbn [step]. by rewrite Hws, bool_decide_eq_true_2. Qed.

(** Up to the handler: a text that is the JSON of a message of a known
    type. *)
Lemma on_message_typed (c : nat) (data : jsstring) (message : value) (t : jsstring)
    (s : state) :
  Json.parse data = Ret message -> Js.get message (js "type") = Ret (VStr t) ->
  on_message c data s
  = Prog.try_catch (dispatch c message (VStr t))
      (fun _ => send c (error (js "Invalid message format"))) s.
Proof.
  intros Hp Ht. unfold on_message. run_prog. by rewrite Hp, Ht.
Qed.

(** A value with a [type] is an object, and reading another of its
    properties does not throw. *)
Lemma typed_is_object (message : value) (t : jsstring) :
  Js.get message (js "type") = Ret (VStr t) -> exists props, message = VObj props.
Proof. destruct message; try discriminate. by eexists. Qed.

End SessionFacts.

Module SessionProps.
Import Hub Server HubFacts HubProps SessionFacts.



(** X14: a text that is not JSON, or is the JSON of [null], is answered with
    the error [Invalid message format]; the JSON of anything whose [type]
    is not one of the three known is answered with [Unknown message type].
    In both cases nothing else happens: the store and the sessions are as
    they were. *)
Theorem unroutable_text_refused e (s : state) (c : nat) (ws : session) (data : jsstring) :
  session_of c s = Some ws -> readyState ws = OPEN ->
  let s' := step e s (Receive c data) in
  ((exists err, Json.parse data = Throw err) \/ Json.parse data = Ret VNull ->
   s' = add_sent [(c, error (js "Invalid message format"))] s)
  /\ (forall message type,
        Json.parse data = Ret message -> Js.get message (js "type") = Ret type ->
        type <> VStr (js "auth") -> type <> VStr (js "send_message") ->
        type <> VStr (js "join_room") ->
        s' = add_sent [(c, error (js "Unknown message type"))] s).
Proof.
  intros Hws Hopen s'. unfold s'. rewrite (step_receive e s c ws) by done.
  unfold on_message. run_prog. split.
  - intros [[err ->]| ->]; reflexivity.
  - intros message type -> -> H1 H2 H3. unfold dispatch.
    destruct type as [| | | |t| | | |]; try reflexivity.
    rewrite !bool_decide_eq_false_2 by congruence. reflexivity.
Qed.

Lemma unroutable_text_refused_witness :
  let s := run RouteSamples.server_env initial HubSamples.opening in
  step RouteSamples.server_env s (Receive 0 (js "null"))
  = add_sent [(0%nat, error (js "Invalid message format"))] s
  /\ step RouteSamples.server_env s (Receive 0 (jsq "{'type':'leave'}"))
     = add_sent [(0%nat, error (js "Unknown message type"))] s.
Proof.
  intros s.
  destruct (unroutable_text_refused RouteSamples.server_env s 0
              (mkSession OPEN (Some 1%Z) (Some approved)) (js "null")) as [H1 _].
  { vm_compute. reflexivity. }
  { reflexivity. }
  destruct (unroutable_text_refused RouteSamples.server_env s 0
              (mkSession OPEN (Some 1%Z) (Some approved)) (jsq "{'type':'leave'}"))
    as [_ H2].
  { vm_compute. reflexivity. }
  { reflexivity. }
  split.
  - apply H1. right. vm_compute. reflexivity.
  - apply (H2 (VObj [(js "type", VStr (js "leave"))]) (VStr (js "leave"))).
    + vm_compute. reflexivity.
    + vm_compute. reflexivity.
    + discriminate.
    + discriminate.
    + discriminate.
Defined.

(** X15: an [auth] event without a user id, or with an id that names no row,
    is answered with an [auth_error] and changes nothing: the session
    keeps the user and the status it was bound to. *)
Theorem failed_auth_keeps_session e (s : state) (c : nat) (ws : session)
    (data : jsstring) (message v : value) :
  session_of c s = Some ws -> readyState ws = OPEN ->
  Json.parse data = Ret message ->
  Js.get message (js "type") = Ret (VStr (js "auth")) ->
  Js.get message (js "userId") = Ret v ->
  let s' := step e s (Receive c data) in
  (Js.truthy v = false -> s' = add_sent [(c, auth_error (js "User ID required"))] s)
  /\ (Js.truthy v = true -> Storage.getUserById (store s) v = None ->
      s' = add_sent [(c, auth_error (js "User not found"))] s).
Proof.
  intros Hws Hopen Hparse Htype Hv s'. unfold s'.
  rewrite (step_receive e s c ws), (on_message_typed c data message (js "auth")) by done.
  cbn [dispatch]. rewrite bool_decide_eq_true_2 by reflexivity.
  unfold handleAuth. run_prog. rewrite Hv. split.
  - intros ->. reflexivity.
  - intros Ht Hu. rewrite Ht. cbn [negb]. rewrite Hu. reflexivity.
Qed.

Lemma failed_auth_keeps_session_witness :
  let s := run RouteSamples.server_env initial HubSamples.opening in
  step RouteSamples.server_env s (Receive 0 (jsq "{'type':'auth','userId':7}"))
  = add_sent [(0%nat, auth_error (js "User not found"))] s.
Proof.
  intros s.
  destruct (failed_auth_keeps_session RouteSamples.server_env s 0
              (mkSession OPEN (Some 1%Z) (Some approved))
              (jsq "{'type':'auth','userId':7}")
              (VObj [(js "type", VStr (js "auth")); (js "userId", VNum 7)]) (VNum 7))
    as [_ H].
  { vm_compute. reflexivity. }
  { reflexivity. }
  { vm_compute. reflexivity. }
  { vm_compute. reflexivity. }
  { vm_compute. reflexivity. }
  apply H.
  - reflexivity.
  - vm_compute. reflexivity.
Defined.

(** X16: an [auth] event that names a row whose status is not [approved] binds
    the session to that row all the same, in place of what it was bound
    to: the connection is answered with an [auth_error], and it is no
    longer among the recipients of a broadcast. *)
Theorem unapproved_auth_rebinds e (s : state) (c : nat) (ws : session)
    (data : jsstring) (message v : value) (u : Storage.user) :
  reachable e s ->
  session_of c s = Some ws -> readyState ws = OPEN ->
  Json.parse data = Ret message ->
  Js.get message (js "type") = Ret (VStr (js "auth")) ->
  Js.get message (js "userId") = Ret v ->
  Storage.getUserById (store s) v = Some u ->
  Storage.user_status u <> approved ->
  let s' := step e s (Receive c data) in
  s' = add_sent [(c, auth_error (js "User not approved for chat"))]
         (map_session c (bind_user u) s)
  /\ session_of c s'
     = Some (mkSession OPEN (Some (Storage.user_id u)) (Some (Storage.user_status u)))
  /\ c ∉ recipients (clients s').
Proof.
  intros Hreach Hws Hopen Hparse Htype Hv Hu Hst s'.
  pose proof (InvFacts.reachable_ok e s Hreach) as [Hstore _].
  pose proof (row_name_truthy _ _ _ _ Hstore Hu) as Htruthy.
  assert (Hs' : s' = add_sent [(c, auth_error (js "User not approved for chat"))]
                       (map_session c (bind_user u) s)).
  { unfold s'.
    rewrite (step_receive e s c ws), (on_message_typed c data message (js "auth")) by done.
    cbn [dispatch]. rewrite bool_decide_eq_true_2 by reflexivity.
    unfold handleAuth. run_prog. rewrite Hv, Htruthy. cbn [negb]. rewrite Hu.
    by rewrite bool_decide_eq_false_2. }
  split; [done|]. rewrite Hs'. split.
  - change (session_of c (add_sent _ ?x)) with (session_of c x).
    rewrite session_of_map_session, Hws, <- Hopen. reflexivity.
  - cbn [add_sent clients map_session]. rewrite elem_of_recipients.
    intros (ws' & Hin & _ & _ & Happroved).
    apply list_elem_of_In, in_map_iff in Hin as ([c0 ws0] & Heq & _).
    cbn [fst snd] in Heq. case_bool_decide; injection Heq as <- <-; [|done].
    unfold bind_user in Happroved. cbn [userStatus] in Happroved. congruence.
Qed.

Lemma unapproved_auth_rebinds_witness :
  let s := run RouteSamples.server_env initial HubSamples.opening in
  let s' := step RouteSamples.server_env s (Receive 0 (jsq "{'type':'auth','userId':2}")) in
  session_of 0 s = Some (mkSession OPEN (Some 1%Z) (Some approved))
  /\ session_of 0 s' = Some (mkSession OPEN (Some 2%Z) (Some (js "pending")))
  /\ 0%nat ∉ recipients (clients s').
Proof.
  split; [vm_compute; reflexivity|].
  apply (unapproved_auth_rebinds RouteSamples.server_env
           (run RouteSamples.server_env initial HubSamples.opening) 0
           (mkSession OPEN (Some 1%Z) (Some approved))
           (jsq "{'type':'auth','userId':2}")
           (VObj [(js "type", VStr (js "auth")); (js "userId", VNum 2)]) (VNum 2)
           (Storage.mkUser 2 43 (VStr (js "bob")) (js "Anon1090") (js "pending") 0)).
  - exists HubSamples.opening. reflexivity.
  - vm_compute. reflexivity.
  - reflexivity.
  - vm_compute. reflexivity.
  - vm_compute. reflexivity.
  - vm_compute. reflexivity.
  - vm_compute. reflexivity.
  - discriminate.
Defined.

End SessionProps.

(** ** Sending *)

Module TrimFacts.

Lemma trim_start_head (s : jsstring) :
  match Str.trim_start s with
  | [] => True
  | c :: _ => Str.is_space c = false
  end.
Proof.
  induction s as [|c s IH]; [done|]. cbn [Str.trim_start].
  by destruct (Str.is_space c) eqn:Hc.
Qed.

Lemma trim_start_fixed (s : jsstring) :
  match s with
  | [] => True
  | c :: _ => Str.is_space c = false
  end -> Str.trim_start s = s.
Proof. destruct s as [|c s]; [done|]. cbn [Str.trim_start]. by intros ->. Qed.

Lemma trim_start_suffix (s : jsstring) : exists p, s = p ++ Str.trim_start s.
Proof.
  induction s as [|c s [p IH]]; [by exists []|]. cbn [Str.trim_start].
  destruct (Str.is_space c); [|by exists []].
  exists (c :: p). cbn. by rewrite <- IH.
Qed.

(** [trim] leaves a trimmed text as it is. *)
Lemma trim_idempotent (s : jsstring) : Str.trim (Str.trim s) = Str.trim s.
Proof.
  unfold Str.trim.
  set (t := Str.trim_start s). set (r := Str.trim_start (rev t)).
  assert (Hr : Str.trim_start r = r) by apply trim_start_fixed, trim_start_head.
  assert (Hhead : Str.trim_start (rev r) = rev r).
  { apply trim_start_fixed.
    destruct (trim_start_suffix (rev t)) as [p Hp]. fold r in Hp.
    assert (Ht : t = rev r ++ rev p) by (by rewrite <- rev_app_distr, <- Hp, rev_involutive).
    pose proof (trim_start_head s) as Hs. fold t in Hs. rewrite Ht in Hs.
    by destruct (rev r). }
  by rewrite Hhead, rev_involutive, Hr.
Qed.

End TrimFacts.

Module SendFacts.
Import Hub Server HubFacts HubProps SessionFacts.

(** What one step does to the messages: nothing, or one message is added
    for a bound and approved session, with the trimmed text it sent. *)
Lemma step_messages e (s : state) (i : input) :
  Storage.messages (store (step e s i)) = Storage.messages (store s)
  \/ exists c ws uid content roomId,
       session_of c s = Some ws /\ userId ws = Some uid /\ uid <> 0%Z
       /\ userStatus ws = Some approved /\ Str.trim content <> []
       /\ Storage.messages (store (step e s i))
          = Storage.messages (store s)
            ++ [Storage.mkMessage (Z.of_nat (length (Storage.messages (store s))) + 1)
                  (Str.trim content) uid roomId (clock s)].
Proof.
  destruct i as [|c data|c|c|suffix prefix body|uid status|d]; cbn [step]; try by left.
  - destruct (session_of c s) as [ws|] eqn:Hws; [|by left].
    case_bool_decide; [|by left].
    destruct (on_message_effect c data s) as (s' & -> & Hs'). cbn [snd].
    destruct Hs' as [[msg ->]|[(m & _ & _ & Hs')|[(m & _ & _ & Hs')|(m & _ & _ & Hs')]]].
    + by left.
    + destruct (handleAuth_effect c m s) as (s'' & Heq & Hc).
      rewrite Hs' in Heq. injection Heq as <-.
      destruct Hc as [[msg ->]|[(v & u & msg & _ & _ & _ & _ & ->)|(v & u & _ & _ & _ & _ & Hc)]];
        [by left..|].
      pose proof (InvFacts.getOrCreateGlobalRoom_rows (store s)) as Hrows.
      destruct (Storage.getOrCreateGlobalRoom (store s)) as [room st] eqn:Hroom. subst s'.
      left. cbn. unfold Storage.getOrCreateGlobalRoom in Hroom.
      destruct (Storage.global_room (store s)); by injection Hroom as <- <-.
    + destruct (handleSendMessage_effect c m s) as (s'' & Heq & Hc).
      rewrite Hs' in Heq. injection Heq as <-.
      destruct Hc as [[msg ->]|(ws' & uid & content & roomId & Hws' & Huid & Hne & Hst & _ & _ & Htrim & Hc)];
        [by left|].
      right. exists c, ws', uid, content.
      destruct (Storage.getOrCreateGlobalRoom (store s)) as [room st1] eqn:Hroom.
      exists (Js.or_else roomId (VNum (inject_Z room))).
      repeat (split; [done|]).
      assert (Hm : Storage.messages st1 = Storage.messages (store s)).
      { unfold Storage.getOrCreateGlobalRoom in Hroom.
        destruct (Storage.global_room (store s)); by injection Hroom as <- <-. }
      unfold Storage.createMessage in Hc. cbn in Hc. subst s'. cbn. by rewrite Hm.
    + pose proof (handleJoinRoom_effect c m s) as Hj.
      destruct (Storage.getOrCreateGlobalRoom (store s)) as [room st] eqn:Hroom.
      rewrite Hj in Hs'. injection Hs' as <-. left. cbn.
      unfold Storage.getOrCreateGlobalRoom in Hroom.
      destruct (Storage.global_room (store s)); by injection Hroom as <- <-.
  - destruct (RoutesFacts.auth_post_effect e (ambient_of s suffix prefix) body (store s))
      as (r & st' & Hr & Hs'). rewrite Hr. cbn.
    destruct Hs' as [(-> & _)|[(tgId & u & _ & _ & -> & _)|(tgId & username & u & _ & _ & Hc & _)]];
      [by left..|].
    left. unfold Storage.createUser in Hc. by injection Hc as <- <-.
Qed.

End SendFacts.

Module SendProps.
Import Hub Server HubFacts HubProps SessionFacts SendFacts.

(** X17: a [send_message] event of a bound and approved session whose content
    is missing, [null] or blank is answered with [Message content
    required]; one whose content is anything but a string is answered
    with [Failed to send message], the call of [trim] having thrown.  In
    both cases no message is stored and nothing is broadcast. *)
Theorem bad_content_refused e (s : state) (c : nat) (ws : session)
    (data : jsstring) (message content : value) :
  session_of c s = Some ws -> readyState ws = OPEN ->
  bound (userId ws) = true -> userStatus ws = Some approved ->
  Json.parse data = Ret message ->
  Js.get message (js "type") = Ret (VStr (js "send_message")) ->
  Js.get message (js "content") = Ret content ->
  let s' := step e s (Receive c data) in
  (content = VUndefined \/ content = VNull
   \/ (exists text, content = VStr text /\ Str.trim text = []) ->
   s' = add_sent [(c, error (js "Message content required"))] s)
  /\ (content <> VUndefined -> content <> VNull -> (forall text, content <> VStr text) ->
      s' = add_sent [(c, error (js "Failed to send message"))] s).
Proof.
  intros Hws Hopen Hbound Hst Hparse Htype Hcontent s'. unfold s'.
  rewrite (step_receive e s c ws), (on_message_typed c data message (js "send_message"))
    by done.
  cbn [dispatch]. rewrite bool_decide_eq_false_2 by discriminate.
  rewrite bool_decide_eq_true_2 by reflexivity.
  destruct (typed_is_object _ _ Htype) as [props ->].
  unfold handleSendMessage. run_prog. rewrite Hws. cbn [mbind option_bind].
  rewrite Hbound, Hst. unfold is_approved. rewrite bool_decide_eq_true_2 by done.
  cbn [negb orb]. rewrite Hcontent. cbn [Js.get]. split.
  - intros [-> | [-> | (text & -> & Htrim)]]; cbn [optional_trim]; try reflexivity.
    by rewrite Htrim.
  - intros H1 H2 H3. destruct content; try done. by destruct (H3 s0).
Qed.

Lemma bad_content_refused_witness :
  let s := run RouteSamples.server_env initial HubSamples.opening in
  step RouteSamples.server_env s (Receive 0 (jsq "{'type':'send_message','content':'  '}"))
  = add_sent [(0%nat, error (js "Message content required"))] s
  /\ step RouteSamples.server_env s (Receive 0 (jsq "{'type':'send_message','content':5}"))
     = add_sent [(0%nat, error (js "Failed to send message"))] s.
Proof.
  intros s.
  destruct (bad_content_refused RouteSamples.server_env s 0
              (mkSession OPEN (Some 1%Z) (Some approved))
              (jsq "{'type':'send_message','content':'  '}")
              (VObj [(js "type", VStr (js "send_message")); (js "content", VStr (js "  "))])
              (VStr (js "  "))) as [H1 _].
  { vm_compute. reflexivity. }
  { reflexivity. }
  { reflexivity. }
  { reflexivity. }
  { vm_compute. reflexivity. }
  { vm_compute. reflexivity. }
  { vm_compute. reflexivity. }
  destruct (bad_content_refused RouteSamples.server_env s 0
              (mkSession OPEN (Some 1%Z) (Some approved))
              (jsq "{'type':'send_message','content':5}")
              (VObj [(js "type", VStr (js "send_message")); (js "content", VNum 5)])
              (VNum 5)) as [_ H2].
  { vm_compute. reflexivity. }
  { reflexivity. }
  { reflexivity. }
  { reflexivity. }
  { vm_compute. reflexivity. }
  { vm_compute. reflexivity. }
  { vm_compute. reflexivity. }
  split.
  - apply H1. right; right. exists (js "  "). split; reflexivity.
  - apply H2; discriminate.
Defined.

(** X19: in every reachable state each stored message has a text that is not
    empty and is its own trim (no white space at either end), and an
    author that is a row of the store. *)
Theorem stored_messages_are_trimmed e (s : state) :
  reachable e s ->
  Forall (fun m => Storage.message_content m <> []
                   /\ Str.trim (Storage.message_content m) = Storage.message_content m
                   /\ exists u, u ∈ Storage.users (store s)
                                /\ Storage.user_id u = Storage.message_userId m)
         (Storage.messages (store s)).
Proof.
  intros [inputs ->].
  assert (Hgen : forall s0,
    Inv.ok s0 ->
    Forall (fun m => Storage.message_content m <> []
                     /\ Str.trim (Storage.message_content m) = Storage.message_content m
                     /\ exists u, u ∈ Storage.users (store s0)
                                  /\ Storage.user_id u = Storage.message_userId m)
           (Storage.messages (store s0)) ->
    Forall (fun m => Storage.message_content m <> []
                     /\ Str.trim (Storage.message_content m) = Storage.message_content m
                     /\ exists u, u ∈ Storage.users (store (run e s0 inputs))
                                  /\ Storage.user_id u = Storage.message_userId m)
           (Storage.messages (store (run e s0 inputs)))).
  { induction inputs as [|i inputs IH]; intros s0 Hok Hall; [done|].
    change (run e s0 (i :: inputs)) with (run e (step e s0 i) inputs).
    apply IH; [by apply InvFacts.step_ok|].
    pose proof (InvFacts.step_grows e s0 i Hok) as Hgrows.
    assert (Hold : Forall (fun m => Storage.message_content m <> []
                     /\ Str.trim (Storage.message_content m) = Storage.message_content m
                     /\ exists u, u ∈ Storage.users (store (step e s0 i))
                                  /\ Storage.user_id u = Storage.message_userId m)
                     (Storage.messages (store s0))).
    { eapply Forall_impl; [exact Hall|]. intros m (H1 & H2 & u & Hu & Hid).
      split; [done|]. split; [done|].
      destruct (InvFacts.grows_elem _ _ u Hgrows Hu) as (u' & Hu' & Hkey).
      exists u'. split; [done|]. unfold Inv.key in Hkey. congruence. }
    destruct (step_messages e s0 i)
      as [->|(c & ws & uid & content & roomId & Hws & Huid & _ & _ & Htrim & ->)]; [done|].
    apply Forall_app. split; [done|]. apply Forall_singleton. cbn.
    split; [done|]. split; [apply TrimFacts.trim_idempotent|].
    destruct Hok as [_ Hsessions].
    destruct (Inv.bound_ok s0 Hsessions c ws uid (session_of_elem _ _ _ Hws) Huid)
      as (u & Hu & Hid).
    destruct (InvFacts.grows_elem _ _ u Hgrows Hu) as (u' & Hu' & Hkey).
    exists u'. split; [done|]. unfold Inv.key in Hkey. congruence. }
  apply Hgen; [apply InvFacts.ok_initial|constructor].
Qed.

Lemma stored_messages_are_trimmed_witness :
  Forall (fun m => Storage.message_content m <> []
                   /\ Str.trim (Storage.message_content m) = Storage.message_content m
                   /\ exists u, u ∈ Storage.users
                                      (store (run RouteSamples.server_env initial
                                                (HubSamples.opening ++ HubSamples.sequel)))
                                /\ Storage.user_id u = Storage.message_userId m)
         (Storage.messages (store (run RouteSamples.server_env initial
                                     (HubSamples.opening ++ HubSamples.sequel)))).
Proof.
  apply (stored_messages_are_trimmed RouteSamples.server_env).
  exists (HubSamples.opening ++ HubSamples.sequel). reflexivity.
Defined.



End SendProps.

(** ** The room *)

Module RoomFacts.
Import Hub Server HubFacts HubProps SessionFacts.

Lemma room_spec (st : Storage.t) :
  let '(room, st') := Storage.getOrCreateGlobalRoom st in
  Storage.global_room st' = Some room
  /\ (forall r, Storage.global_room st = Some r -> Storage.global_room st' = Some r).
Proof.
  unfold Storage.getOrCreateGlobalRoom.
  destruct (Storage.global_room st) as [r|] eqn:Hr; cbn; [|done].
  split; [done|]. intros r' [= <-]. done.
Qed.

Lemma in_singleton_room (c c' : nat) (ev ev' : server_event) (r : Z) :
  (c', ev') ∈ [(c, ev)] -> Rooms.room_of ev = None ->
  Rooms.room_of ev' = Some r -> False.
Proof. intros Hin Hnone. apply list_elem_of_singleton in Hin as [= -> ->]. congruence. Qed.

(** What one step sends and what it does to the room: the room, once
    there, stays; an event sent with a room id names the room of the
    store. *)
Lemma step_rooms e (s : state) (i : input) :
  exists l, sent (step e s i) = sent s ++ l
    /\ (forall r, Storage.global_room (store s) = Some r ->
                  Storage.global_room (store (step e s i)) = Some r)
    /\ (forall c ev r, (c, ev) ∈ l -> Rooms.room_of ev = Some r ->
                       Storage.global_room (store (step e s i)) = Some r).
Proof.
  assert (Hnil : forall s' : state, sent s' = sent s ->
            (forall r, Storage.global_room (store s) = Some r ->
                       Storage.global_room (store s') = Some r) ->
            exists l, sent s' = sent s ++ l
              /\ (forall r, Storage.global_room (store s) = Some r ->
                            Storage.global_room (store s') = Some r)
              /\ (forall c ev r, (c, ev) ∈ l -> Rooms.room_of ev = Some r ->
                                 Storage.global_room (store s') = Some r)).
  { intros s' Hsent Hroom. exists []. rewrite app_nil_r. split; [done|]. split; [done|].
    intros c ev r Hin. by apply elem_of_nil in Hin. }
  assert (Hone : forall c ev, Rooms.room_of ev = None ->
            exists l, sent (add_sent [(c, ev)] s) = sent s ++ l
              /\ (forall r, Storage.global_room (store s) = Some r ->
                            Storage.global_room (store (add_sent [(c, ev)] s)) = Some r)
              /\ (forall c' ev' r, (c', ev') ∈ l -> Rooms.room_of ev' = Some r ->
                     Storage.global_room (store (add_sent [(c, ev)] s)) = Some r)).
  { intros c ev Hev. exists [(c, ev)]. split; [done|]. split; [done|].
    intros c' ev' r Hin Hr. by destruct (in_singleton_room _ _ _ _ _ Hin Hev Hr). }
  destruct i as [|c data|c|c|suffix prefix body|uid status|d]; cbn [step];
    try (by apply Hnil).
  - destruct (session_of c s) as [ws|]; [|by apply Hnil].
    case_bool_decide; [|by apply Hnil].
    destruct (on_message_effect c data s) as (s' & -> & Hs'). cbn [snd].
    destruct Hs' as [[msg ->]|[(m & _ & _ & Hs')|[(m & _ & _ & Hs')|(m & _ & _ & Hs')]]].
    + by apply Hone.
    + destruct (handleAuth_effect c m s) as (s'' & Heq & Hc).
      rewrite Hs' in Heq. injection Heq as <-.
      destruct Hc as [[msg ->]|[(v & u & msg & _ & _ & _ & _ & ->)|(v & u & _ & _ & _ & _ & Hc)]].
      * by apply Hone.
      * exists [(c, auth_error msg)]. split; [done|]. split; [done|].
        intros c' ev' r Hin Hr.
        by destruct (in_singleton_room _ _ _ _ _ Hin eq_refl Hr).
      * pose proof (room_spec (store s)) as Hroom.
        destruct (Storage.getOrCreateGlobalRoom (store s)) as [room st].
        destruct Hroom as [Hnew Hkeep]. subst s'.
        eexists. split; [reflexivity|]. split; [exact Hkeep|].
        intros c' ev' r Hin Hr. cbn [store add_sent with_store].
        apply elem_of_cons in Hin as [[= -> ->]|Hin].
        -- cbn in Hr. congruence.
        -- apply list_elem_of_singleton in Hin as [= -> ->]. discriminate.
    + destruct (handleSendMessage_effect c m s) as (s'' & Heq & Hc).
      rewrite Hs' in Heq. injection Heq as <-.
      destruct Hc as [[msg ->]|(ws' & uid & content & roomId & _ & _ & _ & _ & _ & _ & _ & Hc)].
      * by apply Hone.
      * pose proof (room_spec (store s)) as Hroom.
        destruct (Storage.getOrCreateGlobalRoom (store s)) as [room st1].
        destruct Hroom as [Hnew Hkeep].
        unfold Storage.createMessage in Hc. cbn in Hc. subst s'.
        eexists. split; [reflexivity|]. split; [exact Hkeep|].
        intros c' ev' r Hin Hr.
        apply list_elem_of_In, in_map_iff in Hin as (c0 & [= <- <-] & _). discriminate.
    + pose proof (handleJoinRoom_effect c m s) as Hj.
      pose proof (room_spec (store s)) as Hroom.
      destruct (Storage.getOrCreateGlobalRoom (store s)) as [room st].
      destruct Hroom as [Hnew Hkeep].
      rewrite Hj in Hs'. injection Hs' as <-.
      eexists. split; [reflexivity|]. split; [exact Hkeep|].
      intros c' ev' r Hin Hr. apply list_elem_of_singleton in Hin as [= -> ->].
      cbn in Hr. cbn. congruence.
  - apply Hnil; [done|].
    destruct (RoutesFacts.auth_post_effect e (ambient_of s suffix prefix) body (store s))
      as (r & st' & Hr & Hs'). rewrite Hr. cbn [snd store with_store].
    destruct Hs' as [(-> & _)|[(tgId & u & _ & _ & -> & _)|(tgId & username & u & _ & _ & Hc & _)]];
      [done..|].
    unfold Storage.createUser in Hc. by injection Hc as <- <-.
Qed.

End RoomFacts.

Module RoomProps.
Import Hub Server HubFacts HubProps SessionFacts RoomFacts.

(** X21: there is one room: every [auth_success] and every [joined_room] event
    sent in a run names the global room of the store, hence any two of
    them name the same room. *)
Theorem one_room_for_all e (s : state) :
  reachable e s ->
  (forall c ev room, (c, ev) ∈ sent s -> Rooms.room_of ev = Some room ->
                     Storage.global_room (store s) = Some room)
  /\ (forall c1 ev1 room1 c2 ev2 room2,
        (c1, ev1) ∈ sent s -> Rooms.room_of ev1 = Some room1 ->
        (c2, ev2) ∈ sent s -> Rooms.room_of ev2 = Some room2 ->
        room1 = room2).
Proof.
  intros [inputs ->].
  assert (Hmain : forall c ev room,
            (c, ev) ∈ sent (run e initial inputs) -> Rooms.room_of ev = Some room ->
            Storage.global_room (store (run e initial inputs)) = Some room).
  { assert (Hgen : forall s0,
      (forall c ev room, (c, ev) ∈ sent s0 -> Rooms.room_of ev = Some room ->
                         Storage.global_room (store s0) = Some room) ->
      forall c ev room, (c, ev) ∈ sent (run e s0 inputs) -> Rooms.room_of ev = Some room ->
                        Storage.global_room (store (run e s0 inputs)) = Some room).
    { induction inputs as [|i inputs IH]; intros s0 Hinv; [done|].
      change (run e s0 (i :: inputs)) with (run e (step e s0 i) inputs).
      apply IH. intros c ev room Hin Hroom.
      destruct (step_rooms e s0 i) as (l & Hl & Hkeep & Hnew).
      rewrite Hl in Hin. apply elem_of_app in Hin as [Hin|Hin]; [|by eapply Hnew].
      by eapply Hkeep, Hinv. }
    apply Hgen. intros c ev room Hin. by apply elem_of_nil in Hin. }
  split; [exact Hmain|].
  intros c1 ev1 room1 c2 ev2 room2 H1 Hr1 H2 Hr2.
  pose proof (Hmain _ _ _ H1 Hr1). pose proof (Hmain _ _ _ H2 Hr2). congruence.
Qed.

Lemma one_room_for_all_witness :
  Storage.global_room (store (run RouteSamples.server_env initial
                                (HubSamples.opening ++ HubSamples.sequel)))
  = Some 1%Z.
Proof.
  apply (proj1 (one_room_for_all RouteSamples.server_env
                  (run RouteSamples.server_env initial
                     (HubSamples.opening ++ HubSamples.sequel))
                  (ex_intro _ (HubSamples.opening ++ HubSamples.sequel) eq_refl))
           1%nat (auth_success 1 (js "Guest4438") approved 1) 1%Z).
  - assert (Hs : sent (run RouteSamples.server_env initial
                         (HubSamples.opening ++ HubSamples.sequel))
                 = [ (0%nat, auth_success 1 (js "Guest4438") approved 1);
                     (0%nat, chat_history []);
                     (1%nat, auth_error (js "User not approved for chat"));
                     (1%nat, auth_success 1 (js "Guest4438") approved 1);
                     (1%nat, chat_history []);
                     (0%nat, new_message HubSamples.hi);
                     (1%nat, new_message HubSamples.hi) ])
      by (vm_compute; reflexivity).
    rewrite Hs. do 3 right. left.
  - reflexivity.
Defined.



End RoomProps.

(** ** Who is answered what *)

Module AccessProps.
Import Hub Server HubFacts HubProps SessionFacts.

(** X22: [join_room] asks for no authentication: on any open connection,
    bound or not, it is answered with the id and the name of the global
    room, which it creates when it is not there; the sessions, the users
    and the messages are as they were. *)
Theorem join_room_needs_no_auth e (s : state) (c : nat) (ws : session)
    (data : jsstring) (message : value) :
  session_of c s = Some ws -> readyState ws = OPEN ->
  Json.parse data = Ret message ->
  Js.get message (js "type") = Ret (VStr (js "join_room")) ->
  let s' := step e s (Receive c data) in
  exists room,
    new_sends s s' = [(c, joined_room room room_name)]
    /\ Storage.global_room (store s') = Some room
    /\ (forall r, Storage.global_room (store s) = Some r -> room = r)
    /\ clients s' = clients s
    /\ Storage.users (store s') = Storage.users (store s)
    /\ Storage.messages (store s') = Storage.messages (store s).
Proof.
  intros Hws Hopen Hparse Htype s'. unfold s'.
  rewrite (step_receive e s c ws), (on_message_typed c data message (js "join_room"))
    by done.
  cbn [dispatch]. rewrite !bool_decide_eq_false_2 by discriminate.
  rewrite bool_decide_eq_true_2 by reflexivity.
  unfold Prog.try_catch.
  pose proof (handleJoinRoom_effect c message s) as Hj.
  unfold Storage.getOrCreateGlobalRoom in Hj |- *.
  destruct (Storage.global_room (store s)) as [r|] eqn:Hroom; rewrite Hj; cbn [snd].
  - exists r. rewrite new_sends_add_sent by done. cbn.
    repeat split; try done. by intros r' [= <-].
  - exists 1%Z. rewrite new_sends_add_sent by done. cbn. repeat split; done.
Qed.

Lemma join_room_needs_no_auth_witness :
  let s := run RouteSamples.server_env initial [Connect] in
  let s' := step RouteSamples.server_env s (Receive 0 (jsq "{'type':'join_room'}")) in
  exists room,
    new_sends s s' = [(0%nat, joined_room room room_name)]
    /\ Storage.global_room (store s') = Some room
    /\ (forall r, Storage.global_room (store s) = Some r -> room = r)
    /\ clients s' = clients s
    /\ Storage.users (store s') = Storage.users (store s)
    /\ Storage.messages (store s') = Storage.messages (store s).
Proof.
  apply (join_room_needs_no_auth RouteSamples.server_env
           (run RouteSamples.server_env initial [Connect]) 0
           (mkSession OPEN None None) (jsq "{'type':'join_room'}")
           (VObj [(js "type", VStr (js "join_room"))])).
  - reflexivity.
  - reflexivity.
  - vm_compute. reflexivity.
  - vm_compute. reflexivity.
Defined.



End AccessProps.

(** ** The history over HTTP *)

Module HistoryFacts.
Import History.

Lemma item_keys (it : Hub.item) :
  Forall (fun k => k ∈ public_keys) (Js.keys (item_value it)).
Proof.
  unfold item_value, public_keys. destruct (Hub.item_user it) as [a|]; cbn.
  - destruct (Hub.author_id a), (Hub.author_anonName a); cbn;
      repeat (constructor; [repeat constructor|]); constructor.
  - repeat (constructor; [repeat constructor|]); constructor.
Qed.

Lemma body_keys (items : list Hub.item) :
  Forall (fun k => k ∈ public_keys) (Js.keys (messages_body items)).
Proof.
  unfold messages_body. cbn [Js.keys]. constructor; [repeat constructor|].
  rewrite app_nil_r.
  induction items as [|it items IH]; [constructor|].
  cbn [map]. apply Forall_app. split; [apply item_keys|exact IH].
Qed.

Lemma room_rows (st : Storage.t) :
  Storage.users (snd (Storage.getOrCreateGlobalRoom st)) = Storage.users st
  /\ Storage.messages (snd (Storage.getOrCreateGlobalRoom st)) = Storage.messages st.
Proof. unfold Storage.getOrCreateGlobalRoom. by destruct (Storage.global_room st). Qed.

End HistoryFacts.

Module HistoryProps.
Import History HistoryFacts.

(** X25: whatever the store answers to the query, the handler answers 200 or
    500; the rows of the users and of the messages are as they were (no
    more than the global room is created); a 200 body is made of the
    properties [messages], [id], [content], [createdAt], [user] and
    [anonName] only, and a 500 body is the error [Failed to load
    messages]. *)
Theorem history_is_public_and_read_only
    (fetch : Storage.t -> Z -> number
             -> outcome (list (Storage.message * option Storage.user)))
    (roomId : option jsstring) (limit : value) (st : Storage.t) :
  exists r st',
    messages_get fetch roomId limit st = (Ret r, st')
    /\ Storage.users st' = Storage.users st
    /\ Storage.messages st' = Storage.messages st
    /\ ((Routes.status_code r = 200 /\ exists items, Routes.body r = messages_body items
           /\ Forall (fun k => k ∈ public_keys) (Js.keys (Routes.body r)))
        \/ r = failed_to_load).
Proof.
  unfold messages_get, target_room. run_prog.
  assert (Hglobal : forall st1 : Storage.t,
            Storage.users st1 = Storage.users st ->
            Storage.messages st1 = Storage.messages st ->
            forall room,
            exists r st',
              (let (o, s') :=
                 let (o, s') := (fetch st1 room (limit_param limit), st1) in
                 match o with
                 | Ret a => (Ret (Routes.mkResponse 200 (messages_body (map Hub.render a))), s')
                 | Throw e => (Throw e, s')
                 end in
               match o with
               | Ret a => (Ret a, s')
               | Throw _ => (Ret (Routes.mkResponse 500
                                    (Routes.error_body (js "Failed to load messages"))), s')
               end) = (Ret r, st')
              /\ Storage.users st' = Storage.users st
              /\ Storage.messages st' = Storage.messages st
              /\ ((Routes.status_code r = 200 /\ exists items, Routes.body r = messages_body items
                     /\ Forall (fun k => k ∈ public_keys) (Js.keys (Routes.body r)))
                  \/ r = failed_to_load)).
  { intros st1 Hu Hm room. destruct (fetch st1 room (limit_param limit)) as [rows|err].
    - eexists _, _. split; [reflexivity|]. split; [done|]. split; [done|]. left.
      split; [reflexivity|]. eexists. split; [reflexivity|]. apply body_keys.
    - eexists _, _. split; [reflexivity|]. split; [done|]. split; [done|]. by right. }
  destruct (room_rows st) as [Hu Hm].
  destruct (room_param roomId) as [[|z]|]; unfold Prog.call, Prog.ret.
  - destruct (Storage.getOrCreateGlobalRoom st) as [room st1]. by apply Hglobal.
  - destruct (z =? 0)%Z.
    + destruct (Storage.getOrCreateGlobalRoom st) as [room st1]. by apply Hglobal.
    + by apply Hglobal.
  - destruct (Storage.getOrCreateGlobalRoom st) as [room st1]. by apply Hglobal.
Qed.

(** X26: the two histories agree: a request for the history that names no
    room (or names one that is not a number, or zero) and gives no limit
    is answered with the list that a session receives as [chat_history]
    when it authenticates at the same moment, and leaves the store as the
    authentication leaves it; the store is taken to list the most recent
    messages when the limit is a natural number. *)
Theorem history_matches_chat_history
    (fetch : Storage.t -> Z -> number
             -> outcome (list (Storage.message * option Storage.user)))
    e (s : Hub.state) (c : nat) (ws : Hub.session) (data : jsstring)
    (message v : value) (u : Storage.user) (roomId : option jsstring) (limit : value) :
  (forall st room n,
     fetch st room (Int (Z.of_nat n)) = Ret (Storage.getMessagesByRoomId st room n)) ->
  Server.reachable e s ->
  Hub.session_of c s = Some ws -> Hub.readyState ws = Hub.OPEN ->
  Json.parse data = Ret message ->
  Js.get message (js "type") = Ret (VStr (js "auth")) ->
  Js.get message (js "userId") = Ret v ->
  Storage.getUserById (Hub.store s) v = Some u ->
  Storage.user_status u = Hub.approved ->
  match room_param roomId with
  | Some n => falsy n = true
  | None => True
  end ->
  Js.truthy limit = false ->
  let s' := Server.step e s (Server.Receive c data) in
  exists items,
    (c, Hub.chat_history items) ∈ Server.new_sends s s'
    /\ messages_get fetch roomId limit (Hub.store s)
       = (Ret (Routes.mkResponse 200 (messages_body items)), Hub.store s').
Proof.
  intros Hfetch Hreach Hws Hopen Hparse Htype Hv Hu Hst Hroom Hlimit s'.
  pose proof (InvFacts.reachable_ok e s Hreach) as [Hstore _].
  pose proof (HubProps.row_name_truthy _ _ _ _ Hstore Hu) as Htruthy.
  assert (Hs' : s' = let '(room, st) := Storage.getOrCreateGlobalRoom (Hub.store s) in
                     Hub.add_sent
                       [(c, Hub.auth_success (Storage.user_id u) (Storage.user_anonName u)
                                             (Storage.user_status u) room);
                        (c, Hub.chat_history
                              (map Hub.render (Storage.getMessagesByRoomId st room 50)))]
                       (Hub.with_store st (Hub.map_session c (Hub.bind_user u) s))).
  { unfold s'.
    rewrite (SessionFacts.step_receive e s c ws),
            (SessionFacts.on_message_typed c data message (js "auth")) by done.
    cbn [Hub.dispatch]. rewrite bool_decide_eq_true_2 by reflexivity.
    unfold Hub.handleAuth. run_prog. rewrite Hv, Htruthy. cbn [negb]. rewrite Hu.
    rewrite bool_decide_eq_true_2 by done. cbn [negb Hub.store Hub.map_session].
    destruct (Storage.getOrCreateGlobalRoom (Hub.store s)) as [room st]. cbn [snd].
    by rewrite HubFacts.add_sent_app. }
  assert (Hget : messages_get fetch roomId limit (Hub.store s)
                 = let '(room, st) := Storage.getOrCreateGlobalRoom (Hub.store s) in
                   (Ret (Routes.mkResponse 200
                           (messages_body
                              (map Hub.render (Storage.getMessagesByRoomId st room 50)))),
                    st)).
  { unfold messages_get, limit_param. rewrite Hlimit.
    assert (Htarget : target_room (room_param roomId)
                      = Prog.call Storage.getOrCreateGlobalRoom).
    { unfold target_room. destruct (room_param roomId) as [[|z]|]; try reflexivity.
      cbn [falsy] in Hroom. by rewrite Hroom. }
    rewrite Htarget. run_prog.
    destruct (Storage.getOrCreateGlobalRoom (Hub.store s)) as [room st].
    change (Int 50) with (Int (Z.of_nat 50)). by rewrite Hfetch. }
  rewrite Hs', Hget.
  destruct (Storage.getOrCreateGlobalRoom (Hub.store s)) as [room st].
  eexists. split; [|reflexivity].
  rewrite HubProps.new_sends_add_sent by done. right. left.
Qed.

Lemma history_matches_chat_history_witness :
  let s := Server.run RouteSamples.server_env Hub.initial
             (HubSamples.opening ++ HubSamples.sequel) in
  let s' := Server.step RouteSamples.server_env s
              (Server.Receive 1 (jsq "{'type':'auth','userId':1}")) in
  exists items,
    (1%nat, Hub.chat_history items) ∈ Server.new_sends s s'
    /\ messages_get strict_fetch (Some (js "abc")) (VStr []) (Hub.store s)
       = (Ret (Routes.mkResponse 200 (messages_body items)), Hub.store s').
Proof.
  apply (history_matches_chat_history strict_fetch RouteSamples.server_env
           (Server.run RouteSamples.server_env Hub.initial
              (HubSamples.opening ++ HubSamples.sequel)) 1
           (Hub.mkSession Hub.OPEN (Some 1%Z) (Some Hub.approved))
           (jsq "{'type':'auth','userId':1}")
           (VObj [(js "type", VStr (js "auth")); (js "userId", VNum 1)]) (VNum 1)
           (Storage.mkUser 1 42 (VStr (js "alice")) (js "Guest4438") Hub.approved 0)
           (Some (js "abc")) (VStr [])).
  - intros st room n. unfold strict_fetch.
    destruct (Z.leb_spec 0 (Z.of_nat n)); [by rewrite Nat2Z.id|lia].
  - exists (HubSamples.opening ++ HubSamples.sequel). reflexivity.
  - vm_compute. reflexivity.
  - reflexivity.
  - vm_compute. reflexivity.
  - vm_compute. reflexivity.
  - vm_compute. reflexivity.
  - vm_compute. reflexivity.
  - reflexivity.
  - vm_compute. reflexivity.
  - reflexivity.
Defined.

End HistoryProps.

(** ** Numbers as texts *)

Module DigitFacts.
Import Digits.

Ltac Zify.zify_post_hook ::= Z.to_euclidean_division_equations.

(** The ten cases of a decimal digit. *)
Ltac each_digit H :=
  let E := fresh in
  match type of H with
  | is_decimal ?c =>
      assert (E : c = 48 \/ c = 49 \/ c = 50 \/ c = 51 \/ c = 52 \/ c = 53 \/ c = 54
                  \/ c = 55 \/ c = 56 \/ c = 57) by (unfold is_decimal in H; lia);
      clear H;
      destruct E as [-> | [-> | [-> | [-> | [-> | [-> | [-> | [-> | [-> | ->]]]]]]]]]
  end.

Lemma digit_value_decimal (d : N) : d < 10 -> Js.digit_value 10 (48 + d) = Some d.
Proof.
  intros Hd. unfold Js.digit_value, Hex.unhex.
  destruct (N.leb_spec 48 (48 + d)); [|lia].
  destruct (N.leb_spec (48 + d) 57); [|lia]. cbn [andb].
  replace (48 + d - 48) with d by lia.
  by destruct (N.ltb_spec d 10); [|lia].
Qed.


Lemma number_of_app (radix : N) (x y : jsstring) (a : N) :
  Js.number_of radix (x ++ y) a
  = match Js.number_of radix x a with
    | Some b => Js.number_of radix y b
    | None => None
    end.
Proof.
  revert a. induction x as [|c x IH]; intros a; [done|]. cbn [app Js.number_of].
  destruct (Js.digit_value radix c); [apply IH|done].
Qed.

Lemma digits_fuel_step (f : nat) (n : N) (acc : jsstring) :
  Js.digits_fuel (S f) n acc
  = if n <? 10 then (48 + n mod 10) :: acc
    else Js.digits_fuel f (n / 10) ((48 + n mod 10) :: acc).
Proof. reflexivity. Qed.

(** With enough fuel the digits are those of the number. *)
Lemma digits_fuel_spec (f : nat) (n : N) (acc : jsstring) :
  n < 10 ^ N.of_nat (S f) ->
  exists ds, Js.digits_fuel (S f) n acc = ds ++ acc
    /\ ds <> [] /\ Forall is_decimal ds
    /\ forall a, Js.number_of 10 ds a = Some (a * 10 ^ N.of_nat (length ds) + n).
Proof.
  revert n acc. induction f as [|f IH]; intros n acc Hn.
  - change (10 ^ N.of_nat 1) with 10 in Hn. cbn [Js.digits_fuel].
    destruct (N.ltb_spec n 10); [|lia].
    exists [48 + n mod 10]. split; [done|]. split; [done|].
    split; [constructor; [unfold is_decimal; lia|constructor]|].
    intros a. cbn [Js.number_of length]. rewrite digit_value_decimal by lia.
    f_equal. change (10 ^ N.of_nat 1) with 10. lia.
  - rewrite digits_fuel_step. destruct (N.ltb_spec n 10).
    + exists [48 + n mod 10]. split; [done|]. split; [done|].
      split; [constructor; [unfold is_decimal; lia|constructor]|].
      intros a. cbn [Js.number_of length]. rewrite digit_value_decimal by lia.
      f_equal. change (10 ^ N.of_nat 1) with 10. lia.
    + assert (Hq : n / 10 < 10 ^ N.of_nat (S f)).
      { rewrite (Nat2N.inj_succ (S f)), N.pow_succ_r' in Hn. lia. }
      destruct (IH (n / 10) ((48 + n mod 10) :: acc) Hq) as (ds & Hds & Hne & Hall & Hval).
      exists (ds ++ [48 + n mod 10]). split; [by rewrite Hds, <- app_assoc|].
      split; [by destruct ds|]. split.
      * apply Forall_app. split; [done|].
        constructor; [unfold is_decimal; lia|constructor].
      * intros a. rewrite number_of_app, Hval. cbn [Js.number_of].
        rewrite digit_value_decimal by lia. f_equal.
        rewrite length_app. cbn [length].
        replace (N.of_nat (length ds + 1)) with (N.succ (N.of_nat (length ds))) by lia.
        rewrite N.pow_succ_r'. lia.
Qed.

Lemma digits_spec (n : N) :
  exists ds, Js.digits n = ds /\ ds <> [] /\ Forall is_decimal ds
             /\ Js.number_of 10 ds 0 = Some n.
Proof.
  unfold Js.digits.
  destruct (digits_fuel_spec (N.to_nat (N.log2 n)) n []) as (ds & Hds & Hne & Hall & Hval).
  - rewrite Nat2N.inj_succ, N2Nat.id.
    destruct (N.eq_dec n 0) as [->|Hpos]; [done|].
    apply N.lt_le_trans with (2 ^ N.succ (N.log2 n)).
    + apply N.log2_spec. lia.
    + apply N.pow_le_mono_l. lia.
  - exists ds. rewrite app_nil_r in Hds. split; [done|]. split; [done|]. split; [done|].
    by rewrite Hval.
Qed.



End DigitFacts.

Module NumberFacts.
Import Digits DigitFacts.

Lemma trim_fixed (c : N) (s : jsstring) (d : N) :
  Str.is_space c = false -> last (c :: s) = Some d -> Str.is_space d = false ->
  Str.trim (c :: s) = c :: s.
Proof.
  intros Hc Hlast Hd. unfold Str.trim.
  rewrite (TrimFacts.trim_start_fixed (c :: s)) by done.
  rewrite (TrimFacts.trim_start_fixed (rev (c :: s))); [apply rev_involutive|].
  apply last_Some in Hlast as [l' Hl']. rewrite Hl', rev_app_distr. cbn. done.
Qed.

Lemma decimal_not_space (c : N) : is_decimal c -> Str.is_space c = false.
Proof. intros Hc. by each_digit Hc. Qed.

Lemma last_decimal (ds : jsstring) :
  ds <> [] -> Forall is_decimal ds -> exists d, last ds = Some d /\ is_decimal d.
Proof.
  intros Hne Hall. destruct (last ds) as [d|] eqn:Hl.
  - exists d. split; [done|]. apply last_Some in Hl as [l' ->].
    apply Forall_app in Hall as [_ Hd]. by inversion Hd.
  - apply last_None in Hl. done.
Qed.

(** [BigInt] reads back the decimal text of an integer. *)
Lemma string_to_bigint_text (z : Z) : Js.string_to_bigint (Js.int_to_string z) = Some z.
Proof.
  unfold Js.int_to_string.
  destruct (digits_spec (Z.abs_N z)) as (ds & -> & Hne & Hall & Hval).
  destruct (last_decimal ds Hne Hall) as (d & Hlast & Hd).
  destruct ds as [|c ds]; [done|].
  pose proof (proj1 (Forall_cons _ _ _) Hall) as [Hc Hds].
  unfold Js.string_to_bigint. destruct (Z.ltb_spec z 0).
  - rewrite (trim_fixed 45 (c :: ds) d); [|done| |by apply decimal_not_space].
    + unfold Js.digits_in. rewrite Hval. cbn. f_equal. lia.
    + by rewrite last_cons, Hlast.
  - rewrite (trim_fixed c ds d) by (done || by apply decimal_not_space).
    assert (Hshape : match c :: ds with
                     | [] => Some 0%Z
                     | 48 :: 120 :: r | 48 :: 88 :: r => Js.digits_in 16 r
                     | 48 :: 111 :: r | 48 :: 79 :: r => Js.digits_in 8 r
                     | 48 :: 98 :: r | 48 :: 66 :: r => Js.digits_in 2 r
                     | 45 :: r => Z.opp <$> Js.digits_in 10 r
                     | 43 :: r => Js.digits_in 10 r
                     | r => Js.digits_in 10 r
                     end = Js.digits_in 10 (c :: ds)).
    { destruct ds as [|c2 ds]; [by each_digit Hc|].
      apply Forall_cons in Hds as [Hc2 _]. each_digit Hc; try reflexivity.
      by each_digit Hc2. }
    rewrite Hshape. unfold Js.digits_in. rewrite Hval. cbn. f_equal. lia.
Qed.


End NumberFacts.

Module NumberProps.
Import Routes RoutesFacts GatewayProps History DigitFacts NumberFacts.



(** X11: an id that is a text is read as the number it spells: for every
    integer, a verified payload whose user data carry its decimal text as
    [id] is taken for that external identity, zero included (the test
    [!userData.id] lets the text [0] through, where it stops the number
    0). *)
Theorem text_id_is_read_as_number e (initData text : jsstring) props (z : Z) :
  bot_token e <> [] ->
  Verifier.verifyInitData (VStr initData) (bot_token e) = Ret true ->
  Js.own (js "user") (Qs.parse initData) = Some (VStr text) ->
  Json.parse text = Ret (VObj props) ->
  Js.own (js "id") props = Some (VStr (Js.int_to_string z)) ->
  external_identity e (request initData) = Some z.
Proof.
  intros Htok Hv Huser Hjson Hid. unfold external_identity.
  rewrite identify_verified by done. unfold user_data. rewrite Huser.
  destruct text as [|t0 text]; [discriminate|]. rewrite Hjson.
  cbn [Js.truthy negb Js.get bind]. rewrite Hid. cbn [default from_option id Js.truthy].
  destruct (digits_spec (Z.abs_N z)) as (ds & Hds & Hne & _).
  assert (Hnonempty : Js.int_to_string z <> []).
  { unfold Js.int_to_string. destruct (z <? 0)%Z; [done|congruence]. }
  rewrite bool_decide_eq_false_2 by done. cbn [negb Js.BigInt Js.to_string bind].
  by rewrite string_to_bigint_text.
Qed.

Lemma text_id_is_read_as_number_witness :
  external_identity RouteSamples.server_env (request MoreSamples.text_zero_payload)
  = Some 0%Z.
Proof.
  apply (text_id_is_read_as_number RouteSamples.server_env MoreSamples.text_zero_payload
           (jsq "{'id':'0'}") [(js "id", VStr (js "0"))] 0).
  - discriminate.
  - vm_compute. reflexivity.
  - vm_compute. reflexivity.
  - vm_compute. reflexivity.
  - reflexivity.
Defined.

End NumberProps.

(** ** From one handler to the next *)

Module ComposeFacts.
Import Hub Server HubFacts HubProps SessionFacts.

Lemma is_number_inject (n m : Z) :
  Storage.is_number n (VNum (inject_Z m)) = (n =? m)%Z.
Proof.
  cbn [Storage.is_number]. destruct (Z.eqb_spec n m) as [->|Hne].
  - apply Qeq_bool_iff. reflexivity.
  - apply not_true_is_false. intros H. apply Qeq_bool_iff in H.
    unfold Qeq in H. cbn in H. lia.
Qed.

Lemma find_ext {A} (f g : A -> bool) (l : list A) :
  (forall x, f x = g x) -> find f l = find g l.
Proof. intros H. induction l as [|a l IH]; [done|]. cbn. by rewrite H, IH. Qed.

(** The row that a number names is the row whose id it is. *)
Lemma getUserById_number (st : Storage.t) (n : Z) :
  Storage.getUserById st (VNum (inject_Z n))
  = find (fun u => (Storage.user_id u =? n)%Z) (Storage.users st).
Proof. unfold Storage.getUserById. apply find_ext. intros u. apply is_number_inject. Qed.

(** Ids being the places of the rows, a row is found by its id. *)
Lemma find_by_id (l : list Storage.user) (off : Z) (u : Storage.user) :
  (forall i x, l !! i = Some x -> Storage.user_id x = (off + Z.of_nat i + 1)%Z) ->
  u ∈ l ->
  find (fun x => (Storage.user_id x =? Storage.user_id u)%Z) l = Some u.
Proof.
  revert off. induction l as [|a l IH]; intros off Hids Hu; [by apply elem_of_nil in Hu|].
  cbn [find]. destruct (Z.eqb_spec (Storage.user_id a) (Storage.user_id u)) as [Heq|Hne].
  - apply elem_of_cons in Hu as [->|Hu]; [done|].
    apply list_elem_of_lookup in Hu as [j Hj].
    pose proof (Hids 0%nat a eq_refl). pose proof (Hids (S j) u Hj). lia.
  - apply elem_of_cons in Hu as [->|Hu]; [done|].
    apply (IH (off + 1)%Z); [|done].
    intros i x Hi. rewrite (Hids (S i) x Hi). lia.
Qed.

Lemma row_by_id now (st : Storage.t) (u : Storage.user) :
  Inv.store_ok now st -> u ∈ Storage.users st ->
  Storage.getUserById st (VNum (inject_Z (Storage.user_id u))) = Some u.
Proof.
  intros [Hids _ _ _] Hu. rewrite getUserById_number.
  apply (find_by_id _ 0); [|done]. intros i x Hi. rewrite (Hids i x Hi). lia.
Qed.


End ComposeFacts.

Module ComposeProps.
Import Hub Server HubFacts HubProps SessionFacts ComposeFacts.

(** X12: the id that a login returns opens the socket: after a request that
    is answered 200, the [id] of the body names, for [getUserById], the
    row the body was made from, so an [auth] event with that id is never
    answered [User not found]. *)
Theorem login_id_names_the_row (e : Routes.env) (a : Routes.ambient) (req_body : value)
    (st st' : Storage.t) (r : Routes.response) :
  Inv.store_ok (Routes.now a) st ->
  Routes.auth_post e a req_body st = (Ret r, st') ->
  Routes.status_code r = 200 ->
  exists u, u ∈ Storage.users st'
    /\ Routes.body r = Routes.success_body u
    /\ Storage.getUserById st' (VNum (inject_Z (Storage.user_id u))) = Some u.
Proof.
  intros Hok Hr Hcode.
  destruct (InvFacts.auth_post_ok e a req_body st Hok) as [Hok' _]. rewrite Hr in Hok'.
  cbn [snd] in Hok'.
  destruct (RoutesFacts.auth_post_effect e a req_body st)
    as (r0 & st0 & Hr0 & Hcases).
  rewrite Hr in Hr0. injection Hr0 as <- <-.
  destruct Hcases as [(_ & _ & msg & _ & Hne)|[(tgId & u & _ & Hfound & -> & ->)
                                              |(tgId & n & u & _ & _ & Hc & ->)]];
    [done| |].
  - assert (Hu : u ∈ Storage.users st) by (by apply InvFacts.find_some_elem in Hfound as [? _]).
    exists u. split; [done|]. split; [done|]. by apply (row_by_id (Routes.now a)).
  - assert (Hu : u ∈ Storage.users st').
    { unfold Storage.createUser in Hc. injection Hc as <- <-. cbn.
      apply elem_of_app. right. apply list_elem_of_here. }
    exists u. split; [done|]. split; [done|]. by apply (row_by_id (Routes.now a)).
Qed.

Lemma login_id_names_the_row_witness :
  exists u, u ∈ Storage.users (Storage.mk [RouteSamples.alice_row] [] None)
    /\ Routes.body (Routes.mkResponse 200 (Routes.success_body RouteSamples.alice_row))
       = Routes.success_body u
    /\ Storage.getUserById (Storage.mk [RouteSamples.alice_row] [] None)
         (VNum (inject_Z (Storage.user_id u))) = Some u.
Proof.
  apply (login_id_names_the_row RouteSamples.server_env RouteSamples.calm
           (Routes.request Samples.alice_payload) Storage.empty).
  - apply InvFacts.store_ok_empty.
  - vm_compute. reflexivity.
  - reflexivity.
Defined.



End ComposeProps.

